(** * The API server of typescript-go (deno fork): wire codec, capability
      registry, call client, host bridge, message pump and diagnostic maps.

    The two Go packages of [internal/ls/api.go] are embedded as two modules:
    [Ls] (package [ls]: [diagnosticMaps]) and [Api] (package [api]: [Server]).

    Conventions of the embedding.
    - Go [string] and [[]byte] are both [list byte]; a string literal is
      written [bytes "..."].
    - Unsigned and signed machine integers are [Z] with the conversion that
      wraps written out ([uint8], [uint16], [uint32], [int32]).
    - A method of [*Server] is a computation in the monad [M]: it takes the
      server, returns the server it leaves behind and one of three outcomes:
      a value, a returned [error], or a panic that is unwinding the stack. *)

From Stdlib Require Import ZArith List Lia.
From Stdlib Require Import Strings.Byte Strings.String DecimalString.
From stdpp Require Import base decidable option list gmap sorting.

Import ListNotations.
Local Open Scope Z_scope.

(** ** Bytes and fixed-width integers *)

#[global] Instance byte_eq_decision : EqDecision byte := Byte.byte_eq_dec.

#[global] Instance byte_countable : Countable byte :=
  inj_countable Byte.to_N Byte.of_N Byte.of_to_N.

(** A Go string literal, as the bytes it holds. *)
Definition bytes (s : string) : list byte := list_byte_of_string s.

(** [len(x)] as a Go [int]. *)
Definition len {A : Type} (l : list A) : Z := Z.of_nat (List.length l).

Definition uint8 (z : Z) : Z := z mod 256.
Definition uint16 (z : Z) : Z := z mod 65536.
Definition uint32 (z : Z) : Z := z mod 4294967296.
Definition int32 (z : Z) : Z := (z + 2147483648) mod 4294967296 - 2147483648.
Definition int64 (z : Z) : Z :=
  (z + 9223372036854775808) mod 18446744073709551616 - 9223372036854775808.

(** The value of a byte, [0..255]. *)
Definition Z_of_byte (b : byte) : Z := Z.of_N (Byte.to_N b).

(** The conversion [byte(z)]: the low eight bits of [z]. *)
Definition byte_of_Z (z : Z) : byte :=
  match Byte.of_N (Z.to_N (uint8 z)) with
  | Some b => b
  | None => x00
  end.

(** [strings.HasPrefix]. *)
Fixpoint HasPrefix (s prefix : list byte) : bool :=
  match prefix, s with
  | [], _ => true
  | p :: prefix', c :: s' => bool_decide (p = c) && HasPrefix s' prefix'
  | _ :: _, [] => false
  end.

(** [binary.BigEndian]: [Uint16], [Uint32] and the bytes [binary.Write]
    produces for a [uint16] and a [uint32]. *)
Definition BigEndian_Uint16 (b0 b1 : byte) : Z :=
  Z.lor (Z_of_byte b1) (Z.shiftl (Z_of_byte b0) 8).

Definition BigEndian_Uint32 (b0 b1 b2 b3 : byte) : Z :=
  Z.lor (Z.lor (Z.lor (Z_of_byte b3) (Z.shiftl (Z_of_byte b2) 8))
               (Z.shiftl (Z_of_byte b1) 16))
        (Z.shiftl (Z_of_byte b0) 24).

Definition BigEndian_PutUint16 (v : Z) : list byte :=
  [byte_of_Z (Z.shiftr v 8); byte_of_Z v].

Definition BigEndian_PutUint32 (v : Z) : list byte :=
  [byte_of_Z (Z.shiftr v 24); byte_of_Z (Z.shiftr v 16);
   byte_of_Z (Z.shiftr v 8); byte_of_Z v].

Module Ls.

(** [type DiagnosticId uint32]. *)
Definition DiagnosticId := Z.

(** A [*ast.Diagnostic]: an address in the heap of checker diagnostics. *)
Definition astDiagnosticPtr := positive.

(** An [ast.Diagnostic], as the values its accessor methods return. *)
Record astDiagnostic : Type := mkAstDiagnostic {
  ast_FileName : list byte;
  ast_Pos : Z;
  ast_End : Z;
  ast_Code : Z;
  ast_CategoryName : list byte;
  ast_Message : list byte;
  ast_MessageChain : list astDiagnosticPtr;
  ast_RelatedInformation : list astDiagnosticPtr
}.

Record Diagnostic : Type := mkDiagnostic {
  Id : DiagnosticId;
  FileName : list byte;
  Pos : Z;
  End_ : Z;
  Code : Z;
  Category : list byte;
  Message : list byte;
  MessageChain : list DiagnosticId;
  RelatedInformation : list DiagnosticId;
  ReportsUnnecessary : bool;
  ReportsDeprecated : bool;
  SkippedOnNoEmit : bool
}.

Record diagnosticMaps : Type := mkDiagnosticMaps {
  diagnosticMapById : gmap Z Diagnostic;
  diagnosticReverseMap : gmap positive DiagnosticId
}.

(** How a call ends: normally, by dereferencing a pointer that is nil or
    dangling, or with the recursion budget of the model used up. *)
Inductive result (A : Type) : Type :=
| Done (a : A)
| NilDereference
| OutOfFuel.

Arguments Done {A} a.
Arguments NilDereference {A}.
Arguments OutOfFuel {A}.

(** [for _, x := range xs { acc = append(acc, f(x)) }], the state threaded
    through the calls of [f]. *)
Fixpoint appendEach {S X Y : Type} (f : X -> S -> result (Y * S))
  (xs : list X) (acc : list Y) (d : S) : result (list Y * S) :=
  match xs with
  | [] => Done (acc, d)
  | x :: rest =>
      match f x d with
      | Done (y, d') => appendEach f rest (acc ++ [y]) d'
      | NilDereference => NilDereference
      | OutOfFuel => OutOfFuel
      end
  end.

Section Diagnostics.
(** The diagnostics of the checker, by address. *)
Variable heap : gmap positive astDiagnostic.

(** One unit of fuel is one level of nesting of a diagnostic inside the
    message chain or the related information of another. *)
Fixpoint addDiagnostic (fuel : nat) (diagnostic : astDiagnosticPtr)
  (d : diagnosticMaps) : result (DiagnosticId * diagnosticMaps) :=
  match diagnosticReverseMap d !! diagnostic with
  | Some i => Done (i, d)
  | None =>
      match fuel with
      | O => OutOfFuel
      | S fuel' =>
          match heap !! diagnostic with
          | None => NilDereference
          | Some ad =>
              let id := uint32 (Z.of_nat (size (diagnosticMapById d)) + 1) in
              let d1 :=
                mkDiagnosticMaps (diagnosticMapById d)
                  (<[diagnostic := id]> (diagnosticReverseMap d)) in
              match appendEach (addDiagnostic fuel') (ast_MessageChain ad) [] d1 with
              | Done (messageChain, d2) =>
                  match appendEach (addDiagnostic fuel')
                          (ast_RelatedInformation ad) [] d2 with
                  | Done (relatedInformation, d3) =>
                      let diag :=
                        mkDiagnostic id (ast_FileName ad) (int32 (ast_Pos ad))
                          (int32 (ast_End ad)) (ast_Code ad) (ast_CategoryName ad)
                          (ast_Message ad) messageChain relatedInformation
                          false false false in
                      Done (id, mkDiagnosticMaps
                                  (<[id := diag]> (diagnosticMapById d3))
                                  (diagnosticReverseMap d3))
                  | NilDereference => NilDereference
                  | OutOfFuel => OutOfFuel
                  end
              | NilDereference => NilDereference
              | OutOfFuel => OutOfFuel
              end
          end
      end
  end.

(** The loops of [LanguageService.GetDiagnostics] over the diagnostics of
    one kind of one file: [addDiagnostic] on each, its result dropped. *)
Fixpoint addEach (fuel : nat) (diagnostics : list astDiagnosticPtr)
  (d : diagnosticMaps) : result diagnosticMaps :=
  match diagnostics with
  | [] => Done d
  | diagnostic :: rest =>
      match addDiagnostic fuel diagnostic d with
      | Done (_, d') => addEach fuel rest d'
      | NilDereference => NilDereference
      | OutOfFuel => OutOfFuel
      end
  end.

End Diagnostics.

(** The comparison [GetDiagnostics] sorts with,
    [int(int64(a.Id) - int64(b.Id))]. *)
Definition compareIds (a b : Diagnostic) : Z :=
  int64 (int64 (Id a) - int64 (Id b)).

(** [a] may stand before [b] in a slice sorted with [compareIds]. *)
Definition notAfter (a b : Diagnostic) : Prop := compareIds a b <= 0.

#[global] Instance notAfter_dec : RelDecision notAfter :=
  fun a b => Z_le_dec (compareIds a b) 0.

(** [diagnosticMaps.GetDiagnostics]: the values of the map, sorted.  The
    order in which a map is ranged over is not specified; the values are
    taken here in the order of their keys. *)
Definition GetDiagnostics (d : diagnosticMaps) : list Diagnostic :=
  merge_sort notAfter ((map_to_list (diagnosticMapById d)).*2).

(** Every diagnostic is stored under its own id, and ids are [uint32]s. *)
Definition storedById (d : diagnosticMaps) : Prop :=
  forall k diag,
    diagnosticMapById d !! k = Some diag -> Id diag = k /\ 0 <= k < 4294967296.

(** Every diagnostic registered in [d] is registered in [d'], under the same
    id. *)
Definition registeredStill (d d' : diagnosticMaps) : Prop :=
  forall q i, diagnosticReverseMap d !! q = Some i ->
              diagnosticReverseMap d' !! q = Some i.

(** The diagnostics of the heap that are not registered yet. *)
Definition unregistered (heap : gmap positive astDiagnostic) (d : diagnosticMaps)
  : gset positive :=
  dom heap ∖ dom (diagnosticReverseMap d).

(** The message chain and the related information of every diagnostic of
    the heap point into the heap. *)
Definition closed (heap : gmap positive astDiagnostic) : Prop :=
  forall p ad c,
    heap !! p = Some ad ->
    c ∈ ast_MessageChain ad ++ ast_RelatedInformation ad ->
    is_Some (heap !! c).

Section LanguageService.
(** The program: its source files and the diagnostics of each, and the heap
    the diagnostics live in. *)
Variable heap : gmap positive astDiagnostic.
Variable SourceFile : Type.
Variable GetSourceFiles : list SourceFile.
Variable GetSyntacticDiagnostics : SourceFile -> list astDiagnosticPtr.
Variable GetSemanticDiagnostics : SourceFile -> list astDiagnosticPtr.

(** The loop of [LanguageService.GetDiagnostics] over the source files. *)
Fixpoint addFiles (fuel : nat) (sourceFiles : list SourceFile) (d : diagnosticMaps)
  : result diagnosticMaps :=
  match sourceFiles with
  | [] => Done d
  | sourceFile :: rest =>
      match addEach heap fuel (GetSyntacticDiagnostics sourceFile) d with
      | Done d1 =>
          match addEach heap fuel (GetSemanticDiagnostics sourceFile) d1 with
          | Done d2 => addFiles fuel rest d2
          | NilDereference => NilDereference
          | OutOfFuel => OutOfFuel
          end
      | NilDereference => NilDereference
      | OutOfFuel => OutOfFuel
      end
  end.

(** [LanguageService.GetDiagnostics], once the program has checked its
    source files. *)
Definition LanguageService_GetDiagnostics (fuel : nat) : result (list Diagnostic) :=
  match addFiles fuel GetSourceFiles (mkDiagnosticMaps ∅ ∅) with
  | Done d => Done (GetDiagnostics d)
  | NilDereference => NilDereference
  | OutOfFuel => OutOfFuel
  end.

End LanguageService.

End Ls.

(** * Package ast: symbol tables *)

Module Ast.

(** A [*Symbol]: nil, or the address of a symbol. *)
Definition SymbolPtr : Type := option positive.

(** What a map object of type [map[string]*Symbol] holds. *)
Abbreviation mapObject := (gmap (list byte) SymbolPtr) (only parsing).

(** A value of type [map[string]*Symbol]: nil, or a reference to a map
    object.  Copies of the value refer to the same object. *)
Definition mapValue : Type := option positive.

(** The map objects allocated so far. *)
Abbreviation Store := (gmap positive mapObject) (only parsing).

Record SymbolMap : Type := mkSymbolMap { m : mapValue }.

(** What a read of the map value sees: a nil map reads as an empty one. *)
Definition contents (st : Store) (v : mapValue) : mapObject :=
  match v with
  | None => ∅
  | Some l => default ∅ (st !! l)
  end.

(** The map value refers to an allocated object, or is nil. *)
Definition allocated (st : Store) (v : mapValue) : Prop :=
  match v with
  | None => True
  | Some l => is_Some (st !! l)
  end.

(** [make(map[string]*Symbol)]. *)
Definition make (st : Store) : mapValue * Store :=
  let l := fresh (dom st) in (Some l, <[l := ∅]> st).

(** [maps.Clone]: nil for a nil map, otherwise a new object with the same
    entries. *)
Definition maps_Clone (v : mapValue) (st : Store) : mapValue * Store :=
  match v with
  | None => (None, st)
  | Some _ => let l := fresh (dom st) in (Some l, <[l := contents st v]> st)
  end.

(** [m.m[name]]: the zero value, nil, when the name is absent. *)
Definition Get (t : SymbolMap) (name : list byte) (st : Store) : SymbolPtr :=
  default None (contents st (m t) !! name).

(** [symbol, ok := m.m[name]]. *)
Definition Get2 (t : SymbolMap) (name : list byte) (st : Store) : SymbolPtr * bool :=
  match contents st (m t) !! name with
  | Some symbol => (symbol, true)
  | None => (None, false)
  end.

(** [m.m[name] = symbol]; an assignment to an entry of a nil map panics,
    which is [None] here. *)
Definition Set_ (t : SymbolMap) (name : list byte) (symbol : SymbolPtr) (st : Store)
  : option Store :=
  match m t with
  | None => None
  | Some l => Some (<[l := <[name := symbol]> (contents st (m t))]> st)
  end.

(** [delete(m.m, name)]: nothing happens on a nil map. *)
Definition Delete (t : SymbolMap) (name : list byte) (st : Store) : Store :=
  match m t with
  | None => st
  | Some l => <[l := delete name (contents st (m t))]> st
  end.

Definition Len (t : SymbolMap) (st : Store) : Z :=
  Z.of_nat (size (contents st (m t))).

Definition Clone (t : SymbolMap) (st : Store) : SymbolMap * Store :=
  let (v, st') := maps_Clone (m t) st in (mkSymbolMap v, st').

Definition NewSymbolTable (st : Store) : SymbolMap * Store :=
  let (v, st') := make st in (mkSymbolMap v, st').

Definition NewSymbolTableFromMap (v : mapValue) : SymbolMap := mkSymbolMap v.

(** An order in which [range m.m] may yield the entries of the map: the
    language leaves it open, each entry comes once. *)
Definition ranged (t : SymbolMap) (st : Store) (entries : list (list byte * SymbolPtr))
  : Prop :=
  entries ≡ₚ map_to_list (contents st (m t)).

(** [Find], with the entries in the order in which [range] yields them. *)
Fixpoint Find (predicate : SymbolPtr -> bool) (entries : list (list byte * SymbolPtr))
  : SymbolPtr :=
  match entries with
  | [] => None
  | (_, symbol) :: rest => if predicate symbol then symbol else Find predicate rest
  end.

(** The symbol is stored in the table, under some name. *)
Definition stored (t : SymbolMap) (st : Store) (symbol : SymbolPtr) : Prop :=
  exists name, Get2 t name st = (symbol, true).

(** Table [t] in store [st] answers every lookup as [t'] in [st'] does. *)
Definition sameEntries (t : SymbolMap) (st : Store) (t' : SymbolMap) (st' : Store)
  : Prop :=
  forall name, Get2 t name st = Get2 t' name st'.

End Ast.

Module Api.

(** ** Constants *)

(** [type MessageType uint8]. *)
Definition MessageType := Z.

Definition MessageTypeUnknown : MessageType := 0.
Definition MessageTypeRequest : MessageType := 1.
Definition MessageTypeCallResponse : MessageType := 2.
Definition MessageTypeCallError : MessageType := 3.
Definition MessageTypeResponse : MessageType := 4.
Definition MessageTypeError : MessageType := 5.
Definition MessageTypeCall : MessageType := 6.

Definition IsValid (m : MessageType) : bool :=
  (MessageTypeRequest <=? m) && (m <=? MessageTypeCall).

(** [type MessagePackType uint8]. *)
Definition MessagePackTypeFixedArray3 : byte := x93.
Definition MessagePackTypeBin8 : byte := xc4.
Definition MessagePackTypeBin16 : byte := xc5.
Definition MessagePackTypeBin32 : byte := xc6.
Definition MessagePackTypeU8 : byte := xcc.

(** [type Callback int], [1 << iota]. *)
Definition Callback := Z.

Definition CallbackDirectoryExists : Callback := Z.shiftl 1 0.
Definition CallbackFileExists : Callback := Z.shiftl 1 1.
Definition CallbackGetAccessibleEntries : Callback := Z.shiftl 1 2.
Definition CallbackReadFile : Callback := Z.shiftl 1 3.
Definition CallbackRealpath : Callback := Z.shiftl 1 4.
Definition CallbackResolveModuleName : Callback := Z.shiftl 1 5.
Definition CallbackResolveTypeReferenceDirective : Callback := Z.shiftl 1 6.
Definition CallbackGetPackageJsonScopeIfApplicable : Callback := Z.shiftl 1 7.
Definition CallbackGetPackageScopeForPath : Callback := Z.shiftl 1 8.

(** ** Errors and panics *)

(** What follows the sentinel in an error built by
    [fmt.Errorf("%w: ...", ErrInvalidRequest, ...)]. *)
Inductive InvalidDetail : Type :=
| ExpectedFixedArray3 (t : byte)
| ExpectedU8 (t : byte)
| UnknownMessageType (m : MessageType)
| ExpectedBinLength (t : byte)
| ShortRead (size bytesRead : Z)
| MethodMismatch (expectedMethod method : list byte)
| ExpectedRequest (m : MessageType)
| ExpectedCallReply (m : MessageType)
| WrappedJson (text : list byte).

Inductive error : Type :=
| io_EOF
| io_ErrUnexpectedEOF
| io_WriteError (text : list byte)
| ErrInvalidRequest (d : InvalidDetail)
| ErrClientError (responsePayload : list byte)
| UnknownCallback (callback : list byte)
| json_Error (text : list byte)
| HandlerError (text : list byte)
| PanicHandlingRequest (r stack : list byte)
| runtime_Error (text : list byte).

(** The value given to [panic]. *)
Inductive panicValue : Type :=
| PanicError (e : error)
| PanicString (msg : list byte).

Inductive outcome (A : Type) : Type :=
| Ret (a : A)
| Fail (e : error)
| Panic (v : panicValue).

Arguments Ret {A} a.
Arguments Fail {A} e.
Arguments Panic {A} v.

(** ** The server *)

(** A query the server made on its local file system [s.fs]. *)
Inductive FSQuery : Type :=
| LocalDirectoryExists (path : list byte)
| LocalFileExists (path : list byte)
| LocalGetAccessibleEntries (path : list byte)
| LocalReadFile (path : list byte)
| LocalRealpath (path : list byte).

(** The fields of [Server] the modelled methods use.  [r] is what is left
    to read from the input stream, [w] is what has been written to the
    output stream, [wErr] is the error every write meets when the output
    stream is broken, and [fsQueries] records, oldest first, the queries
    made on the local file system [s.fs]. *)
Record Server : Type := mkServer {
  r : list byte;
  w : list byte;
  wErr : option error;
  enabledCallbacks : Callback;
  requestId : Z;
  fsQueries : list FSQuery
}.

Definition set_r (x : list byte) (s : Server) : Server :=
  mkServer x (w s) (wErr s) (enabledCallbacks s) (requestId s) (fsQueries s).
Definition set_w (x : list byte) (s : Server) : Server :=
  mkServer (r s) x (wErr s) (enabledCallbacks s) (requestId s) (fsQueries s).
Definition set_enabledCallbacks (x : Callback) (s : Server) : Server :=
  mkServer (r s) (w s) (wErr s) x (requestId s) (fsQueries s).
Definition set_requestId (x : Z) (s : Server) : Server :=
  mkServer (r s) (w s) (wErr s) (enabledCallbacks s) x (fsQueries s).
Definition set_fsQueries (x : list FSQuery) (s : Server) : Server :=
  mkServer (r s) (w s) (wErr s) (enabledCallbacks s) (requestId s) x.

Definition M (A : Type) : Type := Server -> outcome A * Server.

Definition ret {A : Type} (a : A) : M A := fun s => (Ret a, s).
Definition fail {A : Type} (e : error) : M A := fun s => (Fail e, s).
Definition panic {A : Type} (v : panicValue) : M A := fun s => (Panic v, s).

Definition bind {A B : Type} (m : M A) (k : A -> M B) : M B :=
  fun s =>
    match m s with
    | (Ret a, s') => k a s'
    | (Fail e, s') => (Fail e, s')
    | (Panic v, s') => (Panic v, s')
    end.

Notation "'let*' x ':=' m 'in' k" := (bind m (fun x => k))
  (at level 10, x pattern, m at level 100, k at level 200).
Notation "m ';;' k" := (bind m (fun _ => k))
  (at level 100, k at level 200, right associativity).

(** A computation whose effect on the part [proj] of the server stays
    within [R]. *)
Definition keeps {F : Type} (proj : Server -> F) (R : F -> F -> Prop) {A : Type}
  (m : M A) : Prop :=
  forall s, R (proj s) (proj (snd (m s))).

(** [proj] is a part of the server other than its two streams, and [R] is a
    preorder on it. *)
Class Framed {F : Type} (proj : Server -> F) (R : F -> F -> Prop) : Prop := {
  framed_refl : forall x, R x x;
  framed_trans : forall x y z, R x y -> R y z -> R x z;
  framed_set_r : forall x s, proj (set_r x s) = proj s;
  framed_set_w : forall x s, proj (set_w x s) = proj s
}.

(** ** The buffered reader and writer *)

(** [s.r.ReadByte()]. *)
Definition ReadByte : M byte :=
  fun s =>
    match r s with
    | [] => (Fail io_EOF, s)
    | b :: rest => (Ret b, set_r rest s)
    end.

(** [io.ReadFull(s.r, buf)] for a buffer of [size] bytes: nothing is read for
    an empty buffer; [io.EOF] when no byte is left, [io.ErrUnexpectedEOF]
    when the stream ends before the buffer is full. *)
Definition io_ReadFull (size : Z) : M (list byte) :=
  fun s =>
    if size <=? 0 then (Ret [], s)
    else if len (r s) =? 0 then (Fail io_EOF, s)
    else if len (r s) <? size then (Fail io_ErrUnexpectedEOF, set_r [] s)
    else (Ret (firstn (Z.to_nat size) (r s)), set_r (skipn (Z.to_nat size) (r s)) s).

(** [binary.Read(s.r, binary.BigEndian, &size8)] and its wider siblings. *)
Definition binary_Read_uint8 : M Z :=
  let* bs := io_ReadFull 1 in
  match bs with
  | [b0] => ret (Z_of_byte b0)
  | _ => fail io_ErrUnexpectedEOF
  end.

Definition binary_Read_uint16 : M Z :=
  let* bs := io_ReadFull 2 in
  match bs with
  | [b0; b1] => ret (BigEndian_Uint16 b0 b1)
  | _ => fail io_ErrUnexpectedEOF
  end.

Definition binary_Read_uint32 : M Z :=
  let* bs := io_ReadFull 4 in
  match bs with
  | [b0; b1; b2; b3] => ret (BigEndian_Uint32 b0 b1 b2 b3)
  | _ => fail io_ErrUnexpectedEOF
  end.

(** [s.w.Write(p)] followed, at the end of a message, by [s.w.Flush()]: the
    bytes reach the output stream unless the stream is broken. *)
Definition Write (p : list byte) : M unit :=
  fun s =>
    match wErr s with
    | Some e => (Fail e, s)
    | None => (Ret tt, set_w (w s ++ p) s)
    end.

Definition WriteByte (c : byte) : M unit := Write [c].

Definition Flush : M unit :=
  fun s =>
    match wErr s with
    | Some e => (Fail e, s)
    | None => (Ret tt, s)
    end.

(** ** Envelope codec *)

Definition readBin : M (list byte) :=
  let* t := ReadByte in
  let* size :=
    (if decide (t = MessagePackTypeBin8) then binary_Read_uint8
     else if decide (t = MessagePackTypeBin16) then binary_Read_uint16
     else if decide (t = MessagePackTypeBin32) then binary_Read_uint32
     else fail (ErrInvalidRequest (ExpectedBinLength t))) in
  let* payload := io_ReadFull size in
  let bytesRead := len payload in
  if negb (bytesRead =? size) then
    fail (ErrInvalidRequest (ShortRead size bytesRead))
  else ret payload.

Definition readRequest (expectedMethod : list byte)
  : M (MessageType * list byte * list byte) :=
  let* t := ReadByte in
  if negb (bool_decide (t = MessagePackTypeFixedArray3)) then
    fail (ErrInvalidRequest (ExpectedFixedArray3 t))
  else
  let* t := ReadByte in
  if negb (bool_decide (t = MessagePackTypeU8)) then
    fail (ErrInvalidRequest (ExpectedU8 t))
  else
  let* rawMessageType := ReadByte in
  let messageType : MessageType := Z_of_byte rawMessageType in
  if negb (IsValid messageType) then
    fail (ErrInvalidRequest (UnknownMessageType messageType))
  else
  let* rawMethod := readBin in
  let method := rawMethod in
  if negb (bool_decide (expectedMethod = [])) && negb (bool_decide (method = expectedMethod)) then
    fail (ErrInvalidRequest (MethodMismatch expectedMethod method))
  else
  let* payload := readBin in
  ret (messageType, method, payload).

Definition writeBin (payload : list byte) : M unit :=
  let length := len payload in
  (if length <? 256 then
     WriteByte MessagePackTypeBin8;;
     WriteByte (byte_of_Z length)
   else if length <? Z.shiftl 1 16 then
     WriteByte MessagePackTypeBin16;;
     Write (BigEndian_PutUint16 (uint16 length))
   else
     WriteByte MessagePackTypeBin32;;
     Write (BigEndian_PutUint32 (uint32 length)));;
  Write payload.

Definition writeMessage (messageType : MessageType) (method payload : list byte)
  : M unit :=
  WriteByte MessagePackTypeFixedArray3;;
  WriteByte MessagePackTypeU8;;
  WriteByte (byte_of_Z messageType);;
  writeBin method;;
  writeBin payload;;
  Flush.

(** The bytes [writeBin] and [writeMessage] put on the output stream. *)
Definition binWire (payload : list byte) : list byte :=
  let length := len payload in
  (if length <? 256 then [MessagePackTypeBin8; byte_of_Z length]
   else if length <? Z.shiftl 1 16 then
     MessagePackTypeBin16 :: BigEndian_PutUint16 (uint16 length)
   else MessagePackTypeBin32 :: BigEndian_PutUint32 (uint32 length))
  ++ payload.

Definition wire (messageType : MessageType) (method payload : list byte) : list byte :=
  [MessagePackTypeFixedArray3; MessagePackTypeU8; byte_of_Z messageType]
  ++ binWire method ++ binWire payload.

(** Whether a bin string at the head of [bs] uses the narrowest of the three
    length prefixes that holds its length. *)
Definition narrowestBin (bs : list byte) : bool :=
  match bs with
  | [] => false
  | t :: sizeBytes =>
      if decide (t = MessagePackTypeBin8) then true
      else if decide (t = MessagePackTypeBin16) then
        match sizeBytes with
        | b0 :: b1 :: _ => 256 <=? BigEndian_Uint16 b0 b1
        | _ => false
        end
      else if decide (t = MessagePackTypeBin32) then
        match sizeBytes with
        | b0 :: b1 :: b2 :: b3 :: _ => Z.shiftl 1 16 <=? BigEndian_Uint32 b0 b1 b2 b3
        | _ => false
        end
      else false
  end.

(** Whether the envelope at the head of the input stream has both its bin
    strings in the narrowest encoding. *)
Definition narrowestEnvelope (s : Server) : bool :=
  match r s with
  | _ :: _ :: _ :: rest =>
      narrowestBin rest &&
      match readBin (set_r rest s) with
      | (Ret _, s1) => narrowestBin (r s1)
      | _ => false
      end
  | _ => false
  end.

(** The three shapes of a bin string [readBin] accepts. *)
Inductive binShape (p rest : list byte) : list byte -> Prop :=
| shape8 (b : byte) :
    len p = Z_of_byte b ->
    binShape p rest (MessagePackTypeBin8 :: b :: p ++ rest)
| shape16 (b0 b1 : byte) :
    len p = BigEndian_Uint16 b0 b1 ->
    binShape p rest (MessagePackTypeBin16 :: b0 :: b1 :: p ++ rest)
| shape32 (b0 b1 b2 b3 : byte) :
    len p = BigEndian_Uint32 b0 b1 b2 b3 ->
    binShape p rest (MessagePackTypeBin32 :: b0 :: b1 :: b2 :: b3 :: p ++ rest).

(** ** External collaborators *)

(** [any], as far as the call client is given one: nil, an integer, a
    string, or a [map[string]any]. *)
Inductive any : Type :=
| any_nil
| any_int (n : Z)
| any_string (s : list byte)
| any_map (fields : anyFields)
with anyFields : Type :=
| fields_nil
| fields_cons (key : list byte) (value : any) (rest : anyFields).

(** [ConfigureParams]: the capability names and the log destination. *)
Record ConfigureParams : Type := mkConfigureParams {
  Callbacks : list (list byte);
  LogFile : list byte
}.

(** [vfs.Entries]. *)
Record Entries : Type := mkEntries {
  Files : list (list byte);
  Directories : list (list byte)
}.

(** The text of an error of the [json] package. *)
Definition jsonError : Type := list byte.

(** The [json] package at the types the server uses it at.  Unmarshalling
    into a pointer gives [None] for the nil pointer. *)
Class Json : Type := {
  json_Marshal : any -> jsonError + list byte;
  json_Unmarshal_ConfigureParams : list byte -> jsonError + option ConfigureParams;
  json_Unmarshal_rawEntries : list byte -> jsonError + option Entries;
  json_Unmarshal_string : list byte -> jsonError + list byte
}.

(** The local file system [s.fs], a [vfs.FS]. *)
Class LocalFS : Type := {
  fs_DirectoryExists : list byte -> bool;
  fs_FileExists : list byte -> bool;
  fs_GetAccessibleEntries : list byte -> Entries;
  fs_ReadFile : list byte -> list byte * bool;
  fs_Realpath : list byte -> list byte
}.

(** Texts declared outside this file: the two sentinel errors, the rendering
    of what is formatted after [ErrInvalidRequest], and the trace
    [debug.Stack()] captures. *)
Class Texts : Type := {
  ErrInvalidRequest_text : list byte;
  ErrClientError_text : list byte;
  detail_text : InvalidDetail -> list byte;
  debug_Stack : list byte
}.

(** The handler table of the language-service layer, [s.api.HandleRequest].
    Its file system is the server itself, so it runs in [M]. *)
Class API : Type := {
  api_HandleRequest : Z -> list byte -> list byte -> M (list byte)
}.

Section Server.
Context `{Json} `{LocalFS} `{Texts} `{API}.

(** [err.Error()]. *)
Definition Error (err : error) : list byte :=
  match err with
  | io_EOF => bytes "EOF"
  | io_ErrUnexpectedEOF => bytes "unexpected EOF"
  | io_WriteError text => text
  | ErrInvalidRequest d => ErrInvalidRequest_text ++ bytes ": " ++ detail_text d
  | ErrClientError responsePayload => ErrClientError_text ++ bytes ": " ++ responsePayload
  | UnknownCallback callback => bytes "unknown callback: " ++ callback
  | json_Error text => text
  | HandlerError text => text
  | PanicHandlingRequest r stack =>
      bytes "panic handling request: " ++ r ++ [x0a] ++ stack
  | runtime_Error text => text
  end.

(** The verb [%v] on a recovered panic value. *)
Definition fmt_v (r : panicValue) : list byte :=
  match r with
  | PanicError e => Error e
  | PanicString msg => msg
  end.

(** [if err != nil { panic(err) }]. *)
Definition orPanic {A : Type} (m : M A) : M A :=
  fun s =>
    match m s with
    | (Fail err, s') => (Panic (PanicError err), s')
    | other => other
    end.

Definition ofJson {A : Type} (x : jsonError + A) : M A :=
  match x with
  | inl text => fail (json_Error text)
  | inr a => ret a
  end.

Definition gets {A : Type} (f : Server -> A) : M A := fun s => (Ret (f s), s).

(** A query answered by the local file system. *)
Definition local {A : Type} (q : FSQuery) (answer : A) : M A :=
  fun s => (Ret answer, set_fsQueries (fsQueries s ++ [q]) s).

(** ** Capability registry *)

Definition orCallbacks (callback : Callback) : M unit :=
  fun s => (Ret tt, set_enabledCallbacks (Z.lor (enabledCallbacks s) callback) s).

Definition enableCallback (callback : list byte) : M unit :=
  if decide (callback = bytes "directoryExists") then
    orCallbacks CallbackDirectoryExists
  else if decide (callback = bytes "fileExists") then
    orCallbacks CallbackFileExists
  else if decide (callback = bytes "getAccessibleEntries") then
    orCallbacks CallbackGetAccessibleEntries
  else if decide (callback = bytes "readFile") then
    orCallbacks CallbackReadFile
  else if decide (callback = bytes "realpath") then
    orCallbacks CallbackRealpath
  else if decide (callback = bytes "resolveModuleName") then
    orCallbacks CallbackResolveModuleName
  else if decide (callback = bytes "resolveTypeReferenceDirective") then
    orCallbacks CallbackResolveTypeReferenceDirective
  else if decide (callback = bytes "getPackageJsonScopeIfApplicable") then
    orCallbacks CallbackGetPackageJsonScopeIfApplicable
  else if decide (callback = bytes "getPackageScopeForPath") then
    orCallbacks CallbackGetPackageScopeForPath
  else fail (UnknownCallback callback).

Definition CallbackEnabled (callback : Callback) (s : Server) : bool :=
  negb (Z.land (enabledCallbacks s) callback =? 0).

(** The loop of [handleConfigure] over [params.Callbacks]. *)
Fixpoint enableCallbacks (callbacks : list (list byte)) : M unit :=
  match callbacks with
  | [] => ret tt
  | callback :: rest => enableCallback callback;; enableCallbacks rest
  end.

Definition handleConfigure (payload : list byte) : M unit :=
  match json_Unmarshal_ConfigureParams payload with
  | inl text => fail (ErrInvalidRequest (WrappedJson text))
  | inr None =>
      panic (PanicError (runtime_Error
        (bytes "invalid memory address or nil pointer dereference")))
  | inr (Some params) => enableCallbacks (Callbacks params)
  end.

(** The bit [enableCallback] sets for a name, when it knows the name. *)
Definition callbackNamed (callback : list byte) : option Callback :=
  if decide (callback = bytes "directoryExists") then Some CallbackDirectoryExists
  else if decide (callback = bytes "fileExists") then Some CallbackFileExists
  else if decide (callback = bytes "getAccessibleEntries") then
    Some CallbackGetAccessibleEntries
  else if decide (callback = bytes "readFile") then Some CallbackReadFile
  else if decide (callback = bytes "realpath") then Some CallbackRealpath
  else if decide (callback = bytes "resolveModuleName") then
    Some CallbackResolveModuleName
  else if decide (callback = bytes "resolveTypeReferenceDirective") then
    Some CallbackResolveTypeReferenceDirective
  else if decide (callback = bytes "getPackageJsonScopeIfApplicable") then
    Some CallbackGetPackageJsonScopeIfApplicable
  else if decide (callback = bytes "getPackageScopeForPath") then
    Some CallbackGetPackageScopeForPath
  else None.

(** [mask] with the bits of the names in [callbacks] that have one. *)
Definition maskWith (callbacks : list (list byte)) (mask : Callback) : Callback :=
  fold_left
    (fun acc callback =>
       match callbackNamed callback with
       | Some bit => Z.lor acc bit
       | None => acc
       end)
    callbacks mask.

(** One bitmask is the other with bits OR-ed in. *)
Definition grows (mask mask' : Callback) : Prop :=
  exists bits, mask' = Z.lor mask bits.

(** Configuration requests handled one after the other on the same
    connection, whatever the outcome of each. *)
Fixpoint configureAll (payloads : list (list byte)) (s : Server) : Server :=
  match payloads with
  | [] => s
  | payload :: rest => configureAll rest (snd (handleConfigure payload s))
  end.

(** ** Dispatch of one request *)

Definition handleRequest (method payload : list byte) : M (list byte) :=
  (fun s => (Ret tt, set_requestId (int64 (requestId s + 1)) s));;
  if decide (method = bytes "configure") then
    handleConfigure payload;; ret []
  else if decide (method = bytes "echo") then
    ret payload
  else
    let* id := gets requestId in
    api_HandleRequest id method payload.

Definition sendResponse (method result : list byte) : M unit :=
  writeMessage MessageTypeResponse method result.

Definition sendError (method : list byte) (err : error) : M unit :=
  writeMessage MessageTypeError method (Error err).

(** ** Call client.  The mutex is not modelled: one caller at a time. *)

Definition call (method : list byte) (payload : any) : M (list byte) :=
  let* jsonPayload := ofJson (json_Marshal payload) in
  writeMessage MessageTypeCall method jsonPayload;;
  let* (messageType, _, responsePayload) := readRequest method in
  if negb (messageType =? MessageTypeCallResponse)
     && negb (messageType =? MessageTypeCallError) then
    fail (ErrInvalidRequest (ExpectedCallReply messageType))
  else if messageType =? MessageTypeCallError then
    fail (ErrClientError responsePayload)
  else ret responsePayload.

(** ** Host bridge: the file-system adapter *)

Definition DirectoryExists (path : list byte) : M bool :=
  let fallback := local (LocalDirectoryExists path) (fs_DirectoryExists path) in
  let* enabled := gets (CallbackEnabled CallbackDirectoryExists) in
  if enabled then
    let* result := orPanic (call (bytes "directoryExists") (any_string path)) in
    if 0 <? len result then ret (bool_decide (result = bytes "true"))
    else fallback
  else fallback.

Definition FileExists (path : list byte) : M bool :=
  let fallback := local (LocalFileExists path) (fs_FileExists path) in
  let* enabled := gets (CallbackEnabled CallbackFileExists) in
  if enabled then
    let* result := orPanic (call (bytes "fileExists") (any_string path)) in
    if 0 <? len result then ret (bool_decide (result = bytes "true"))
    else fallback
  else fallback.

Definition GetAccessibleEntries (path : list byte) : M Entries :=
  let fallback :=
    local (LocalGetAccessibleEntries path) (fs_GetAccessibleEntries path) in
  let* enabled := gets (CallbackEnabled CallbackGetAccessibleEntries) in
  if enabled then
    let* result := orPanic (call (bytes "getAccessibleEntries") (any_string path)) in
    if 0 <? len result then
      let* rawEntries := orPanic (ofJson (json_Unmarshal_rawEntries result)) in
      match rawEntries with
      | Some entries => ret (mkEntries (Files entries) (Directories entries))
      | None => fallback
      end
    else fallback
  else fallback.

Definition ReadFile (path : list byte) : M (list byte * bool) :=
  let fallback := local (LocalReadFile path) (fs_ReadFile path) in
  let* enabled := gets (CallbackEnabled CallbackReadFile) in
  if enabled && negb (HasPrefix path (bytes "bundled://")) then
    let* data := orPanic (call (bytes "readFile") (any_string path)) in
    if bool_decide (data = bytes "null") then ret ([], false)
    else if 0 <? len data then
      let* result := orPanic (ofJson (json_Unmarshal_string data)) in
      ret (result, true)
    else fallback
  else fallback.

Definition Realpath (path : list byte) : M (list byte) :=
  let fallback := local (LocalRealpath path) (fs_Realpath path) in
  let* enabled := gets (CallbackEnabled CallbackRealpath) in
  if enabled then
    let* data := orPanic (call (bytes "realpath") (any_string path)) in
    if 0 <? len data then orPanic (ofJson (json_Unmarshal_string data))
    else fallback
  else fallback.

(** ** Message pump *)

(** How [Run] ends: it returns (an error or nil), or a panic leaves it. *)
Inductive RunResult : Type :=
| Returned (err : option error)
| Crashed (v : panicValue)
| OutOfFuel.

(** The deferred closures of [Run], newest first, each with the [method] it
    captured, run while the function unwinds.  [panicking] is what
    [recover()] returns in the next closure. *)
Fixpoint runDeferred (deferred : list (list byte)) (panicking : option panicValue)
  (s : Server) : option panicValue * Server :=
  match deferred with
  | [] => (panicking, s)
  | method :: older =>
      match panicking with
      | None => runDeferred older None s
      | Some r =>
          let stack := debug_Stack in
          let err := PanicHandlingRequest (fmt_v r) stack in
          match sendError method err s with
          | (Ret _, s') => runDeferred older None s'
          | (Fail _, s') =>
              runDeferred older
                (Some (PanicString (bytes "fatal error sending panic response"))) s'
          | (Panic v, s') => runDeferred older (Some v) s'
          end
      end
  end.

(** [Run] returning [err]: the deferred closures find nothing to recover. *)
Definition returning (err : option error) (deferred : list (list byte))
  (s : Server) : RunResult * Server :=
  let (_, s') := runDeferred deferred None s in (Returned err, s').

(** A panic unwinding [Run]: when a deferred closure recovers it, [Run]
    returns the zero value of its result, nil. *)
Definition unwinding (v : panicValue) (deferred : list (list byte))
  (s : Server) : RunResult * Server :=
  match runDeferred deferred (Some v) s with
  | (None, s') => (Returned None, s')
  | (Some v', s') => (Crashed v', s')
  end.

(** [Run], with the deferred closures registered so far.  One unit of fuel
    is one iteration of the [for] loop. *)
Fixpoint RunLoop (fuel : nat) (deferred : list (list byte)) (s : Server)
  : RunResult * Server :=
  match fuel with
  | O => (OutOfFuel, s)
  | S fuel' =>
      match readRequest [] s with
      | (Fail err, s1) => returning (Some err) deferred s1
      | (Panic v, s1) => unwinding v deferred s1
      | (Ret (messageType, method, payload), s1) =>
          if messageType =? MessageTypeRequest then
            let deferred := method :: deferred in
            match handleRequest method payload s1 with
            | (Panic v, s2) => unwinding v deferred s2
            | (Fail err, s2) =>
                match sendError method err s2 with
                | (Ret _, s3) => RunLoop fuel' deferred s3
                | (Fail err', s3) => returning (Some err') deferred s3
                | (Panic v, s3) => unwinding v deferred s3
                end
            | (Ret result, s2) =>
                match sendResponse method result s2 with
                | (Ret _, s3) => RunLoop fuel' deferred s3
                | (Fail err', s3) => returning (Some err') deferred s3
                | (Panic v, s3) => unwinding v deferred s3
                end
            end
          else
            returning (Some (ErrInvalidRequest (ExpectedRequest messageType)))
                      deferred s1
      end
  end.

Definition Run (fuel : nat) (s : Server) : RunResult * Server :=
  RunLoop fuel [] s.

End Server.

(** ** Host bridge: the resolver adapter *)

(** [PackageJsonIfApplicable], the reply to [getPackageJsonScopeIfApplicable]. *)
Record PackageJsonIfApplicable : Type := mkPackageJsonIfApplicable {
  reply_PackageDirectory : list byte;
  reply_DirectoryExists : bool;
  reply_Contents : list byte
}.

(** [packagejson.InfoCacheEntry]; [Contents] points to a [PackageJson] that
    holds the parsed fields, or is nil. *)
Record InfoCacheEntry (Fields : Type) : Type := mkInfoCacheEntry {
  entry_PackageDirectory : list byte;
  entry_DirectoryExists : bool;
  entry_Contents : option Fields
}.

Arguments mkInfoCacheEntry {Fields} _ _ _.
Arguments entry_PackageDirectory {Fields} _.
Arguments entry_DirectoryExists {Fields} _.
Arguments entry_Contents {Fields} _.

(** What the resolver adapter takes from outside this file: the types of
    the [packagejson] and [module] packages, [packagejson.Parse], the [json]
    package at those types, and the local resolver [r.inner]. *)
Class Resolver : Type := {
  Fields : Type;
  ResolvedModule : Type;
  ResolvedTypeReferenceDirective : Type;
  packagejson_Parse : list byte -> jsonError + Fields;
  json_Unmarshal_PackageJsonIfApplicable : list byte -> jsonError + PackageJsonIfApplicable;
  json_Unmarshal_InfoCacheEntry : list byte -> jsonError + InfoCacheEntry Fields;
  json_Unmarshal_ResolvedModule : list byte -> jsonError + ResolvedModule;
  json_Unmarshal_ResolvedTypeReferenceDirective :
    list byte -> jsonError + ResolvedTypeReferenceDirective;
  inner_GetPackageJsonScopeIfApplicable : list byte -> option (InfoCacheEntry Fields);
  inner_GetPackageScopeForPath : list byte -> option (InfoCacheEntry Fields);
  inner_ResolveModuleName :
    list byte -> list byte -> Z -> any -> option ResolvedModule * list (list byte);
  inner_ResolveTypeReferenceDirective :
    list byte -> list byte -> Z -> any
    -> option ResolvedTypeReferenceDirective * list (list byte)
}.

Section ResolverWrapper.
Context `{Json} `{Resolver}.

Definition GetPackageJsonScopeIfApplicable (path : list byte)
  : M (option (InfoCacheEntry Fields)) :=
  let* enabled := gets (CallbackEnabled CallbackGetPackageJsonScopeIfApplicable) in
  if enabled then
    let* result :=
      orPanic (call (bytes "getPackageJsonScopeIfApplicable") (any_string path)) in
    if 0 <? len result then
      let* res := orPanic (ofJson (json_Unmarshal_PackageJsonIfApplicable result)) in
      let* contents := orPanic (ofJson (packagejson_Parse (reply_Contents res))) in
      ret (Some (mkInfoCacheEntry (reply_PackageDirectory res)
                   (reply_DirectoryExists res) (Some contents)))
    else ret None
  else ret (inner_GetPackageJsonScopeIfApplicable path).

Definition GetPackageScopeForPath (directory : list byte)
  : M (option (InfoCacheEntry Fields)) :=
  let fallback := ret (inner_GetPackageScopeForPath directory) in
  let* enabled := gets (CallbackEnabled CallbackGetPackageScopeForPath) in
  if enabled then
    let* result := orPanic (call (bytes "getPackageScopeForPath") (any_string directory)) in
    if 0 <? len result then
      let* res := orPanic (ofJson (json_Unmarshal_InfoCacheEntry result)) in
      ret (Some res)
    else fallback
  else fallback.

Definition ResolveModuleName (moduleName containingFile : list byte)
  (resolutionMode : Z) (redirectedReference : any)
  : M (option ResolvedModule * list (list byte)) :=
  let fallback :=
    ret (inner_ResolveModuleName moduleName containingFile resolutionMode
           redirectedReference) in
  let* enabled := gets (CallbackEnabled CallbackResolveModuleName) in
  if enabled then
    let* result :=
      orPanic (call (bytes "resolveModuleName")
                 (any_map
                    (fields_cons (bytes "moduleName") (any_string moduleName)
                    (fields_cons (bytes "containingFile") (any_string containingFile)
                    (fields_cons (bytes "resolutionMode") (any_int resolutionMode)
                    (fields_cons (bytes "redirectedReference") redirectedReference
                     fields_nil)))))) in
    if 0 <? len result then
      let* res := orPanic (ofJson (json_Unmarshal_ResolvedModule result)) in
      ret (Some res, [])
    else fallback
  else fallback.

Definition ResolveTypeReferenceDirective
  (typeReferenceDirectiveName containingFile : list byte)
  (resolutionMode : Z) (redirectedReference : any)
  : M (option ResolvedTypeReferenceDirective * list (list byte)) :=
  let fallback :=
    ret (inner_ResolveTypeReferenceDirective typeReferenceDirectiveName containingFile
           resolutionMode redirectedReference) in
  let* enabled := gets (CallbackEnabled CallbackResolveTypeReferenceDirective) in
  if enabled then
    let* result :=
      orPanic (call (bytes "resolveTypeReferenceDirective")
                 (any_map
                    (fields_cons (bytes "typeReferenceDirectiveName")
                       (any_string typeReferenceDirectiveName)
                    (fields_cons (bytes "containingFile") (any_string containingFile)
                    (fields_cons (bytes "resolutionMode") (any_int resolutionMode)
                    (fields_cons (bytes "redirectedReference") redirectedReference
                     fields_nil)))))) in
    if 0 <? len result then
      let* res := orPanic (ofJson (json_Unmarshal_ResolvedTypeReferenceDirective result)) in
      ret (Some res, [])
    else fallback
  else fallback.

End ResolverWrapper.

(** ** Several envelopes on one stream *)

(** One call of [writeMessage] for each envelope, in order. *)
Fixpoint writeMessages (envelopes : list (MessageType * list byte * list byte))
  : M unit :=
  match envelopes with
  | [] => ret tt
  | (messageType, method, payload) :: rest =>
      writeMessage messageType method payload;; writeMessages rest
  end.

(** [n] calls of [readRequest("")], one after the other. *)
Fixpoint readRequests (n : nat) : M (list (MessageType * list byte * list byte)) :=
  match n with
  | O => ret []
  | S n' =>
      let* envelope := readRequest [] in
      let* rest := readRequests n' in
      ret (envelope :: rest)
  end.

(** The bytes of a sequence of envelopes. *)
Definition wires (envelopes : list (MessageType * list byte * list byte)) : list byte :=
  concat (map (fun '(messageType, method, payload) => wire messageType method payload)
              envelopes).

(** An envelope the codec carries unchanged: a valid kind, and a method and
    a payload whose lengths fit the four-byte length prefix. *)
Definition carried (envelope : MessageType * list byte * list byte) : Prop :=
  let '(messageType, method, payload) := envelope in
  IsValid messageType = true
  /\ len method <= 4294967295 /\ len payload <= 4294967295.

(** The nine capabilities: the name a configuration request uses and the
    bit of the registry. *)
Definition capabilities : list (list byte * Callback) :=
  [ (bytes "directoryExists", CallbackDirectoryExists);
    (bytes "fileExists", CallbackFileExists);
    (bytes "getAccessibleEntries", CallbackGetAccessibleEntries);
    (bytes "readFile", CallbackReadFile);
    (bytes "realpath", CallbackRealpath);
    (bytes "resolveModuleName", CallbackResolveModuleName);
    (bytes "resolveTypeReferenceDirective", CallbackResolveTypeReferenceDirective);
    (bytes "getPackageJsonScopeIfApplicable", CallbackGetPackageJsonScopeIfApplicable);
    (bytes "getPackageScopeForPath", CallbackGetPackageScopeForPath) ].

(** A computation that does nothing to the server but take bytes off the
    front of the input stream. *)
Definition readsOnly {A : Type} (m : M A) : Prop :=
  forall s,
    snd (m s) = set_r (r (snd (m s))) s
    /\ exists consumed, r s = consumed ++ r (snd (m s)).

(** The two errors of a stream that ends too early. *)
Definition endOfStream (e : error) : Prop := e = io_EOF \/ e = io_ErrUnexpectedEOF.

End Api.

(** ** A concrete peer: stand-ins for the collaborators, for the examples *)

Module Fixture.
Import Api.

Definition quote (str : list byte) : list byte := [x22] ++ str ++ [x22].

(** The body of a JSON string without escapes, up to its closing quote. *)
Fixpoint untilQuote (l : list byte) : option (list byte * list byte) :=
  match l with
  | [] => None
  | c :: rest =>
      if decide (c = x22) then Some ([], rest)
      else match untilQuote rest with
           | Some (str, rest') => Some (c :: str, rest')
           | None => None
           end
  end.

(** A JSON array of such strings, after its opening bracket. *)
Fixpoint stringArray (fuel : nat) (l : list byte)
  : option (list (list byte) * list byte) :=
  match fuel, l with
  | S fuel', c :: rest =>
      if decide (c = x5d) then Some ([], rest)
      else if decide (c = x2c) then stringArray fuel' rest
      else if decide (c = x22) then
        match untilQuote rest with
        | Some (str, rest') =>
            match stringArray fuel' rest' with
            | Some (strs, rest'') => Some (str :: strs, rest'')
            | None => None
            end
        | None => None
        end
      else None
  | _, _ => None
  end.

(** [l] without [prefix], when it starts with it. *)
Fixpoint stripPrefix (prefix l : list byte) : option (list byte) :=
  match prefix, l with
  | [], _ => Some l
  | p :: prefix', c :: l' => if decide (p = c) then stripPrefix prefix' l' else None
  | _ :: _, [] => None
  end.

Definition syntaxError : jsonError := bytes "json: syntax error".

Definition marshal (v : any) : jsonError + list byte :=
  match v with
  | any_string str => inr (quote str)
  | any_nil => inr (bytes "null")
  | _ => inl (bytes "json: unsupported value")
  end.

(** An object with the one member [callbacks], or null. *)
Definition unmarshalConfigureParams (data : list byte)
  : jsonError + option ConfigureParams :=
  if decide (data = bytes "null") then inr None
  else
    match stripPrefix (bytes "{" ++ quote (bytes "callbacks") ++ bytes ":[") data with
    | Some rest =>
        match stringArray (List.length rest) rest with
        | Some (names, tail) =>
            if decide (tail = bytes "}") then inr (Some (mkConfigureParams names []))
            else inl syntaxError
        | None => inl syntaxError
        end
    | None => inl syntaxError
    end.

(** An object with the members [files] and [directories], or null. *)
Definition unmarshalRawEntries (data : list byte) : jsonError + option Entries :=
  if decide (data = bytes "null") then inr None
  else
    match stripPrefix (bytes "{" ++ quote (bytes "files") ++ bytes ":[") data with
    | Some rest =>
        match stringArray (List.length rest) rest with
        | Some (files, tail) =>
            match stripPrefix (bytes "," ++ quote (bytes "directories") ++ bytes ":[") tail with
            | Some rest' =>
                match stringArray (List.length rest') rest' with
                | Some (dirs, tail') =>
                    if decide (tail' = bytes "}") then inr (Some (mkEntries files dirs))
                    else inl syntaxError
                | None => inl syntaxError
                end
            | None => inl syntaxError
            end
        | None => inl syntaxError
        end
    | None => inl syntaxError
    end.

Definition unmarshalString (data : list byte) : jsonError + list byte :=
  match data with
  | c :: rest =>
      if decide (c = x22) then
        match untilQuote rest with
        | Some (str, []) => inr str
        | _ => inl syntaxError
        end
      else inl syntaxError
  | [] => inl syntaxError
  end.

#[export] Instance json : Json := {
  json_Marshal := marshal;
  json_Unmarshal_ConfigureParams := unmarshalConfigureParams;
  json_Unmarshal_rawEntries := unmarshalRawEntries;
  json_Unmarshal_string := unmarshalString
}.

(** A local file system that holds the one file [/local.ts]. *)
#[export] Instance fs : LocalFS := {
  fs_DirectoryExists path := bool_decide (path = bytes "/");
  fs_FileExists path := bool_decide (path = bytes "/local.ts");
  fs_GetAccessibleEntries path :=
    if decide (path = bytes "/") then mkEntries [bytes "local.ts"] []
    else mkEntries [] [];
  fs_ReadFile path :=
    if decide (path = bytes "/local.ts") then (bytes "let x = 1", true)
    else ([], false);
  fs_Realpath path := path
}.

#[export] Instance texts : Texts := {
  ErrInvalidRequest_text := bytes "api: invalid request";
  ErrClientError_text := bytes "api: client error";
  detail_text d :=
    match d with
    | MethodMismatch expectedMethod method =>
        bytes "expected method " ++ quote expectedMethod
        ++ bytes ", received " ++ quote method
    | WrappedJson text => text
    | _ => bytes "malformed message"
    end;
  debug_Stack := bytes "goroutine 1 [running]"
}.

(** A handler table with three methods: [boom] panics, [fileExists] asks the
    host bridge, and [readFile] reads through the host bridge. *)
#[export] Instance api : API := {
  api_HandleRequest id method payload :=
    if decide (method = bytes "boom") then
      panic (PanicString (bytes "boom"))
    else if decide (method = bytes "fileExists") then
      let* exists_ := FileExists payload in
      ret (if exists_ : bool then bytes "true" else bytes "false")
    else if decide (method = bytes "readFile") then
      let* (contents, _) := ReadFile payload in
      ret contents
    else fail (HandlerError (bytes "unknown method"))
}.

(** A fresh server reading [input]. *)
Definition connect (input : list byte) : Server := mkServer input [] None 0 0 [].

(** The configuration payload that lists [names]. *)
Fixpoint commaSeparated (names : list (list byte)) : list byte :=
  match names with
  | [] => []
  | [name] => quote name
  | name :: rest => quote name ++ bytes "," ++ commaSeparated rest
  end.

Definition configurePayload (names : list (list byte)) : list byte :=
  bytes "{" ++ quote (bytes "callbacks") ++ bytes ":[" ++ commaSeparated names ++ bytes "]}".

(** A [json] package that also marshals integers and maps, members in the
    order given. *)
Fixpoint marshalAny (v : any) : list byte :=
  match v with
  | any_nil => bytes "null"
  | any_int n => bytes (NilZero.string_of_int (Z.to_int n))
  | any_string str => quote str
  | any_map fields => bytes "{" ++ marshalFields fields ++ bytes "}"
  end
with marshalFields (fields : anyFields) : list byte :=
  match fields with
  | fields_nil => []
  | fields_cons key value fields_nil => quote key ++ bytes ":" ++ marshalAny value
  | fields_cons key value rest =>
      quote key ++ bytes ":" ++ marshalAny value ++ bytes "," ++ marshalFields rest
  end.

Definition jsonWithMaps : Json := {|
  json_Marshal v := inr (marshalAny v);
  json_Unmarshal_ConfigureParams := unmarshalConfigureParams;
  json_Unmarshal_rawEntries := unmarshalRawEntries;
  json_Unmarshal_string := unmarshalString
|}.

(** A resolver whose results are plain texts: a reply is a JSON string that
    holds the package directory or the resolved file name, and the local
    resolver knows the one package [/local]. *)
#[export] Instance resolver : Resolver := {
  Fields := list byte;
  ResolvedModule := list byte;
  ResolvedTypeReferenceDirective := list byte;
  packagejson_Parse data := if decide (data = []) then inl syntaxError else inr data;
  json_Unmarshal_PackageJsonIfApplicable data :=
    match unmarshalString data with
    | inr directory => inr (mkPackageJsonIfApplicable directory true (bytes "{}"))
    | inl text => inl text
    end;
  json_Unmarshal_InfoCacheEntry data :=
    match unmarshalString data with
    | inr directory => inr (mkInfoCacheEntry directory true None)
    | inl text => inl text
    end;
  json_Unmarshal_ResolvedModule := unmarshalString;
  json_Unmarshal_ResolvedTypeReferenceDirective := unmarshalString;
  inner_GetPackageJsonScopeIfApplicable path :=
    Some (mkInfoCacheEntry (bytes "/local") true None);
  inner_GetPackageScopeForPath directory :=
    Some (mkInfoCacheEntry (bytes "/local") true None);
  inner_ResolveModuleName moduleName containingFile resolutionMode redirectedReference :=
    (None, [bytes "not found locally"]);
  inner_ResolveTypeReferenceDirective name containingFile resolutionMode
      redirectedReference :=
    (None, [bytes "not found locally"])
}.

(** Two checker diagnostics: the first has the second in its message chain
    and, again, in its related information. *)
Definition diagnostics : gmap positive Ls.astDiagnostic :=
  <[1%positive := Ls.mkAstDiagnostic (bytes "/a.ts") 10 20 2322 (bytes "error")
                    (bytes "not assignable") [2%positive] [2%positive]]>
  (<[2%positive := Ls.mkAstDiagnostic (bytes "/a.ts") 12 14 2345 (bytes "error")
                     (bytes "types differ") [] []]> ∅).

Definition noDiagnostics : Ls.diagnosticMaps := Ls.mkDiagnosticMaps ∅ ∅.

(** Two checker diagnostics that refer to each other. *)
Definition cyclicDiagnostics : gmap positive Ls.astDiagnostic :=
  <[1%positive := Ls.mkAstDiagnostic (bytes "/a.ts") 10 20 2322 (bytes "error")
                    (bytes "first") [2%positive] []]>
  (<[2%positive := Ls.mkAstDiagnostic (bytes "/b.ts") 12 14 2345 (bytes "error")
                     (bytes "second") [] [1%positive]]> ∅).

(** Two diagnostics stored by id, the larger id entered first. *)
Definition storedDiagnostics : Ls.diagnosticMaps :=
  Ls.mkDiagnosticMaps
    (<[2 := Ls.mkDiagnostic 2 (bytes "/b.ts") 0 1 1 (bytes "error") (bytes "b") [] []
              false false false]>
     (<[1 := Ls.mkDiagnostic 1 (bytes "/a.ts") 0 1 1 (bytes "error") (bytes "a") [] []
               false false false]> ∅))
    ∅.

(** A store with one map object, and the table over it. *)
Definition symbols : Ast.Store :=
  <[1%positive := <[bytes "a" := Some 7%positive]> (<[bytes "b" := Some 8%positive]> ∅)]> ∅.

Definition symbolTable : Ast.SymbolMap := Ast.NewSymbolTableFromMap (Some 1%positive).

End Fixture.

Module LsProofs.
Import Ls.

(** Every diagnostic registered in [d] is registered in [d'], under the same
    id. *)
Definition persists (d d' : diagnosticMaps) : Prop :=
  forall q i, diagnosticReverseMap d !! q = Some i ->
              diagnosticReverseMap d' !! q = Some i.

Lemma persists_refl (d : diagnosticMaps) : persists d d.
Proof. intros q i Hq. exact Hq. Qed.

Lemma persists_trans (d1 d2 d3 : diagnosticMaps) :
  persists d1 d2 -> persists d2 d3 -> persists d1 d3.
Proof. intros H12 H23 q i Hq. apply H23, H12, Hq. Qed.

Lemma appendEach_persists {X Y : Type}
  (f : X -> diagnosticMaps -> result (Y * diagnosticMaps)) :
  (forall x d y d', f x d = Done (y, d') -> persists d d') ->
  forall xs acc d ys d',
    appendEach f xs acc d = Done (ys, d') -> persists d d'.
Proof.
  intros Hf xs. induction xs as [|x rest IH]; intros acc d ys d' Hrun; cbn in Hrun.
  - injection Hrun as <- <-. apply persists_refl.
  - destruct (f x d) as [[y d1]| |] eqn:Hx; try discriminate.
    eapply persists_trans; [eapply Hf, Hx | eapply IH, Hrun].
Qed.

Section Diagnostics.
Variable heap : gmap positive astDiagnostic.

Lemma addDiagnostic_inv (fuel : nat) (diagnostic : astDiagnosticPtr)
  (d d' : diagnosticMaps) (id : DiagnosticId) :
  addDiagnostic heap fuel diagnostic d = Done (id, d') ->
  diagnosticReverseMap d !! diagnostic = Some id /\ d' = d
  \/ diagnosticReverseMap d !! diagnostic = None
     /\ exists fuel' ad chain d2 related d3,
         fuel = S fuel' /\ heap !! diagnostic = Some ad
         /\ appendEach (addDiagnostic heap fuel') (ast_MessageChain ad) []
              (mkDiagnosticMaps (diagnosticMapById d)
                 (<[diagnostic := id]> (diagnosticReverseMap d)))
            = Done (chain, d2)
         /\ appendEach (addDiagnostic heap fuel') (ast_RelatedInformation ad) [] d2
            = Done (related, d3)
         /\ diagnosticReverseMap d' = diagnosticReverseMap d3
         /\ id = uint32 (Z.of_nat (size (diagnosticMapById d)) + 1).
Proof.
  intros Hrun. destruct fuel as [|fuel']; cbn [addDiagnostic] in Hrun.
  - destruct (diagnosticReverseMap d !! diagnostic) as [i|] eqn:Hi; [|discriminate].
    injection Hrun as <- <-. left. split; reflexivity.
  - destruct (diagnosticReverseMap d !! diagnostic) as [i|] eqn:Hi.
    { injection Hrun as <- <-. left. split; reflexivity. }
    right. split; [reflexivity|].
    destruct (heap !! diagnostic) as [ad|] eqn:Had; [|discriminate].
    destruct (appendEach _ (ast_MessageChain ad) _ _) as [[chain d2]| |] eqn:Hchain;
      try discriminate.
    destruct (appendEach _ (ast_RelatedInformation ad) _ _) as [[related d3]| |]
      eqn:Hrelated; try discriminate.
    injection Hrun as <- <-.
    exists fuel', ad, chain, d2, related, d3. repeat split; assumption.
Qed.

Lemma addDiagnostic_persists (fuel : nat) :
  forall diagnostic d id d',
    addDiagnostic heap fuel diagnostic d = Done (id, d') -> persists d d'.
Proof.
  induction fuel as [|fuel IH]; intros diagnostic d id d' Hrun;
    apply addDiagnostic_inv in Hrun
      as [[_ ->] | (Hnew & fuel' & ad & chain & d2 & related & d3
                    & Hfuel & _ & Hchain & Hrelated & Hrev & _)];
    try apply persists_refl; [discriminate|].
  injection Hfuel as <-.
  intros q i Hq. rewrite Hrev.
  apply (appendEach_persists _ IH _ _ _ _ _ Hrelated).
  apply (appendEach_persists _ IH _ _ _ _ _ Hchain).
  cbn [diagnosticReverseMap].
  rewrite lookup_insert_ne; [exact Hq |].
  intros Heq. subst q. unfold astDiagnosticPtr in *. rewrite Hq in Hnew. discriminate.
Qed.

Lemma addDiagnostic_registers (fuel : nat) (diagnostic : astDiagnosticPtr)
  (d d' : diagnosticMaps) (id : DiagnosticId) :
  addDiagnostic heap fuel diagnostic d = Done (id, d') ->
  diagnosticReverseMap d' !! diagnostic = Some id.
Proof.
  intros Hrun.
  apply addDiagnostic_inv in Hrun
    as [[Hold ->] | (Hnew & fuel' & ad & chain & d2 & related & d3
                     & _ & _ & Hchain & Hrelated & Hrev & _)];
    [exact Hold|].
  rewrite Hrev.
  apply (appendEach_persists _ (addDiagnostic_persists fuel') _ _ _ _ _ Hrelated).
  apply (appendEach_persists _ (addDiagnostic_persists fuel') _ _ _ _ _ Hchain).
  cbn [diagnosticReverseMap]. apply lookup_insert_eq.
Qed.

(** C10. [addDiagnostic] on a diagnostic already in the reverse map
    returns the id found there and changes neither map, whatever the depth
    allowed to the recursion.  In particular, after a call that registered a
    diagnostic, a second call with it returns the id the first one returned
    and leaves the maps as the first one left them. *)
Theorem addDiagnostic_idempotent :
  (forall fuel diagnostic d i,
      diagnosticReverseMap d !! diagnostic = Some i ->
      addDiagnostic heap fuel diagnostic d = Done (i, d))
  /\ (forall fuel fuel' diagnostic d id d',
        addDiagnostic heap fuel diagnostic d = Done (id, d') ->
        addDiagnostic heap fuel' diagnostic d' = Done (id, d')).
Proof.
  assert (Hfound : forall fuel diagnostic d i,
             diagnosticReverseMap d !! diagnostic = Some i ->
             addDiagnostic heap fuel diagnostic d = Done (i, d)).
  { intros fuel diagnostic d i Hi. destruct fuel; cbn [addDiagnostic]; rewrite Hi;
      reflexivity. }
  split; [exact Hfound|].
  intros fuel fuel' diagnostic d id d' Hrun.
  apply Hfound. eapply addDiagnostic_registers, Hrun.
Qed.

End Diagnostics.

Lemma addDiagnostic_idempotent_witness :
  let first :=
    Ls.mkDiagnosticMaps
      (<[1 := Ls.mkDiagnostic 1 (bytes "/a.ts") 10 20 2322 (bytes "error")
                (bytes "not assignable") [1] [1] false false false]> ∅)
      (<[1%positive := 1]> (<[2%positive := 1]> ∅)) in
  addDiagnostic Fixture.diagnostics 2 1%positive Fixture.noDiagnostics = Done (1, first)
  /\ addDiagnostic Fixture.diagnostics 0 1%positive first = Done (1, first)
  /\ addDiagnostic Fixture.diagnostics 0 2%positive first = Done (1, first).
Proof.
  cbv zeta.
  destruct (addDiagnostic_idempotent Fixture.diagnostics) as [Hfound Hagain].
  split; [vm_compute; reflexivity|]. split.
  - apply (Hagain 2%nat 0%nat 1%positive Fixture.noDiagnostics). vm_compute. reflexivity.
  - apply Hfound. vm_compute. reflexivity.
Defined.

End LsProofs.

Module ApiProofs.
Import Api.

(** ** Bytes and big-endian integers *)

Lemma Z_of_byte_range (b : byte) : 0 <= Z_of_byte b < 256.
Proof.
  unfold Z_of_byte. pose proof (Byte.to_N_bounded b) as Hb. lia.
Qed.

Lemma Z_of_byte_of_Z (z : Z) : Z_of_byte (byte_of_Z z) = z mod 256.
Proof.
  unfold byte_of_Z, Z_of_byte, uint8.
  assert (Hm : 0 <= z mod 256 < 256) by (apply Z.mod_pos_bound; lia).
  destruct (Byte.of_N (Z.to_N (z mod 256))) as [b|] eqn:E.
  - apply Byte.to_of_N in E. rewrite E. lia.
  - apply Byte.of_N_None_iff in E. lia.
Qed.

Lemma byte_of_Z_of_byte (b : byte) : byte_of_Z (Z_of_byte b) = b.
Proof.
  unfold byte_of_Z, uint8. pose proof (Z_of_byte_range b) as Hb.
  rewrite Z.mod_small by lia. unfold Z_of_byte.
  rewrite N2Z.id, Byte.of_to_N. reflexivity.
Qed.

Lemma lor_shiftl_add (a b n : Z) :
  0 <= n -> 0 <= b < 2 ^ n -> Z.lor b (Z.shiftl a n) = b + a * 2 ^ n.
Proof.
  intros Hn Hb.
  assert (Hland : Z.land b (Z.shiftl a n) = 0).
  { apply Z.bits_inj'. intros i Hi. rewrite Z.land_spec, Z.bits_0.
    destruct (Z.lt_ge_cases i n) as [Hlt|Hge].
    - rewrite (Z.shiftl_spec_low a n i Hlt). apply andb_false_r.
    - destruct (Z.eq_dec b 0) as [->|Hnz]; [rewrite Z.bits_0; reflexivity|].
      rewrite (Z.bits_above_log2 b i); [reflexivity|lia|].
      apply Z.log2_lt_pow2; [lia|].
      apply Z.lt_le_trans with (2 ^ n); [lia|].
      apply Z.pow_le_mono_r; lia. }
  rewrite <- Z.lxor_lor by exact Hland.
  rewrite <- Z.add_nocarry_lxor by exact Hland.
  rewrite Z.shiftl_mul_pow2 by lia. reflexivity.
Qed.

Lemma BigEndian_Uint16_PutUint16 (v : Z) :
  0 <= v < 65536 ->
  BigEndian_Uint16 (byte_of_Z (Z.shiftr v 8)) (byte_of_Z v) = v.
Proof.
  intros Hv. unfold BigEndian_Uint16. rewrite !Z_of_byte_of_Z.
  rewrite lor_shiftl_add by (try apply Z.mod_pos_bound; lia).
  rewrite Z.shiftr_div_pow2 by lia.
  change (2 ^ 8) with 256.
  rewrite (Z.mod_small (v / 256)) by (split; [apply Z.div_pos; lia | apply Z.div_lt_upper_bound; lia]).
  pose proof (Z.div_mod v 256 ltac:(lia)). lia.
Qed.

Lemma BigEndian_Uint32_PutUint32 (v : Z) :
  0 <= v < 4294967296 ->
  BigEndian_Uint32 (byte_of_Z (Z.shiftr v 24)) (byte_of_Z (Z.shiftr v 16))
                   (byte_of_Z (Z.shiftr v 8)) (byte_of_Z v) = v.
Proof.
  intros Hv. unfold BigEndian_Uint32. rewrite !Z_of_byte_of_Z.
  rewrite !Z.shiftr_div_pow2 by lia.
  change (2 ^ 8) with 256. change (2 ^ 16) with 65536. change (2 ^ 24) with 16777216.
  pose proof (Z.mod_pos_bound v 256 ltac:(lia)).
  pose proof (Z.mod_pos_bound (v / 256) 256 ltac:(lia)).
  pose proof (Z.mod_pos_bound (v / 65536) 256 ltac:(lia)).
  pose proof (Z.mod_pos_bound (v / 16777216) 256 ltac:(lia)).
  rewrite (lor_shiftl_add _ (v mod 256) 8) by (change (2 ^ 8) with 256; lia).
  rewrite (lor_shiftl_add _ _ 16) by (change (2 ^ 8) with 256; change (2 ^ 16) with 65536; lia).
  rewrite (lor_shiftl_add _ _ 24)
    by (change (2 ^ 8) with 256; change (2 ^ 16) with 65536; change (2 ^ 24) with 16777216; lia).
  change (2 ^ 8) with 256. change (2 ^ 16) with 65536. change (2 ^ 24) with 16777216.
  Z.div_mod_to_equations. lia.
Qed.

(** ** Running the reader and the writer *)

Lemma len_app {A : Type} (l1 l2 : list A) : len (l1 ++ l2) = len l1 + len l2.
Proof. unfold len. rewrite List.length_app. lia. Qed.

Lemma len_nonneg {A : Type} (l : list A) : 0 <= len l.
Proof. unfold len. lia. Qed.

Lemma ReadByte_cons (b : byte) (rest : list byte) (s : Server) :
  ReadByte (set_r (b :: rest) s) = (Ret b, set_r rest s).
Proof. reflexivity. Qed.

Lemma io_ReadFull_app (size : Z) (p rest : list byte) (s : Server) :
  len p = size ->
  io_ReadFull size (set_r (p ++ rest) s) = (Ret p, set_r rest s).
Proof.
  intros Hsize. unfold io_ReadFull.
  destruct (Z.leb_spec size 0) as [Hle|Hgt].
  - pose proof (len_nonneg p) as Hp.
    destruct p as [|b p']; [reflexivity|]. unfold len in *. simpl in *. lia.
  - cbn [r set_r]. rewrite len_app.
    pose proof (len_nonneg rest) as Hrest.
    destruct (Z.eqb_spec (len p + len rest) 0) as [H0|_]; [lia|].
    destruct (Z.ltb_spec (len p + len rest) size) as [Hlt|_]; [lia|].
    assert (Hn : Z.to_nat size = List.length p) by (unfold len in Hsize; lia).
    rewrite Hn.
    rewrite List.firstn_app, Nat.sub_diag, List.firstn_all. cbn [firstn].
    rewrite List.app_nil_r.
    rewrite List.skipn_app, Nat.sub_diag, List.skipn_all. reflexivity.
Qed.

Lemma readBin_bin8 (b : byte) (p rest : list byte) (s : Server) :
  len p = Z_of_byte b ->
  readBin (set_r (MessagePackTypeBin8 :: b :: p ++ rest) s) = (Ret p, set_r rest s).
Proof.
  intros Hlen. unfold readBin, bind at 1. rewrite ReadByte_cons.
  rewrite decide_True by reflexivity.
  unfold bind at 1. unfold binary_Read_uint8, bind at 1.
  rewrite (io_ReadFull_app 1 [b] (p ++ rest) s eq_refl
            : io_ReadFull 1 (set_r (b :: p ++ rest) s) = _).
  unfold ret at 1.
  unfold bind. rewrite (io_ReadFull_app _ p rest _ Hlen).
  rewrite Hlen, Z.eqb_refl. reflexivity.
Qed.

Lemma readBin_bin16 (b0 b1 : byte) (p rest : list byte) (s : Server) :
  len p = BigEndian_Uint16 b0 b1 ->
  readBin (set_r (MessagePackTypeBin16 :: b0 :: b1 :: p ++ rest) s) = (Ret p, set_r rest s).
Proof.
  intros Hlen. unfold readBin, bind at 1. rewrite ReadByte_cons.
  rewrite decide_False by discriminate. rewrite decide_True by reflexivity.
  unfold bind at 1. unfold binary_Read_uint16, bind at 1.
  rewrite (io_ReadFull_app 2 [b0; b1] (p ++ rest) s eq_refl
            : io_ReadFull 2 (set_r (b0 :: b1 :: p ++ rest) s) = _).
  unfold ret at 1.
  unfold bind. rewrite (io_ReadFull_app _ p rest _ Hlen).
  rewrite Hlen, Z.eqb_refl. reflexivity.
Qed.

Lemma readBin_bin32 (b0 b1 b2 b3 : byte) (p rest : list byte) (s : Server) :
  len p = BigEndian_Uint32 b0 b1 b2 b3 ->
  readBin (set_r (MessagePackTypeBin32 :: b0 :: b1 :: b2 :: b3 :: p ++ rest) s)
  = (Ret p, set_r rest s).
Proof.
  intros Hlen. unfold readBin, bind at 1. rewrite ReadByte_cons.
  rewrite decide_False by discriminate. rewrite decide_False by discriminate.
  rewrite decide_True by reflexivity.
  unfold bind at 1. unfold binary_Read_uint32, bind at 1.
  rewrite (io_ReadFull_app 4 [b0; b1; b2; b3] (p ++ rest) s eq_refl
            : io_ReadFull 4 (set_r (b0 :: b1 :: b2 :: b3 :: p ++ rest) s) = _).
  unfold ret at 1.
  unfold bind. rewrite (io_ReadFull_app _ p rest _ Hlen).
  rewrite Hlen, Z.eqb_refl. reflexivity.
Qed.

Lemma bind_Ret_inv {A B : Type} (m : M A) (k : A -> M B) (s s' : Server) (b : B) :
  bind m k s = (Ret b, s') ->
  exists a s1, m s = (Ret a, s1) /\ k a s1 = (Ret b, s').
Proof.
  unfold bind. destruct (m s) as [[a|e|v] s1]; intros Hk; try discriminate.
  exists a, s1. split; [reflexivity | exact Hk].
Qed.

Lemma set_r_r (s : Server) : set_r (r s) s = s.
Proof. destruct s; reflexivity. Qed.

Lemma ReadByte_inv (s s' : Server) (b : byte) :
  ReadByte s = (Ret b, s') -> r s = b :: r s' /\ s' = set_r (r s') s.
Proof.
  unfold ReadByte. destruct (r s) as [|c rest] eqn:Hr; intros Heq; [discriminate|].
  injection Heq as -> <-. split; reflexivity.
Qed.

Lemma io_ReadFull_inv (size : Z) (s s' : Server) (p : list byte) :
  io_ReadFull size s = (Ret p, s') -> r s = p ++ r s' /\ s' = set_r (r s') s.
Proof.
  unfold io_ReadFull.
  destruct (size <=? 0).
  { intros Heq. injection Heq as <- <-. split; [reflexivity | symmetry; apply set_r_r]. }
  destruct (len (r s) =? 0); [discriminate|].
  destruct (len (r s) <? size); [discriminate|].
  intros Heq. injection Heq as <- <-. cbn [r set_r].
  split; [symmetry; apply List.firstn_skipn | reflexivity].
Qed.

Lemma readBin_inv (s s' : Server) (p : list byte) :
  readBin s = (Ret p, s') -> binShape p (r s') (r s) /\ s' = set_r (r s') s.
Proof.
  unfold readBin. intros Hrun.
  apply bind_Ret_inv in Hrun as (t & s1 & Ht & Hrun).
  apply ReadByte_inv in Ht as [Hr1 Hs1].
  apply bind_Ret_inv in Hrun as (size & s2 & Hsize & Hrun).
  apply bind_Ret_inv in Hrun as (payload & s3 & Hp & Hrun).
  apply io_ReadFull_inv in Hp as [Hr3 Hs3].
  destruct (Z.eqb_spec (len payload) size) as [Hlen|Hlen]; cbn [negb] in Hrun;
    [|discriminate].
  injection Hrun as -> ->.
  assert (Hstate : forall s2', s2' = set_r (r s2') s1 -> s2 = s2' ->
                               s' = set_r (r s') s).
  { intros s2' H2 <-. rewrite Hs3, H2, Hs1. reflexivity. }
  destruct (decide (t = MessagePackTypeBin8)) as [->|N8].
  { apply bind_Ret_inv in Hsize as (bs & s2' & Hbs & Hsize).
    apply io_ReadFull_inv in Hbs as [Hr2 Hs2].
    destruct bs as [|b0 [|? ?]]; try discriminate. injection Hsize as <- ->.
    split; [|eapply Hstate; eauto].
    rewrite Hr1, Hr2, Hr3. cbn [app]. apply shape8. exact Hlen. }
  destruct (decide (t = MessagePackTypeBin16)) as [->|N16].
  { apply bind_Ret_inv in Hsize as (bs & s2' & Hbs & Hsize).
    apply io_ReadFull_inv in Hbs as [Hr2 Hs2].
    destruct bs as [|b0 [|b1 [|? ?]]]; try discriminate. injection Hsize as <- ->.
    split; [|eapply Hstate; eauto].
    rewrite Hr1, Hr2, Hr3. cbn [app]. apply shape16. exact Hlen. }
  destruct (decide (t = MessagePackTypeBin32)) as [->|N32].
  { apply bind_Ret_inv in Hsize as (bs & s2' & Hbs & Hsize).
    apply io_ReadFull_inv in Hbs as [Hr2 Hs2].
    destruct bs as [|b0 [|b1 [|b2 [|b3 [|? ?]]]]]; try discriminate.
    injection Hsize as <- ->.
    split; [|eapply Hstate; eauto].
    rewrite Hr1, Hr2, Hr3. cbn [app]. apply shape32. exact Hlen. }
  discriminate.
Qed.

Lemma readBin_shape (p rest bs : list byte) (s : Server) :
  binShape p rest bs -> readBin (set_r bs s) = (Ret p, set_r rest s).
Proof.
  intros [b Hlen | b0 b1 Hlen | b0 b1 b2 b3 Hlen].
  - apply readBin_bin8; assumption.
  - apply readBin_bin16; assumption.
  - apply readBin_bin32; assumption.
Qed.

Lemma byte_of_Z_eq (z : Z) (b : byte) : z mod 256 = Z_of_byte b -> byte_of_Z z = b.
Proof.
  intros Hz. rewrite <- (byte_of_Z_of_byte b), <- Hz.
  unfold byte_of_Z, uint8. rewrite Z.mod_mod by lia. reflexivity.
Qed.

Lemma BigEndian_Uint16_add (b0 b1 : byte) :
  BigEndian_Uint16 b0 b1 = Z_of_byte b1 + Z_of_byte b0 * 256.
Proof.
  unfold BigEndian_Uint16. pose proof (Z_of_byte_range b1).
  rewrite lor_shiftl_add by (change (2 ^ 8) with 256; lia). reflexivity.
Qed.

Lemma BigEndian_Uint32_add (b0 b1 b2 b3 : byte) :
  BigEndian_Uint32 b0 b1 b2 b3
  = Z_of_byte b3 + Z_of_byte b2 * 256 + Z_of_byte b1 * 65536 + Z_of_byte b0 * 16777216.
Proof.
  unfold BigEndian_Uint32.
  pose proof (Z_of_byte_range b3). pose proof (Z_of_byte_range b2).
  pose proof (Z_of_byte_range b1).
  rewrite (lor_shiftl_add _ _ 8) by (change (2 ^ 8) with 256; lia).
  rewrite (lor_shiftl_add _ _ 16) by (change (2 ^ 8) with 256; change (2 ^ 16) with 65536; lia).
  rewrite (lor_shiftl_add _ _ 24)
    by (change (2 ^ 8) with 256; change (2 ^ 16) with 65536; change (2 ^ 24) with 16777216; lia).
  reflexivity.
Qed.

Lemma BigEndian_PutUint16_Uint16 (b0 b1 : byte) :
  BigEndian_PutUint16 (BigEndian_Uint16 b0 b1) = [b0; b1].
Proof.
  rewrite BigEndian_Uint16_add. unfold BigEndian_PutUint16.
  pose proof (Z_of_byte_range b0). pose proof (Z_of_byte_range b1).
  rewrite Z.shiftr_div_pow2 by lia. change (2 ^ 8) with 256.
  f_equal; [|f_equal]; apply byte_of_Z_eq; Z.div_mod_to_equations; lia.
Qed.

Lemma BigEndian_PutUint32_Uint32 (b0 b1 b2 b3 : byte) :
  BigEndian_PutUint32 (BigEndian_Uint32 b0 b1 b2 b3) = [b0; b1; b2; b3].
Proof.
  rewrite BigEndian_Uint32_add. unfold BigEndian_PutUint32.
  pose proof (Z_of_byte_range b0). pose proof (Z_of_byte_range b1).
  pose proof (Z_of_byte_range b2). pose proof (Z_of_byte_range b3).
  rewrite !Z.shiftr_div_pow2 by lia.
  change (2 ^ 8) with 256. change (2 ^ 16) with 65536. change (2 ^ 24) with 16777216.
  f_equal; [|f_equal; [|f_equal; [|f_equal]]];
    apply byte_of_Z_eq; Z.div_mod_to_equations; lia.
Qed.

(** What the writer puts on the stream *)

Lemma writeBin_run (payload : list byte) (s : Server) :
  wErr s = None ->
  writeBin payload s = (Ret tt, set_w (w s ++ binWire payload) s).
Proof.
  intros Hw. unfold writeBin, binWire.
  destruct (len payload <? 256); [|destruct (len payload <? Z.shiftl 1 16)];
    unfold bind, WriteByte, Write;
    repeat (cbn [wErr set_w w]; rewrite ?Hw);
    unfold set_w; rewrite <- ?List.app_assoc; reflexivity.
Qed.

Lemma writeMessage_run (messageType : MessageType) (method payload : list byte)
  (s : Server) :
  wErr s = None ->
  writeMessage messageType method payload s
  = (Ret tt, set_w (w s ++ wire messageType method payload) s).
Proof.
  intros Hw. unfold writeMessage, wire.
  unfold bind at 1. unfold WriteByte at 1. unfold Write at 1. rewrite Hw.
  unfold bind at 1. unfold WriteByte at 1. unfold Write at 1. cbn [wErr set_w w]. rewrite Hw.
  unfold bind at 1. unfold WriteByte at 1. unfold Write at 1. cbn [wErr set_w w]. rewrite Hw.
  unfold bind at 1. rewrite writeBin_run by exact Hw.
  unfold bind at 1. rewrite writeBin_run by exact Hw.
  unfold Flush. cbn [wErr set_w w]. rewrite Hw.
  unfold set_w. cbn [r w wErr enabledCallbacks requestId fsQueries].
  rewrite <- ?List.app_assoc. reflexivity.
Qed.

Lemma writeMessage_broken (messageType : MessageType) (method payload : list byte)
  (s : Server) (e : error) :
  wErr s = Some e ->
  writeMessage messageType method payload s = (Fail e, s).
Proof.
  intros Hw. unfold writeMessage, bind, WriteByte, Write. rewrite Hw. reflexivity.
Qed.

Lemma binShape_binWire (p rest : list byte) :
  len p < 4294967296 -> binShape p rest (binWire p ++ rest).
Proof.
  intros Hlen. pose proof (len_nonneg p) as H0. unfold binWire.
  change (Z.shiftl 1 16) with 65536.
  destruct (Z.ltb_spec (len p) 256) as [H8|H8];
    [|destruct (Z.ltb_spec (len p) 65536) as [H16|H16]].
  - cbn [app]. apply shape8. rewrite Z_of_byte_of_Z, Z.mod_small; lia.
  - unfold BigEndian_PutUint16. cbn [app]. apply shape16.
    unfold uint16. rewrite (Z.mod_small (len p) 65536) by lia.
    rewrite BigEndian_Uint16_PutUint16; lia.
  - unfold BigEndian_PutUint32. cbn [app]. apply shape32.
    unfold uint32. rewrite (Z.mod_small (len p) 4294967296) by lia.
    rewrite BigEndian_Uint32_PutUint32; lia.
Qed.

Lemma binShape_narrowest (p rest bs : list byte) :
  binShape p rest bs -> narrowestBin bs = true -> bs = binWire p ++ rest.
Proof.
  intros [b Hlen | b0 b1 Hlen | b0 b1 b2 b3 Hlen] Hn; unfold binWire;
    change (Z.shiftl 1 16) with 65536 in *.
  - pose proof (Z_of_byte_range b).
    destruct (Z.ltb_spec (len p) 256); [|lia].
    rewrite Hlen, byte_of_Z_of_byte. reflexivity.
  - assert (Hge : (256 <=? BigEndian_Uint16 b0 b1) = true) by exact Hn.
    apply Z.leb_le in Hge.
    pose proof (BigEndian_Uint16_add b0 b1) as Hadd.
    pose proof (Z_of_byte_range b0). pose proof (Z_of_byte_range b1).
    destruct (Z.ltb_spec (len p) 256); [lia|].
    destruct (Z.ltb_spec (len p) 65536); [|lia].
    unfold uint16. rewrite (Z.mod_small (len p) 65536) by lia.
    rewrite Hlen, BigEndian_PutUint16_Uint16. reflexivity.
  - assert (Hge : (65536 <=? BigEndian_Uint32 b0 b1 b2 b3) = true) by exact Hn.
    apply Z.leb_le in Hge.
    pose proof (BigEndian_Uint32_add b0 b1 b2 b3) as Hadd.
    pose proof (Z_of_byte_range b0). pose proof (Z_of_byte_range b1).
    pose proof (Z_of_byte_range b2). pose proof (Z_of_byte_range b3).
    destruct (Z.ltb_spec (len p) 256); [lia|].
    destruct (Z.ltb_spec (len p) 65536); [lia|].
    unfold uint32. rewrite (Z.mod_small (len p) 4294967296) by lia.
    rewrite Hlen, BigEndian_PutUint32_Uint32. reflexivity.
Qed.

(** ** The envelope reader on a well-shaped stream, and back *)

Lemma readRequest_shapes (e : list byte) (b : byte) (m p rest1 rest2 rest : list byte)
  (s : Server) :
  IsValid (Z_of_byte b) = true ->
  binShape m rest2 rest1 -> binShape p rest rest2 ->
  e = [] \/ m = e ->
  readRequest e (set_r (MessagePackTypeFixedArray3 :: MessagePackTypeU8 :: b :: rest1) s)
  = (Ret (Z_of_byte b, m, p), set_r rest s).
Proof.
  intros Hvalid Hm Hp He. unfold readRequest.
  unfold bind at 1. rewrite ReadByte_cons.
  rewrite bool_decide_eq_true_2 by reflexivity. cbn [negb].
  unfold bind at 1. rewrite ReadByte_cons.
  rewrite bool_decide_eq_true_2 by reflexivity. cbn [negb].
  unfold bind at 1. rewrite ReadByte_cons.
  rewrite Hvalid. cbn [negb].
  unfold bind at 1. rewrite (readBin_shape m rest2 rest1 s Hm).
  assert (Hcheck : negb (bool_decide (e = [])) && negb (bool_decide (m = e)) = false).
  { destruct He as [->| ->].
    - rewrite bool_decide_eq_true_2 by reflexivity. reflexivity.
    - rewrite (bool_decide_eq_true_2 (e = e)) by reflexivity. apply andb_false_r. }
  rewrite Hcheck.
  unfold bind. rewrite (readBin_shape p rest rest2 s Hp). reflexivity.
Qed.

Lemma readRequest_mismatch (e : list byte) (b : byte) (m rest1 rest2 : list byte)
  (s : Server) :
  IsValid (Z_of_byte b) = true ->
  binShape m rest2 rest1 ->
  e <> [] -> m <> e ->
  readRequest e (set_r (MessagePackTypeFixedArray3 :: MessagePackTypeU8 :: b :: rest1) s)
  = (Fail (ErrInvalidRequest (MethodMismatch e m)), set_r rest2 s).
Proof.
  intros Hvalid Hm He Hne. unfold readRequest.
  unfold bind at 1. rewrite ReadByte_cons.
  rewrite bool_decide_eq_true_2 by reflexivity. cbn [negb].
  unfold bind at 1. rewrite ReadByte_cons.
  rewrite bool_decide_eq_true_2 by reflexivity. cbn [negb].
  unfold bind at 1. rewrite ReadByte_cons.
  rewrite Hvalid. cbn [negb].
  unfold bind at 1. rewrite (readBin_shape m rest2 rest1 s Hm).
  rewrite (bool_decide_eq_false_2 (e = [])) by exact He.
  rewrite (bool_decide_eq_false_2 (m = e)) by exact Hne.
  reflexivity.
Qed.

Lemma readRequest_inv (e : list byte) (s s' : Server) (k : MessageType)
  (m p : list byte) :
  readRequest e s = (Ret (k, m, p), s') ->
  exists b rest1 rest2,
    r s = MessagePackTypeFixedArray3 :: MessagePackTypeU8 :: b :: rest1
    /\ k = Z_of_byte b /\ IsValid k = true
    /\ binShape m rest2 rest1 /\ binShape p (r s') rest2
    /\ (e = [] \/ m = e) /\ s' = set_r (r s') s.
Proof.
  unfold readRequest. intros Hrun.
  apply bind_Ret_inv in Hrun as (t0 & s1 & Ht0 & Hrun).
  apply ReadByte_inv in Ht0 as [Hr0 Hs1].
  destruct (bool_decide_reflect (t0 = MessagePackTypeFixedArray3)) as [->|]; [|discriminate].
  cbn [negb] in Hrun.
  apply bind_Ret_inv in Hrun as (t1 & s2 & Ht1 & Hrun).
  apply ReadByte_inv in Ht1 as [Hr1 Hs2].
  destruct (bool_decide_reflect (t1 = MessagePackTypeU8)) as [->|]; [|discriminate].
  cbn [negb] in Hrun.
  apply bind_Ret_inv in Hrun as (b & s3 & Hb & Hrun).
  apply ReadByte_inv in Hb as [Hr2 Hs3].
  destruct (IsValid (Z_of_byte b)) eqn:Hvalid; [|discriminate].
  cbn [negb] in Hrun.
  apply bind_Ret_inv in Hrun as (method & s4 & Hm & Hrun).
  apply readBin_inv in Hm as [Hshape_m Hs4].
  destruct (negb (bool_decide (e = [])) && negb (bool_decide (method = e))) eqn:Hcheck;
    [discriminate|].
  apply bind_Ret_inv in Hrun as (payload & s5 & Hp & Hrun).
  apply readBin_inv in Hp as [Hshape_p Hs5].
  injection Hrun as <- <- <- <-.
  exists b, (r s3), (r s4). repeat split.
  - rewrite Hr0, Hr1, Hr2. reflexivity.
  - exact Hvalid.
  - exact Hshape_m.
  - exact Hshape_p.
  - destruct (bool_decide_reflect (e = [])) as [He|He]; [left; exact He|].
    destruct (bool_decide_reflect (method = e)) as [Hme|Hme]; [right; exact Hme|].
    discriminate.
  - rewrite Hs5, Hs4, Hs3, Hs2, Hs1. reflexivity.
Qed.

Lemma IsValid_range (k : MessageType) : IsValid k = true -> 1 <= k <= 6.
Proof.
  unfold IsValid, MessageTypeRequest, MessageTypeCall.
  intros Hk. apply andb_true_iff in Hk as [H1 H6].
  apply Z.leb_le in H1. apply Z.leb_le in H6. lia.
Qed.

Lemma readRequest_wire (e : list byte) (k : MessageType) (m p rest : list byte)
  (s : Server) :
  IsValid k = true -> len m < 4294967296 -> len p < 4294967296 ->
  e = [] \/ m = e ->
  readRequest e (set_r (wire k m p ++ rest) s) = (Ret (k, m, p), set_r rest s).
Proof.
  intros Hk Hm Hp He. pose proof (IsValid_range k Hk) as Hrange.
  assert (Hkb : Z_of_byte (byte_of_Z k) = k)
    by (rewrite Z_of_byte_of_Z; apply Z.mod_small; lia).
  unfold wire. rewrite <- !List.app_assoc. cbn [app].
  rewrite <- Hkb at 2.
  apply readRequest_shapes with (rest2 := binWire p ++ rest).
  - rewrite Hkb. exact Hk.
  - apply binShape_binWire. exact Hm.
  - apply binShape_binWire. exact Hp.
  - exact He.
Qed.

(** C3. An envelope of a valid kind whose method and payload are shorter
    than 2^32 bytes survives the wire: what [writeMessage] puts on the
    output stream, [readRequest] reads back as the same kind, method and
    payload, leaving what follows it on the stream unread.  The three
    length prefixes, and the lengths 255, 256, 65535 and 65536 at which
    they change, are all covered. *)
Theorem readRequest_writeMessage (messageType : MessageType)
  (method payload rest : list byte) (s t : Server) :
  IsValid messageType = true ->
  len method <= 4294967295 ->
  len payload <= 4294967295 ->
  wErr s = None ->
  writeMessage messageType method payload s
  = (Ret tt, set_w (w s ++ wire messageType method payload) s)
  /\ readRequest [] (set_r (wire messageType method payload ++ rest) t)
     = (Ret (messageType, method, payload), set_r rest t).
Proof.
  intros Hk Hm Hp Hw. split.
  - apply writeMessage_run. exact Hw.
  - apply readRequest_wire; [exact Hk | lia | lia | left; reflexivity].
Qed.

Lemma readRequest_writeMessage_witness :
  writeMessage MessageTypeRequest (bytes "echo") (bytes "hello") (Fixture.connect [])
  = (Ret tt, set_w ([] ++ wire MessageTypeRequest (bytes "echo") (bytes "hello"))
                   (Fixture.connect []))
  /\ readRequest [] (set_r (wire MessageTypeRequest (bytes "echo") (bytes "hello") ++ [x93])
                           (Fixture.connect []))
     = (Ret (MessageTypeRequest, bytes "echo", bytes "hello"),
        set_r [x93] (Fixture.connect [])).
Proof.
  apply (readRequest_writeMessage MessageTypeRequest (bytes "echo") (bytes "hello")
           [x93] (Fixture.connect []) (Fixture.connect []));
    [reflexivity | vm_compute; discriminate | vm_compute; discriminate | reflexivity].
Defined.

(** The round trip at the lengths where the width of the length prefix
    changes. *)
Lemma readRequest_writeMessage_boundaries (n : Z) (rest : list byte) (t : Server) :
  n = 255 \/ n = 256 \/ n = 65535 \/ n = 65536 ->
  let method := repeat x61 (Z.to_nat n) in
  let payload := repeat x62 (Z.to_nat n) in
  readRequest [] (set_r (wire MessageTypeCall method payload ++ rest) t)
  = (Ret (MessageTypeCall, method, payload), set_r rest t).
Proof.
  intros Hn method payload.
  assert (Hrange : 0 <= n <= 65536) by lia. clear Hn.
  apply readRequest_wire; [reflexivity | | | left; reflexivity];
    unfold len, method, payload; rewrite List.repeat_length; lia.
Qed.

(** C4, as stated, fails: a one-byte method under a two-byte length prefix
    is read without complaint and written back under a one-byte prefix. *)
Lemma reencode_changes_wide_prefix :
  let received := [x93; xcc; x01; xc5; x00; x01; x41; xc4; x00] in
  let resent := [x93; xcc; x01; xc4; x01; x41; xc4; x00] in
  readRequest [] (Fixture.connect received)
  = (Ret (MessageTypeRequest, [x41], []), Fixture.connect [])
  /\ writeMessage MessageTypeRequest [x41] [] (Fixture.connect [])
     = (Ret tt, set_w resent (Fixture.connect []))
  /\ resent <> received.
Proof.
  cbv zeta. split; [vm_compute; reflexivity|]. split; [vm_compute; reflexivity|].
  discriminate.
Qed.

(** C4, amended. When [readRequest] decodes the head of the input stream
    and both bin strings there use the narrowest length prefix that holds
    their length, [writeMessage] on the decoded kind, method and payload
    writes exactly the bytes that were read. *)
Theorem writeMessage_readRequest_narrowest (s s' t : Server) (messageType : MessageType)
  (method payload : list byte) :
  readRequest [] s = (Ret (messageType, method, payload), s') ->
  narrowestEnvelope s = true ->
  wErr t = None ->
  exists consumed,
    r s = consumed ++ r s'
    /\ writeMessage messageType method payload t = (Ret tt, set_w (w t ++ consumed) t).
Proof.
  intros Hread Hnarrow Hw.
  apply readRequest_inv in Hread
    as (b & rest1 & rest2 & Hr & -> & Hvalid & Hm & Hp & _ & Hs').
  unfold narrowestEnvelope in Hnarrow. rewrite Hr in Hnarrow.
  rewrite (readBin_shape method rest2 rest1 s Hm) in Hnarrow.
  apply andb_true_iff in Hnarrow as [Hn1 Hn2]. cbn [r set_r] in Hn2.
  apply (binShape_narrowest _ _ _ Hm) in Hn1.
  apply (binShape_narrowest _ _ _ Hp) in Hn2.
  exists (wire (Z_of_byte b) method payload). split.
  - rewrite Hr, Hn1, Hn2. unfold wire. rewrite byte_of_Z_of_byte.
    rewrite <- !List.app_assoc. reflexivity.
  - apply writeMessage_run. exact Hw.
Qed.

Lemma writeMessage_readRequest_narrowest_witness :
  exists consumed,
    r (Fixture.connect [x93; xcc; x01; xc4; x01; x41; xc4; x00; x93]) = consumed ++ [x93]
    /\ writeMessage MessageTypeRequest [x41] [] (Fixture.connect [])
       = (Ret tt, set_w ([] ++ consumed) (Fixture.connect [])).
Proof.
  apply (writeMessage_readRequest_narrowest
           (Fixture.connect [x93; xcc; x01; xc4; x01; x41; xc4; x00; x93])
           (Fixture.connect [x93]) (Fixture.connect [])
           MessageTypeRequest [x41] []);
    [vm_compute; reflexivity | vm_compute; reflexivity | reflexivity].
Defined.

(** ** Capability registry *)

Section Keeps.
Context {F : Type} (proj : Server -> F) (R : F -> F -> Prop) `{!Framed proj R}.

Lemma keeps_bind {A B : Type} (m : M A) (k : A -> M B) :
  keeps proj R m -> (forall a, keeps proj R (k a)) -> keeps proj R (bind m k).
Proof.
  intros Hm Hk s. unfold bind. specialize (Hm s).
  destruct (m s) as [[a|e|v] s1]; cbn [snd] in *; try exact Hm.
  eapply framed_trans; [exact Hm | apply Hk].
Qed.

Lemma keeps_ret {A : Type} (a : A) : keeps proj R (ret a).
Proof. intros s. apply framed_refl. Qed.

Lemma keeps_fail {A : Type} (e : error) : keeps proj R (@fail A e).
Proof. intros s. apply framed_refl. Qed.

Lemma keeps_panic {A : Type} (v : panicValue) : keeps proj R (@panic A v).
Proof. intros s. apply framed_refl. Qed.

Lemma keeps_gets {A : Type} (f : Server -> A) : keeps proj R (gets f).
Proof. intros s. apply framed_refl. Qed.

Lemma keeps_ofJson {A : Type} (x : jsonError + A) : keeps proj R (ofJson x).
Proof. destruct x; [apply keeps_fail | apply keeps_ret]. Qed.

Lemma keeps_orPanic {A : Type} (m : M A) : keeps proj R m -> keeps proj R (orPanic m).
Proof.
  intros Hm s. unfold orPanic. specialize (Hm s).
  destruct (m s) as [[a|e|v] s1]; exact Hm.
Qed.

Lemma keeps_ReadByte : keeps proj R ReadByte.
Proof.
  intros s. unfold ReadByte. destruct (r s); cbn [snd];
    rewrite ?framed_set_r; apply framed_refl.
Qed.

Lemma keeps_io_ReadFull (size : Z) : keeps proj R (io_ReadFull size).
Proof.
  intros s. unfold io_ReadFull.
  destruct (size <=? 0); [apply framed_refl|].
  destruct (len (r s) =? 0); [apply framed_refl|].
  destruct (len (r s) <? size); cbn [snd]; rewrite framed_set_r; apply framed_refl.
Qed.

Lemma keeps_Write (p : list byte) : keeps proj R (Write p).
Proof.
  intros s. unfold Write. destruct (wErr s); cbn [snd];
    rewrite ?framed_set_w; apply framed_refl.
Qed.

Lemma keeps_Flush : keeps proj R Flush.
Proof. intros s. unfold Flush. destruct (wErr s); apply framed_refl. Qed.

End Keeps.

Create HintDb keeps.

#[local] Hint Resolve keeps_ret keeps_fail keeps_panic keeps_gets
  keeps_ofJson keeps_ReadByte keeps_io_ReadFull keeps_Write keeps_Flush : keeps.

(** Break a computation into its steps, one [keeps] goal for each. *)
Ltac keeps_steps :=
  repeat first
    [ assumption
    | match goal with |- Framed _ _ => apply _ end
    | solve [auto with keeps typeclass_instances]
    | apply keeps_bind
    | apply keeps_orPanic
    | match goal with
      | |- keeps _ _ (if ?c then _ else _) => destruct c
      | |- keeps _ _ (match ?x with _ => _ end) => destruct x
      | |- keeps _ _ (let (_, _) := ?x in _) => destruct x
      end
    | progress cbv zeta
    | match goal with |- forall _, _ => intro end ].

Lemma grows_refl (mask : Callback) : grows mask mask.
Proof. exists 0. symmetry. apply Z.lor_0_r. Qed.

Lemma grows_trans (a b c : Callback) : grows a b -> grows b c -> grows a c.
Proof.
  intros [x ->] [y ->]. exists (Z.lor x y). symmetry. apply Z.lor_assoc.
Qed.

#[local] Instance enabledCallbacks_grows_framed : Framed enabledCallbacks grows.
Proof.
  split; [exact grows_refl | exact grows_trans | reflexivity | reflexivity].
Qed.

#[local] Instance enabledCallbacks_eq_framed : Framed enabledCallbacks eq.
Proof.
  split; [reflexivity | intros; congruence | reflexivity | reflexivity].
Qed.

#[local] Instance fsQueries_eq_framed : Framed fsQueries eq.
Proof.
  split; [reflexivity | intros; congruence | reflexivity | reflexivity].
Qed.

Section KeepsCodec.
Context {F : Type} (proj : Server -> F) (R : F -> F -> Prop) `{!Framed proj R}.

Lemma keeps_readBin : keeps proj R readBin.
Proof.
  unfold readBin, binary_Read_uint8, binary_Read_uint16, binary_Read_uint32.
  keeps_steps.
Qed.

Lemma keeps_readRequest (e : list byte) : keeps proj R (readRequest e).
Proof.
  pose proof keeps_readBin as Hbin. unfold readRequest. keeps_steps.
Qed.

Lemma keeps_writeMessage (k : MessageType) (m p : list byte) :
  keeps proj R (writeMessage k m p).
Proof.
  unfold writeMessage, writeBin, WriteByte. keeps_steps.
Qed.

End KeepsCodec.

Lemma enableCallback_named (callback : list byte) (s : Server) :
  enableCallback callback s
  = match callbackNamed callback with
    | Some bit => (Ret tt, set_enabledCallbacks (Z.lor (enabledCallbacks s) bit) s)
    | None => (Fail (UnknownCallback callback), s)
    end.
Proof.
  unfold enableCallback, callbackNamed.
  repeat (case_decide; [reflexivity|]). reflexivity.
Qed.

Lemma set_enabledCallbacks_same (s : Server) :
  set_enabledCallbacks (enabledCallbacks s) s = s.
Proof. destruct s; reflexivity. Qed.

Lemma enableCallbacks_known (known rest : list (list byte)) (s : Server) :
  Forall (fun callback => callbackNamed callback <> None) known ->
  enableCallbacks (known ++ rest) s
  = enableCallbacks rest
      (set_enabledCallbacks (maskWith known (enabledCallbacks s)) s).
Proof.
  intros Hknown. revert s.
  induction Hknown as [|callback known Hc _ IH]; intros s.
  - cbn [app maskWith fold_left]. rewrite set_enabledCallbacks_same. reflexivity.
  - cbn [app enableCallbacks]. unfold bind at 1. rewrite enableCallback_named.
    unfold maskWith. cbn [fold_left].
    destruct (callbackNamed callback) as [bit|]; [|contradiction].
    rewrite IH. reflexivity.
Qed.

Lemma keeps_enableCallback (callback : list byte) :
  keeps enabledCallbacks grows (enableCallback callback).
Proof.
  intros s. rewrite enableCallback_named.
  destruct (callbackNamed callback) as [bit|]; cbn [snd].
  - exists bit. reflexivity.
  - apply grows_refl.
Qed.

Lemma keeps_enableCallbacks (callbacks : list (list byte)) :
  keeps enabledCallbacks grows (enableCallbacks callbacks).
Proof.
  induction callbacks as [|callback rest IH]; cbn [enableCallbacks].
  - apply keeps_ret. apply _.
  - apply keeps_bind; [apply _ | apply keeps_enableCallback | intros _; exact IH].
Qed.

Lemma CallbackEnabled_grows (callback : Callback) (s s' : Server) :
  grows (enabledCallbacks s) (enabledCallbacks s') ->
  CallbackEnabled callback s = true -> CallbackEnabled callback s' = true.
Proof.
  unfold CallbackEnabled. intros [bits ->] Hon.
  apply negb_true_iff in Hon. apply Z.eqb_neq in Hon.
  apply negb_true_iff. apply Z.eqb_neq. intros Hoff. apply Hon.
  rewrite Z.land_lor_distr_l in Hoff. apply Z.lor_eq_0_iff in Hoff. tauto.
Qed.

Lemma keeps_local {A : Type} (R : Callback -> Callback -> Prop) `{!Framed enabledCallbacks R}
  (q : FSQuery) (a : A) :
  keeps enabledCallbacks R (local q a).
Proof. intros s. apply framed_refl. Qed.

Section Collaborators.
Context `{Json} `{LocalFS} `{Texts} `{API}.

Lemma keeps_handleConfigure (payload : list byte) :
  keeps enabledCallbacks grows (handleConfigure payload).
Proof.
  unfold handleConfigure.
  destruct (json_Unmarshal_ConfigureParams payload) as [text|[params|]].
  - apply keeps_fail. apply _.
  - apply keeps_enableCallbacks.
  - apply keeps_panic. apply _.
Qed.

Lemma keeps_call {F : Type} (proj : Server -> F) (R : F -> F -> Prop) `{!Framed proj R}
  (method : list byte) (payload : any) :
  keeps proj R (call method payload).
Proof.
  pose proof (keeps_readRequest proj R method) as Hread.
  pose proof (fun k p => keeps_writeMessage proj R k method p) as Hwrite.
  unfold call. keeps_steps.
Qed.

(** The file-system adapter never touches the registry. *)
Lemma keeps_bridge (R : Callback -> Callback -> Prop) `{!Framed enabledCallbacks R}
  (path : list byte) :
  keeps enabledCallbacks R (DirectoryExists path)
  /\ keeps enabledCallbacks R (FileExists path)
  /\ keeps enabledCallbacks R (GetAccessibleEntries path)
  /\ keeps enabledCallbacks R (ReadFile path)
  /\ keeps enabledCallbacks R (Realpath path).
Proof.
  pose proof (fun m p => keeps_call enabledCallbacks R m p) as Hcall.
  pose proof (fun A q (a : A) => keeps_local R q a) as Hlocal.
  unfold DirectoryExists, FileExists, GetAccessibleEntries, ReadFile, Realpath.
  repeat split; keeps_steps.
Qed.

(** C2, amended. A configuration request whose callback list holds an
    unknown name returns the configuration error for the first such name;
    the bits of the names listed before it have been OR-ed into the
    registry, and nothing listed after it is looked at. *)
Theorem handleConfigure_unknown (payload : list byte) (params : ConfigureParams)
  (known later : list (list byte)) (unknown : list byte) (s : Server) :
  json_Unmarshal_ConfigureParams payload = inr (Some params) ->
  Callbacks params = known ++ unknown :: later ->
  Forall (fun callback => callbackNamed callback <> None) known ->
  callbackNamed unknown = None ->
  handleConfigure payload s
  = (Fail (UnknownCallback unknown),
     set_enabledCallbacks (maskWith known (enabledCallbacks s)) s).
Proof.
  intros Hparse Hlist Hknown Hunknown. unfold handleConfigure.
  rewrite Hparse, Hlist, (enableCallbacks_known known _ s Hknown).
  cbn [enableCallbacks]. unfold bind. rewrite enableCallback_named, Hunknown.
  reflexivity.
Qed.

(** C8. The registry only grows.  [enableCallback] and [handleConfigure]
    leave the bitmask as it was with bits OR-ed in; the call client, the
    file-system adapter, the reader and the writer leave it as it was.  A
    capability that is enabled stays enabled through any sequence of
    configuration requests, and enabling a name a second time changes
    nothing. *)
Theorem enabledCallbacks_monotonic :
  (forall callback, keeps enabledCallbacks grows (enableCallback callback))
  /\ (forall payload, keeps enabledCallbacks grows (handleConfigure payload))
  /\ (forall method payload, keeps enabledCallbacks eq (call method payload))
  /\ (forall path,
        keeps enabledCallbacks eq (DirectoryExists path)
        /\ keeps enabledCallbacks eq (FileExists path)
        /\ keeps enabledCallbacks eq (GetAccessibleEntries path)
        /\ keeps enabledCallbacks eq (ReadFile path)
        /\ keeps enabledCallbacks eq (Realpath path))
  /\ (forall expectedMethod, keeps enabledCallbacks eq (readRequest expectedMethod))
  /\ (forall messageType method payload,
        keeps enabledCallbacks eq (writeMessage messageType method payload))
  /\ (forall callback payloads s,
        CallbackEnabled callback s = true ->
        CallbackEnabled callback (configureAll payloads s) = true)
  /\ (forall callback s,
        snd (enableCallback callback (snd (enableCallback callback s)))
        = snd (enableCallback callback s)).
Proof.
  split; [exact keeps_enableCallback|].
  split; [exact keeps_handleConfigure|].
  split; [intros; apply keeps_call; apply _|].
  split; [intros; apply keeps_bridge; apply _|].
  split; [intros; apply keeps_readRequest; apply _|].
  split; [intros; apply keeps_writeMessage; apply _|].
  split.
  - intros callback payloads. induction payloads as [|payload rest IH]; intros s Hon.
    + exact Hon.
    + cbn [configureAll]. apply IH.
      eapply CallbackEnabled_grows; [apply keeps_handleConfigure | exact Hon].
  - intros callback s. rewrite !enableCallback_named.
    destruct (callbackNamed callback) as [bit|]; cbn [snd]; [|reflexivity].
    unfold set_enabledCallbacks. cbn [r w wErr enabledCallbacks requestId fsQueries].
    rewrite <- Z.lor_assoc, Z.lor_diag. reflexivity.
Qed.

(** ** Call client *)

Lemma readRequest_expected (e : list byte) (s s' : Server) (k : MessageType)
  (m p : list byte) :
  readRequest [] s = (Ret (k, m, p), s') -> m = e ->
  readRequest e s = (Ret (k, m, p), s').
Proof.
  intros Hread Hm.
  apply readRequest_inv in Hread
    as (b & rest1 & rest2 & Hr & -> & Hvalid & Hsm & Hsp & _ & Hs').
  pose proof (readRequest_shapes e b m p rest1 rest2 (r s') s Hvalid Hsm Hsp
                (or_intror Hm)) as Hrun.
  rewrite <- Hr, set_r_r, <- Hs' in Hrun. exact Hrun.
Qed.

Lemma readRequest_unexpected (e : list byte) (s s' : Server) (k : MessageType)
  (m p : list byte) :
  readRequest [] s = (Ret (k, m, p), s') -> e <> [] -> m <> e ->
  exists s'', readRequest e s = (Fail (ErrInvalidRequest (MethodMismatch e m)), s'').
Proof.
  intros Hread He Hm.
  apply readRequest_inv in Hread
    as (b & rest1 & rest2 & Hr & -> & Hvalid & Hsm & Hsp & _ & Hs').
  exists (set_r rest2 s).
  pose proof (readRequest_mismatch e b m rest1 rest2 s Hvalid Hsm He Hm) as Hrun.
  rewrite <- Hr, set_r_r in Hrun. exact Hrun.
Qed.

Lemma readRequest_any (e : list byte) (s s' : Server) (k : MessageType)
  (m p : list byte) :
  readRequest e s = (Ret (k, m, p), s') ->
  readRequest [] s = (Ret (k, m, p), s') /\ (e = [] \/ m = e).
Proof.
  intros Hread.
  apply readRequest_inv in Hread
    as (b & rest1 & rest2 & Hr & -> & Hvalid & Hsm & Hsp & He & Hs').
  split; [|exact He].
  pose proof (readRequest_shapes [] b m p rest1 rest2 (r s') s Hvalid Hsm Hsp
                (or_introl eq_refl)) as Hrun.
  rewrite <- Hr, set_r_r, <- Hs' in Hrun. exact Hrun.
Qed.

(** [call], once the payload is marshalled and the Call envelope is out. *)
Lemma call_sent (method : list byte) (payload : any) (jsonPayload : list byte)
  (s : Server) :
  json_Marshal payload = inr jsonPayload -> wErr s = None ->
  call method payload s
  = match readRequest method
            (set_w (w s ++ wire MessageTypeCall method jsonPayload) s) with
    | (Ret (messageType, _, responsePayload), s') =>
        if negb (messageType =? MessageTypeCallResponse)
           && negb (messageType =? MessageTypeCallError) then
          (Fail (ErrInvalidRequest (ExpectedCallReply messageType)), s')
        else if messageType =? MessageTypeCallError then
          (Fail (ErrClientError responsePayload), s')
        else (Ret responsePayload, s')
    | (Fail e, s') => (Fail e, s')
    | (Panic v, s') => (Panic v, s')
    end.
Proof.
  intros Hjson Hw. unfold call. rewrite Hjson. cbn [ofJson].
  unfold bind at 1. unfold ret at 1.
  unfold bind at 1. rewrite writeMessage_run by exact Hw.
  unfold bind.
  destruct (readRequest method _) as [[[[k m] p]|e|v] s']; [|reflexivity|reflexivity].
  destruct (negb (k =? MessageTypeCallResponse) && negb (k =? MessageTypeCallError));
    [reflexivity|].
  destruct (k =? MessageTypeCallError); reflexivity.
Qed.

(** C9, amended: the method name is not empty.  With the Call envelope
    sent, [call] returns a payload only when the next envelope on the input
    stream is a CallResponse for the same method, and then returns that
    envelope's payload; a CallError for the method gives the client error
    with the peer's text; an envelope for another method, or of any other
    kind, gives an invalid-request error and no payload. *)
Theorem call_reply (method : list byte) (payload : any) (jsonPayload : list byte)
  (s : Server) :
  method <> [] ->
  json_Marshal payload = inr jsonPayload ->
  wErr s = None ->
  let sent := set_w (w s ++ wire MessageTypeCall method jsonPayload) s in
  (forall result s',
      call method payload s = (Ret result, s') ->
      readRequest [] sent = (Ret (MessageTypeCallResponse, method, result), s'))
  /\ (forall messageType m responsePayload s',
        readRequest [] sent = (Ret (messageType, m, responsePayload), s') ->
        (m = method -> messageType = MessageTypeCallResponse ->
         call method payload s = (Ret responsePayload, s'))
        /\ (m = method -> messageType = MessageTypeCallError ->
            call method payload s = (Fail (ErrClientError responsePayload), s'))
        /\ (m = method -> messageType <> MessageTypeCallResponse ->
            messageType <> MessageTypeCallError ->
            call method payload s
            = (Fail (ErrInvalidRequest (ExpectedCallReply messageType)), s'))
        /\ (m <> method ->
            exists s'',
              call method payload s
              = (Fail (ErrInvalidRequest (MethodMismatch method m)), s''))).
Proof.
  intros Hmethod Hjson Hw sent.
  pose proof (call_sent method payload jsonPayload s Hjson Hw) as Hcall.
  fold sent in Hcall. split.
  - intros result s' Hret. rewrite Hcall in Hret.
    destruct (readRequest method sent) as [[[[k m] p]|e|v] s1] eqn:Hread; try discriminate.
    apply readRequest_any in Hread as [Hread [He|He]]; [contradiction|]. subst m.
    destruct (Z.eqb_spec k MessageTypeCallResponse) as [Hk|Hk];
      destruct (Z.eqb_spec k MessageTypeCallError) as [Hk'|Hk'];
      cbn [negb andb] in Hret; try discriminate.
    injection Hret as <- <-. subst k. exact Hread.
  - intros k m p s' Hread. repeat split.
    + intros -> ->. rewrite Hcall, (readRequest_expected _ _ _ _ _ _ Hread eq_refl).
      reflexivity.
    + intros -> ->. rewrite Hcall, (readRequest_expected _ _ _ _ _ _ Hread eq_refl).
      reflexivity.
    + intros -> Hk Hk'. rewrite Hcall, (readRequest_expected _ _ _ _ _ _ Hread eq_refl).
      destruct (Z.eqb_spec k MessageTypeCallResponse); [contradiction|].
      destruct (Z.eqb_spec k MessageTypeCallError); [contradiction|]. reflexivity.
    + intros Hm.
      destruct (readRequest_unexpected method _ _ _ _ _ Hread Hmethod Hm) as [s'' Hfail].
      exists s''. rewrite Hcall, Hfail. reflexivity.
Qed.

(** ** Host bridge *)

Lemma call_fsQueries (method : list byte) (payload : any) (s s' : Server)
  (o : outcome (list byte)) :
  call method payload s = (o, s') -> fsQueries s' = fsQueries s.
Proof.
  intros Hcall. pose proof (keeps_call fsQueries eq method payload s) as Hkeep.
  rewrite Hcall in Hkeep. symmetry. exact Hkeep.
Qed.

Lemma len_pos_iff (l : list byte) : (0 <? len l) = negb (bool_decide (l = [])).
Proof. destruct l; reflexivity. Qed.

(** C6. [FileExists] with the capability off asks the local file system
    and sends nothing.  With the capability on it sends the Call, and on
    the reply's payload: ["true"] is the answer true, without a query to the
    local file system; an empty payload hands over to the local file
    system; any other payload is the answer false, again without a query to
    the local file system. *)
Theorem FileExists_cases (path : list byte) (s : Server) :
  (CallbackEnabled CallbackFileExists s = false ->
   FileExists path s
   = (Ret (fs_FileExists path),
      set_fsQueries (fsQueries s ++ [LocalFileExists path]) s))
  /\ (forall result s',
        CallbackEnabled CallbackFileExists s = true ->
        call (bytes "fileExists") (any_string path) s = (Ret result, s') ->
        fsQueries s' = fsQueries s
        /\ (result = bytes "true" -> FileExists path s = (Ret true, s'))
        /\ (result = [] ->
            FileExists path s
            = (Ret (fs_FileExists path),
               set_fsQueries (fsQueries s' ++ [LocalFileExists path]) s'))
        /\ (result <> [] -> result <> bytes "true" ->
            FileExists path s = (Ret false, s'))).
Proof.
  split.
  - intros Hoff. unfold FileExists, bind, gets. rewrite Hoff. reflexivity.
  - intros result s' Hon Hcall.
    split; [exact (call_fsQueries _ _ _ _ _ Hcall)|].
    assert (Hrun : FileExists path s
                   = if 0 <? len result then (Ret (bool_decide (result = bytes "true")), s')
                     else (Ret (fs_FileExists path),
                           set_fsQueries (fsQueries s' ++ [LocalFileExists path]) s')).
    { unfold FileExists, bind, gets. rewrite Hon. unfold orPanic. rewrite Hcall.
      destruct (0 <? len result); reflexivity. }
    rewrite Hrun, len_pos_iff. repeat split.
    + intros ->. reflexivity.
    + intros ->. reflexivity.
    + intros Hne Hnt. rewrite (bool_decide_eq_false_2 _ Hne).
      rewrite (bool_decide_eq_false_2 _ Hnt). reflexivity.
Qed.

(** C5. [ReadFile] with the capability off, or on a path under
    [bundled://], asks the local file system and sends nothing.  Otherwise
    it sends the Call, and on the reply's payload: ["null"] is the answer
    not found, without a query to the local file system; an empty payload
    hands over to the local file system. *)
Theorem ReadFile_cases (path : list byte) (s : Server) :
  let fromLocal (s0 : Server) :=
    (Ret (fs_ReadFile path), set_fsQueries (fsQueries s0 ++ [LocalReadFile path]) s0) in
  (CallbackEnabled CallbackReadFile s = false -> ReadFile path s = fromLocal s)
  /\ (CallbackEnabled CallbackReadFile s = true ->
      HasPrefix path (bytes "bundled://") = true ->
      ReadFile path s = fromLocal s)
  /\ (forall data s',
        CallbackEnabled CallbackReadFile s = true ->
        HasPrefix path (bytes "bundled://") = false ->
        call (bytes "readFile") (any_string path) s = (Ret data, s') ->
        fsQueries s' = fsQueries s
        /\ (data = bytes "null" -> ReadFile path s = (Ret ([], false), s'))
        /\ (data = [] -> ReadFile path s = fromLocal s')).
Proof.
  cbv zeta. split; [|split].
  - intros Hoff. unfold ReadFile, bind, gets. rewrite Hoff. reflexivity.
  - intros Hon Hbundled. unfold ReadFile, bind, gets. rewrite Hon, Hbundled. reflexivity.
  - intros data s' Hon Hbundled Hcall.
    split; [exact (call_fsQueries _ _ _ _ _ Hcall)|].
    split; intros ->; unfold ReadFile, bind, gets; rewrite Hon, Hbundled;
      cbn [andb negb]; unfold orPanic; rewrite Hcall; reflexivity.
Qed.

(** C7, amended. With the capability on and the Call answered,
    [GetAccessibleEntries] hands over to the local file system when the
    payload is empty and also when it is the JSON null, which unmarshals to
    the nil pointer; a payload that unmarshals to entries is the answer,
    without a query to the local file system. *)
Theorem GetAccessibleEntries_cases (path : list byte) (s s' : Server)
  (result : list byte) :
  CallbackEnabled CallbackGetAccessibleEntries s = true ->
  call (bytes "getAccessibleEntries") (any_string path) s = (Ret result, s') ->
  let fromLocal :=
    (Ret (fs_GetAccessibleEntries path),
     set_fsQueries (fsQueries s' ++ [LocalGetAccessibleEntries path]) s') in
  fsQueries s' = fsQueries s
  /\ (result = bytes "null" ->
      json_Unmarshal_rawEntries (bytes "null") = inr None ->
      GetAccessibleEntries path s = fromLocal)
  /\ (result = [] -> GetAccessibleEntries path s = fromLocal)
  /\ (forall entries,
        result <> [] ->
        json_Unmarshal_rawEntries result = inr (Some entries) ->
        GetAccessibleEntries path s = (Ret entries, s')).
Proof.
  intros Hon Hcall fromLocal.
  split; [exact (call_fsQueries _ _ _ _ _ Hcall)|].
  assert (Hrun : GetAccessibleEntries path s
                 = if 0 <? len result then
                     match json_Unmarshal_rawEntries result with
                     | inl text => (Panic (PanicError (json_Error text)), s')
                     | inr (Some entries) =>
                         (Ret (mkEntries (Files entries) (Directories entries)), s')
                     | inr None => fromLocal
                     end
                   else fromLocal).
  { unfold GetAccessibleEntries, bind, gets. rewrite Hon. unfold orPanic at 1.
    rewrite Hcall. destruct (0 <? len result); [|reflexivity].
    unfold orPanic, ofJson.
    destruct (json_Unmarshal_rawEntries result) as [text|[entries|]]; reflexivity. }
  rewrite Hrun. repeat split.
  - intros -> Hnull. rewrite Hnull. reflexivity.
  - intros ->. reflexivity.
  - intros entries Hne Hparse. rewrite len_pos_iff, (bool_decide_eq_false_2 _ Hne), Hparse.
    destruct entries; reflexivity.
Qed.

(** ** Message pump *)

Lemma runDeferred_None (deferred : list (list byte)) (s : Server) :
  runDeferred deferred None s = (None, s).
Proof. induction deferred as [|method older IH]; [reflexivity | exact IH]. Qed.

(** C1. A request whose handler panics is answered with an Error envelope
    that carries the panic message and the stack trace, and with that [Run]
    returns nil: the deferred closure that recovers the panic runs as the
    function unwinds, not as the loop body ends.  What is left on the input
    stream stays unread, so a request that follows is not dispatched. *)
Theorem Run_returns_after_recovered_panic (fuel : nat) (deferred : list (list byte))
  (s s1 s2 : Server) (method payload : list byte) (v : panicValue) :
  readRequest [] s = (Ret (MessageTypeRequest, method, payload), s1) ->
  handleRequest method payload s1 = (Panic v, s2) ->
  wErr s2 = None ->
  RunLoop (S fuel) deferred s
  = (Returned None,
     set_w (w s2 ++ wire MessageTypeError method
                      (bytes "panic handling request: " ++ fmt_v v ++ [x0a] ++ debug_Stack))
           s2).
Proof.
  intros Hread Hpanic Hw. cbn [RunLoop]. rewrite Hread.
  change (MessageTypeRequest =? MessageTypeRequest) with true. cbv iota.
  rewrite Hpanic. unfold unwinding. cbn [runDeferred].
  unfold sendError. rewrite writeMessage_run by exact Hw.
  rewrite runDeferred_None. reflexivity.
Qed.

(** When the Error envelope for a recovered panic cannot be written, the
    deferred closure panics in turn; with no older closure left to recover
    it, that panic leaves [Run]. *)
Lemma Run_double_fault (fuel : nat) (s s1 s2 : Server) (method payload : list byte)
  (v : panicValue) (e : error) :
  readRequest [] s = (Ret (MessageTypeRequest, method, payload), s1) ->
  handleRequest method payload s1 = (Panic v, s2) ->
  wErr s2 = Some e ->
  Run (S fuel) s
  = (Crashed (PanicString (bytes "fatal error sending panic response")), s2).
Proof.
  intros Hread Hpanic Hw. unfold Run. cbn [RunLoop]. rewrite Hread.
  change (MessageTypeRequest =? MessageTypeRequest) with true. cbv iota.
  rewrite Hpanic. unfold unwinding. cbn [runDeferred].
  unfold sendError. rewrite (writeMessage_broken _ _ _ _ e Hw). reflexivity.
Qed.

(** Every step of the pump leaves the registry as it was with bits OR-ed
    in, as long as the handler table does. *)
Lemma RunLoop_grows (fuel : nat) :
  (forall id method payload,
      keeps enabledCallbacks grows (api_HandleRequest id method payload)) ->
  forall deferred s,
    grows (enabledCallbacks s) (enabledCallbacks (snd (RunLoop fuel deferred s))).
Proof.
  intros Hapi.
  assert (Hsend : forall method err, keeps enabledCallbacks grows (sendError method err))
    by (intros; apply keeps_writeMessage; apply _).
  assert (Hresp : forall method result,
             keeps enabledCallbacks grows (sendResponse method result))
    by (intros; apply keeps_writeMessage; apply _).
  assert (Hdefer : forall deferred panicking s,
             grows (enabledCallbacks s)
                   (enabledCallbacks (snd (runDeferred deferred panicking s)))).
  { induction deferred as [|method older IH]; intros panicking s; cbn [runDeferred].
    - apply grows_refl.
    - destruct panicking as [v|]; [|apply IH].
      pose proof (Hsend method (PanicHandlingRequest (fmt_v v) debug_Stack) s) as Hs.
      destruct (sendError method _ s) as [[[]|e|v'] s'];
        (eapply grows_trans; [exact Hs | apply IH]). }
  assert (Hret : forall err deferred s,
             grows (enabledCallbacks s)
                   (enabledCallbacks (snd (returning err deferred s)))).
  { intros err deferred s. unfold returning.
    specialize (Hdefer deferred None s).
    destruct (runDeferred deferred None s). exact Hdefer. }
  assert (Hunw : forall v deferred s,
             grows (enabledCallbacks s)
                   (enabledCallbacks (snd (unwinding v deferred s)))).
  { intros v deferred s. unfold unwinding.
    specialize (Hdefer deferred (Some v) s).
    destruct (runDeferred deferred (Some v) s) as [[v'|] s']; exact Hdefer. }
  assert (Hhandle : forall method payload,
             keeps enabledCallbacks grows (handleRequest method payload)).
  { intros method payload. unfold handleRequest.
    apply keeps_bind; [apply _ | intros s; apply grows_refl |].
    intros _. pose proof keeps_handleConfigure as Hconf. keeps_steps. }
  induction fuel as [|fuel IH]; intros deferred s; cbn [RunLoop].
  - apply grows_refl.
  - pose proof (keeps_readRequest enabledCallbacks grows [] s) as Hread.
    destruct (readRequest [] s) as [[[[k m] p]|e|v] s1]; cbn [snd] in Hread.
    + destruct (k =? MessageTypeRequest).
      * pose proof (Hhandle m p s1) as Hh.
        destruct (handleRequest m p s1) as [[result|e|v] s2]; cbn [snd] in Hh.
        -- pose proof (Hresp m result s2) as Hs.
           destruct (sendResponse m result s2) as [[[]|e|v] s3]; cbn [snd] in Hs;
             (eapply grows_trans; [exact Hread|];
              eapply grows_trans; [exact Hh|];
              eapply grows_trans; [exact Hs|]); [apply IH | apply Hret | apply Hunw].
        -- pose proof (Hsend m e s2) as Hs.
           destruct (sendError m e s2) as [[[]|e'|v] s3]; cbn [snd] in Hs;
             (eapply grows_trans; [exact Hread|];
              eapply grows_trans; [exact Hh|];
              eapply grows_trans; [exact Hs|]); [apply IH | apply Hret | apply Hunw].
        -- eapply grows_trans; [exact Hread|].
           eapply grows_trans; [exact Hh|]. apply Hunw.
      * eapply grows_trans; [exact Hread | apply Hret].
    + eapply grows_trans; [exact Hread | apply Hret].
    + eapply grows_trans; [exact Hread | apply Hunw].
Qed.

End Collaborators.

(** ** The theorems at work on the concrete peer *)

Import Fixture.

Lemma Run_returns_after_recovered_panic_witness :
  let next := wire MessageTypeRequest (bytes "echo") (bytes "hello") in
  let s := connect (wire MessageTypeRequest (bytes "boom") [] ++ next) in
  let s2 := set_requestId 1 (set_r next s) in
  RunLoop 5 [] s
  = (Returned None,
     set_w (w s2 ++ wire MessageTypeError (bytes "boom")
                      (bytes "panic handling request: "
                       ++ fmt_v (PanicString (bytes "boom")) ++ [x0a] ++ debug_Stack))
           s2)
  /\ r s2 = next.
Proof.
  cbv zeta. split; [|reflexivity].
  apply (Run_returns_after_recovered_panic 4 []
           (connect (wire MessageTypeRequest (bytes "boom") []
                     ++ wire MessageTypeRequest (bytes "echo") (bytes "hello")))
           (set_r (wire MessageTypeRequest (bytes "echo") (bytes "hello"))
              (connect (wire MessageTypeRequest (bytes "boom") []
                        ++ wire MessageTypeRequest (bytes "echo") (bytes "hello"))))
           _ (bytes "boom") [] (PanicString (bytes "boom")));
    [vm_compute; reflexivity | vm_compute; reflexivity | reflexivity].
Defined.

(** Without a panic the pump goes on: two requests, two responses, and
    [Run] returns when the input stream ends. *)
Lemma Run_serves_consecutive_requests :
  Run 5 (connect (wire MessageTypeRequest (bytes "echo") (bytes "a")
                  ++ wire MessageTypeRequest (bytes "echo") (bytes "hello")))
  = (Returned (Some io_EOF),
     mkServer []
       (wire MessageTypeResponse (bytes "echo") (bytes "a")
        ++ wire MessageTypeResponse (bytes "echo") (bytes "hello"))
       None 0 2 []).
Proof. vm_compute. reflexivity. Qed.

(** A panic raised inside a nested Call, here by a CallError reply, ends
    [Run] the same way: one Error envelope, and the request that follows
    stays unread. *)
Lemma Run_returns_after_nested_call_panic :
  let next := wire MessageTypeRequest (bytes "echo") (bytes "hello") in
  let s :=
    set_enabledCallbacks CallbackFileExists
      (connect (wire MessageTypeRequest (bytes "fileExists") (bytes "/a.ts")
                ++ wire MessageTypeCallError (bytes "fileExists") (bytes "denied")
                ++ next)) in
  exists s',
    Run 5 s = (Returned None, s')
    /\ r s' = next
    /\ w s'
       = wire MessageTypeCall (bytes "fileExists") (quote (bytes "/a.ts"))
         ++ wire MessageTypeError (bytes "fileExists")
              (bytes "panic handling request: api: client error: denied"
               ++ [x0a] ++ debug_Stack).
Proof.
  cbv zeta. eexists. split; [vm_compute; reflexivity|].
  split; vm_compute; reflexivity.
Qed.

(** C2, as stated, fails: the names listed before the unknown one are
    enabled by the time the error is returned. *)
Lemma handleConfigure_unknown_keeps_earlier :
  let s := connect [] in
  let payload := configurePayload [bytes "readFile"; bytes "bogus"] in
  handleConfigure payload s
  = (Fail (UnknownCallback (bytes "bogus")), set_enabledCallbacks CallbackReadFile s)
  /\ enabledCallbacks (set_enabledCallbacks CallbackReadFile s) <> enabledCallbacks s
  /\ CallbackEnabled CallbackReadFile (set_enabledCallbacks CallbackReadFile s) = true.
Proof.
  cbv zeta. split; [vm_compute; reflexivity|]. split; [discriminate | reflexivity].
Qed.

Lemma handleConfigure_unknown_witness :
  handleConfigure
    (configurePayload [bytes "readFile"; bytes "bogus"; bytes "fileExists"])
    (connect [])
  = (Fail (UnknownCallback (bytes "bogus")),
     set_enabledCallbacks
       (maskWith [bytes "readFile"] (enabledCallbacks (connect []))) (connect [])).
Proof.
  apply (handleConfigure_unknown _
           (mkConfigureParams [bytes "readFile"; bytes "bogus"; bytes "fileExists"] [])
           [bytes "readFile"] [bytes "fileExists"] (bytes "bogus") (connect []));
    [ vm_compute; reflexivity
    | reflexivity
    | constructor; [vm_compute; discriminate | constructor]
    | reflexivity ].
Defined.

Lemma enabledCallbacks_monotonic_witness :
  CallbackEnabled CallbackReadFile
    (configureAll [configurePayload [bytes "fileExists"]; configurePayload [bytes "bogus"]]
       (set_enabledCallbacks CallbackReadFile (connect [])))
  = true.
Proof.
  destruct enabledCallbacks_monotonic as (_ & _ & _ & _ & _ & _ & Hstays & _).
  apply Hstays. reflexivity.
Defined.

(** C9, as stated, fails for the empty method name: [readRequest] then
    expects no method in particular, and [call] returns the payload of a
    CallResponse that carries another method. *)
Lemma call_empty_method_accepts_any_reply :
  let s := connect (wire MessageTypeCallResponse (bytes "other") (bytes "payload")) in
  call [] (any_string (bytes "p")) s
  = (Ret (bytes "payload"),
     set_w (wire MessageTypeCall [] (quote (bytes "p"))) (connect []))
  /\ bytes "other" <> [].
Proof.
  cbv zeta. split; [vm_compute; reflexivity | discriminate].
Qed.

Lemma call_reply_witness :
  let s := connect (wire MessageTypeCallResponse (bytes "fileExists") (bytes "true")) in
  call (bytes "fileExists") (any_string (bytes "/a.ts")) s
  = (Ret (bytes "true"),
     set_w (wire MessageTypeCall (bytes "fileExists") (quote (bytes "/a.ts")))
           (connect [])).
Proof.
  cbv zeta.
  destruct (call_reply (bytes "fileExists") (any_string (bytes "/a.ts"))
              (quote (bytes "/a.ts"))
              (connect (wire MessageTypeCallResponse (bytes "fileExists") (bytes "true"))))
    as [_ Hreply]; [discriminate | reflexivity | reflexivity |].
  destruct (Hreply MessageTypeCallResponse (bytes "fileExists") (bytes "true")
              (set_w (wire MessageTypeCall (bytes "fileExists") (quote (bytes "/a.ts")))
                     (connect [])))
    as [Hresponse _]; [vm_compute; reflexivity|].
  apply Hresponse; reflexivity.
Defined.

Lemma FileExists_cases_witness :
  let path := bytes "/local.ts" in
  let off := connect [] in
  let on payload :=
    set_enabledCallbacks CallbackFileExists
      (connect (wire MessageTypeCallResponse (bytes "fileExists") payload)) in
  let sent := set_w (wire MessageTypeCall (bytes "fileExists") (quote path)) in
  FileExists path off = (Ret true, set_fsQueries [LocalFileExists path] off)
  /\ FileExists (bytes "/remote.ts") (on (bytes "true"))
     = (Ret true,
        set_w (wire MessageTypeCall (bytes "fileExists") (quote (bytes "/remote.ts")))
              (set_r [] (on (bytes "true"))))
  /\ FileExists path (on [])
     = (Ret true, set_fsQueries [LocalFileExists path] (sent (set_r [] (on []))))
  /\ FileExists path (on (bytes "false"))
     = (Ret false, sent (set_r [] (on (bytes "false")))).
Proof.
  cbv zeta. split; [|split; [|split]].
  - destruct (FileExists_cases (bytes "/local.ts") (connect [])) as [Hoff _].
    apply Hoff. reflexivity.
  - destruct (FileExists_cases (bytes "/remote.ts")
                (set_enabledCallbacks CallbackFileExists
                   (connect (wire MessageTypeCallResponse (bytes "fileExists") (bytes "true")))))
      as [_ Hon].
    destruct (Hon (bytes "true")
                (set_w (wire MessageTypeCall (bytes "fileExists") (quote (bytes "/remote.ts")))
                   (set_r [] (set_enabledCallbacks CallbackFileExists
                      (connect (wire MessageTypeCallResponse (bytes "fileExists")
                                  (bytes "true")))))))
      as (_ & Htrue & _); [reflexivity | vm_compute; reflexivity |].
    apply Htrue. reflexivity.
  - destruct (FileExists_cases (bytes "/local.ts")
                (set_enabledCallbacks CallbackFileExists
                   (connect (wire MessageTypeCallResponse (bytes "fileExists") []))))
      as [_ Hon].
    destruct (Hon []
                (set_w (wire MessageTypeCall (bytes "fileExists") (quote (bytes "/local.ts")))
                   (set_r [] (set_enabledCallbacks CallbackFileExists
                      (connect (wire MessageTypeCallResponse (bytes "fileExists") []))))))
      as (_ & _ & Hempty & _); [reflexivity | vm_compute; reflexivity |].
    apply Hempty. reflexivity.
  - destruct (FileExists_cases (bytes "/local.ts")
                (set_enabledCallbacks CallbackFileExists
                   (connect (wire MessageTypeCallResponse (bytes "fileExists") (bytes "false")))))
      as [_ Hon].
    destruct (Hon (bytes "false")
                (set_w (wire MessageTypeCall (bytes "fileExists") (quote (bytes "/local.ts")))
                   (set_r [] (set_enabledCallbacks CallbackFileExists
                      (connect (wire MessageTypeCallResponse (bytes "fileExists")
                                  (bytes "false")))))))
      as (_ & _ & _ & Hother); [reflexivity | vm_compute; reflexivity |].
    apply Hother; discriminate.
Defined.

Lemma ReadFile_cases_witness :
  let path := bytes "/local.ts" in
  let bundled := bytes "bundled:///libs/lib.d.ts" in
  let on payload :=
    set_enabledCallbacks CallbackReadFile
      (connect (wire MessageTypeCallResponse (bytes "readFile") payload)) in
  let sent := set_w (wire MessageTypeCall (bytes "readFile") (quote path)) in
  ReadFile path (connect [])
  = (Ret (bytes "let x = 1", true), set_fsQueries [LocalReadFile path] (connect []))
  /\ ReadFile bundled (on (bytes "null"))
     = (Ret ([], false), set_fsQueries [LocalReadFile bundled] (on (bytes "null")))
  /\ ReadFile path (on (bytes "null"))
     = (Ret ([], false), sent (set_r [] (on (bytes "null"))))
  /\ ReadFile path (on [])
     = (Ret (bytes "let x = 1", true),
        set_fsQueries [LocalReadFile path] (sent (set_r [] (on [])))).
Proof.
  cbv zeta. split; [|split; [|split]].
  - destruct (ReadFile_cases (bytes "/local.ts") (connect [])) as (Hoff & _ & _).
    apply Hoff. reflexivity.
  - destruct (ReadFile_cases (bytes "bundled:///libs/lib.d.ts")
                (set_enabledCallbacks CallbackReadFile
                   (connect (wire MessageTypeCallResponse (bytes "readFile") (bytes "null")))))
      as (_ & Hbundled & _).
    apply Hbundled; reflexivity.
  - destruct (ReadFile_cases (bytes "/local.ts")
                (set_enabledCallbacks CallbackReadFile
                   (connect (wire MessageTypeCallResponse (bytes "readFile") (bytes "null")))))
      as (_ & _ & Hon).
    destruct (Hon (bytes "null")
                (set_w (wire MessageTypeCall (bytes "readFile") (quote (bytes "/local.ts")))
                   (set_r [] (set_enabledCallbacks CallbackReadFile
                      (connect (wire MessageTypeCallResponse (bytes "readFile")
                                  (bytes "null")))))))
      as (_ & Hnull & _); [reflexivity | reflexivity | vm_compute; reflexivity |].
    apply Hnull. reflexivity.
  - destruct (ReadFile_cases (bytes "/local.ts")
                (set_enabledCallbacks CallbackReadFile
                   (connect (wire MessageTypeCallResponse (bytes "readFile") []))))
      as (_ & _ & Hon).
    destruct (Hon []
                (set_w (wire MessageTypeCall (bytes "readFile") (quote (bytes "/local.ts")))
                   (set_r [] (set_enabledCallbacks CallbackReadFile
                      (connect (wire MessageTypeCallResponse (bytes "readFile") []))))))
      as (_ & _ & Hempty); [reflexivity | reflexivity | vm_compute; reflexivity |].
    apply Hempty. reflexivity.
Defined.

(** C7, as stated, fails: a reply whose payload is the JSON null sends
    [GetAccessibleEntries] to the local file system, whose entries it
    returns. *)
Lemma GetAccessibleEntries_null_asks_local :
  let path := bytes "/" in
  let s :=
    set_enabledCallbacks CallbackGetAccessibleEntries
      (connect (wire MessageTypeCallResponse (bytes "getAccessibleEntries") (bytes "null"))) in
  let s' :=
    set_w (wire MessageTypeCall (bytes "getAccessibleEntries") (quote path)) (set_r [] s) in
  call (bytes "getAccessibleEntries") (any_string path) s = (Ret (bytes "null"), s')
  /\ GetAccessibleEntries path s
     = (Ret (mkEntries [bytes "local.ts"] []),
        set_fsQueries [LocalGetAccessibleEntries path] s').
Proof.
  cbv zeta. split; vm_compute; reflexivity.
Qed.

Lemma GetAccessibleEntries_cases_witness :
  let path := bytes "/" in
  let on payload :=
    set_enabledCallbacks CallbackGetAccessibleEntries
      (connect (wire MessageTypeCallResponse (bytes "getAccessibleEntries") payload)) in
  let sent :=
    set_w (wire MessageTypeCall (bytes "getAccessibleEntries") (quote path)) in
  let remote :=
    bytes "{" ++ quote (bytes "files") ++ bytes ":[" ++ quote (bytes "remote.ts")
    ++ bytes "]," ++ quote (bytes "directories") ++ bytes ":[]}" in
  GetAccessibleEntries path (on (bytes "null"))
  = (Ret (fs_GetAccessibleEntries path),
     set_fsQueries [LocalGetAccessibleEntries path] (sent (set_r [] (on (bytes "null")))))
  /\ GetAccessibleEntries path (on remote)
     = (Ret (mkEntries [bytes "remote.ts"] []), sent (set_r [] (on remote))).
Proof.
  cbv zeta. split.
  - destruct (GetAccessibleEntries_cases (bytes "/")
                (set_enabledCallbacks CallbackGetAccessibleEntries
                   (connect (wire MessageTypeCallResponse (bytes "getAccessibleEntries")
                               (bytes "null"))))
                (set_w (wire MessageTypeCall (bytes "getAccessibleEntries")
                          (quote (bytes "/")))
                   (set_r [] (set_enabledCallbacks CallbackGetAccessibleEntries
                      (connect (wire MessageTypeCallResponse (bytes "getAccessibleEntries")
                                  (bytes "null"))))))
                (bytes "null"))
      as (_ & Hnull & _); [reflexivity | vm_compute; reflexivity |].
    apply Hnull; reflexivity.
  - destruct (GetAccessibleEntries_cases (bytes "/")
                (set_enabledCallbacks CallbackGetAccessibleEntries
                   (connect (wire MessageTypeCallResponse (bytes "getAccessibleEntries")
                               (bytes "{" ++ quote (bytes "files") ++ bytes ":["
                                ++ quote (bytes "remote.ts") ++ bytes "],"
                                ++ quote (bytes "directories") ++ bytes ":[]}"))))
                (set_w (wire MessageTypeCall (bytes "getAccessibleEntries")
                          (quote (bytes "/")))
                   (set_r [] (set_enabledCallbacks CallbackGetAccessibleEntries
                      (connect (wire MessageTypeCallResponse (bytes "getAccessibleEntries")
                                  (bytes "{" ++ quote (bytes "files") ++ bytes ":["
                                   ++ quote (bytes "remote.ts") ++ bytes "],"
                                   ++ quote (bytes "directories") ++ bytes ":[]}"))))))
                (bytes "{" ++ quote (bytes "files") ++ bytes ":["
                 ++ quote (bytes "remote.ts") ++ bytes "],"
                 ++ quote (bytes "directories") ++ bytes ":[]}"))
      as (_ & _ & _ & Hentries); [reflexivity | vm_compute; reflexivity |].
    apply Hentries; [discriminate | vm_compute; reflexivity].
Defined.

End ApiProofs.

Module ApiMore.
Import Api ApiProofs.

(** ** More on the envelope codec *)

(** X1. The encoder is injective on the envelopes the codec carries: two
    of them with the same bytes on the wire are the same envelope. *)
Theorem wire_injective (k k' : MessageType) (m m' p p' : list byte) :
  carried (k, m, p) -> carried (k', m', p') ->
  wire k m p = wire k' m' p' ->
  k = k' /\ m = m' /\ p = p'.
Proof.
  intros (Hk & Hm & Hp) (Hk' & Hm' & Hp') Hwire.
  pose proof (readRequest_wire [] k m p [] (Fixture.connect []) Hk ltac:(lia) ltac:(lia)
                (or_introl eq_refl)) as Hread.
  pose proof (readRequest_wire [] k' m' p' [] (Fixture.connect []) Hk' ltac:(lia) ltac:(lia)
                (or_introl eq_refl)) as Hread'.
  rewrite Hwire, Hread' in Hread. injection Hread as <- <- <-. auto.
Qed.

Lemma wire_injective_witness :
  MessageTypeRequest = MessageTypeRequest /\ bytes "echo" = bytes "echo"
  /\ bytes "hello" = bytes "hello".
Proof.
  apply (wire_injective MessageTypeRequest MessageTypeRequest (bytes "echo") (bytes "echo")
           (bytes "hello") (bytes "hello"));
    [ repeat split; vm_compute; discriminate
    | repeat split; vm_compute; discriminate
    | reflexivity ].
Defined.

Lemma set_w_same (s : Server) : set_w (w s) s = s.
Proof. destruct s; reflexivity. Qed.

(** X2. Envelopes written one after the other are read back one after the
    other: [writeMessages] puts their encodings on the output stream in
    order, and as many calls of [readRequest] on those bytes give the same
    envelopes in the same order and stop where the bytes that follow begin. *)
Theorem readRequests_writeMessages
  (envelopes : list (MessageType * list byte * list byte)) (rest : list byte)
  (s t : Server) :
  Forall carried envelopes ->
  wErr s = None ->
  writeMessages envelopes s = (Ret tt, set_w (w s ++ wires envelopes) s)
  /\ readRequests (List.length envelopes) (set_r (wires envelopes ++ rest) t)
     = (Ret envelopes, set_r rest t).
Proof.
  intros Hall Hw. split.
  - revert s Hw. induction Hall as [|[[k m] p] envelopes _ _ IH]; intros s Hw.
    + cbn. rewrite List.app_nil_r, set_w_same. reflexivity.
    + cbn [writeMessages]. unfold bind. rewrite writeMessage_run by exact Hw.
      rewrite IH by exact Hw. unfold wires. cbn [map concat set_w w r wErr].
      unfold set_w. cbn [r w wErr enabledCallbacks requestId fsQueries].
      rewrite <- List.app_assoc. reflexivity.
  - revert t. induction Hall as [|[[k m] p] envelopes (Hk & Hm & Hp) _ IH]; intros t.
    + reflexivity.
    + cbn [List.length readRequests]. unfold wires. cbn [map concat].
      rewrite <- List.app_assoc. unfold bind at 1.
      rewrite readRequest_wire; [|exact Hk|lia|lia|left; reflexivity].
      unfold bind at 1. fold (wires envelopes). rewrite IH. reflexivity.
Qed.

Lemma readRequests_writeMessages_witness :
  let envelopes :=
    [(MessageTypeRequest, bytes "echo", bytes "a");
     (MessageTypeCall, bytes "readFile", bytes "/a.ts")] in
  writeMessages envelopes (Fixture.connect [])
  = (Ret tt, set_w (w (Fixture.connect []) ++ wires envelopes) (Fixture.connect []))
  /\ readRequests (List.length envelopes) (set_r (wires envelopes ++ [x93]) (Fixture.connect []))
     = (Ret envelopes, set_r [x93] (Fixture.connect [])).
Proof.
  cbv zeta. apply readRequests_writeMessages; [|reflexivity].
  repeat constructor; vm_compute; discriminate.
Defined.




Lemma len_cons {A : Type} (x : A) (l : list A) : len (x :: l) = 1 + len l.
Proof. unfold len. cbn [List.length]. lia. Qed.

Lemma BigEndian_Uint16_range (b0 b1 : byte) : 0 <= BigEndian_Uint16 b0 b1 < 65536.
Proof.
  rewrite BigEndian_Uint16_add.
  pose proof (Z_of_byte_range b0). pose proof (Z_of_byte_range b1). lia.
Qed.

Lemma BigEndian_Uint32_range (b0 b1 b2 b3 : byte) :
  0 <= BigEndian_Uint32 b0 b1 b2 b3 < 4294967296.
Proof.
  rewrite BigEndian_Uint32_add.
  pose proof (Z_of_byte_range b0). pose proof (Z_of_byte_range b1).
  pose proof (Z_of_byte_range b2). pose proof (Z_of_byte_range b3). lia.
Qed.

Lemma binShape_len (p rest bs : list byte) :
  binShape p rest bs ->
  len p < 4294967296 /\ len (binWire p) + len rest <= len bs.
Proof.
  intros [b Hlen | b0 b1 Hlen | b0 b1 b2 b3 Hlen]; unfold binWire;
    change (Z.shiftl 1 16) with 65536.
  - pose proof (Z_of_byte_range b). split; [lia|].
    destruct (Z.ltb_spec (len p) 256); [|lia].
    unfold len. cbn [List.length app]. rewrite !List.length_app. lia.
  - pose proof (BigEndian_Uint16_range b0 b1). split; [lia|].
    destruct (len p <? 256); [|destruct (Z.ltb_spec (len p) 65536); [|lia]];
      unfold len; cbn [List.length app BigEndian_PutUint16];
      rewrite !List.length_app; cbn [List.length]; lia.
  - pose proof (BigEndian_Uint32_range b0 b1 b2 b3). split; [lia|].
    destruct (len p <? 256); [|destruct (len p <? 65536)];
      unfold len; cbn [List.length app BigEndian_PutUint16 BigEndian_PutUint32];
      rewrite !List.length_app; cbn [List.length]; lia.
Qed.

(** X4. Whatever [readRequest] accepts is an envelope the codec carries:
    the kind is one of the six, and the method and the payload are shorter
    than 2^32 bytes.  The bytes it consumed are at least as many as the
    encoder writes for that envelope, and reading the encoder's bytes for it
    gives the same envelope again. *)
Theorem readRequest_sound (e : list byte) (s s' : Server) (k : MessageType)
  (m p : list byte) :
  readRequest e s = (Ret (k, m, p), s') ->
  carried (k, m, p)
  /\ (e = [] \/ m = e)
  /\ (exists consumed,
        r s = consumed ++ r s' /\ len (wire k m p) <= len consumed)
  /\ (forall rest t,
        readRequest e (set_r (wire k m p ++ rest) t) = (Ret (k, m, p), set_r rest t)).
Proof.
  intros Hread.
  apply readRequest_inv in Hread
    as (b & rest1 & rest2 & Hr & -> & Hvalid & Hsm & Hsp & He & Hs').
  destruct (binShape_len _ _ _ Hsm) as [Hm Hlm].
  destruct (binShape_len _ _ _ Hsp) as [Hp Hlp].
  split; [repeat split; [exact Hvalid | lia | lia]|].
  split; [exact He|]. split.
  - assert (Hlen : len (wire (Z_of_byte b) m p) + len (r s') <= len (r s)).
    { rewrite Hr. unfold wire. cbn [app]. rewrite !len_cons, !len_app. lia. }
    assert (Hsuffix : exists consumed, r s = consumed ++ r s').
    { rewrite Hr.
      assert (Hbin : forall q tail bs, binShape q tail bs -> exists hd, bs = hd ++ tail).
      { intros q tail bs [c Hc | c0 c1 Hc | c0 c1 c2 c3 Hc].
        - exists (MessagePackTypeBin8 :: c :: q). reflexivity.
        - exists (MessagePackTypeBin16 :: c0 :: c1 :: q). reflexivity.
        - exists (MessagePackTypeBin32 :: c0 :: c1 :: c2 :: c3 :: q). reflexivity. }
      destruct (Hbin _ _ _ Hsm) as [hm ->]. destruct (Hbin _ _ _ Hsp) as [hp ->].
      exists (MessagePackTypeFixedArray3 :: MessagePackTypeU8 :: b :: hm ++ hp).
      cbn [app]. rewrite <- List.app_assoc. reflexivity. }
    destruct Hsuffix as [consumed Hc]. exists consumed.
    split; [exact Hc|]. rewrite Hc, len_app in Hlen. lia.
  - intros rest t. apply readRequest_wire; [exact Hvalid | lia | lia | exact He].
Qed.

Lemma readRequest_sound_witness :
  carried (MessageTypeRequest, [x41], [])
  /\ (@nil byte = [] \/ [x41] = @nil byte)
  /\ (exists consumed,
        r (Fixture.connect [x93; xcc; x01; xc5; x00; x01; x41; xc4; x00])
        = consumed ++ r (Fixture.connect [])
        /\ len (wire MessageTypeRequest [x41] []) <= len consumed)
  /\ (forall rest t,
        readRequest [] (set_r (wire MessageTypeRequest [x41] [] ++ rest) t)
        = (Ret (MessageTypeRequest, [x41], []), set_r rest t)).
Proof.
  apply (readRequest_sound []
           (Fixture.connect [x93; xcc; x01; xc5; x00; x01; x41; xc4; x00])
           (Fixture.connect []) MessageTypeRequest [x41] []).
  vm_compute. reflexivity.
Defined.

(** [readRequest] past the three bytes of the envelope's head. *)
Lemma readRequest_header (e : list byte) (b : byte) (rest : list byte) (s : Server) :
  IsValid (Z_of_byte b) = true ->
  readRequest e (set_r (MessagePackTypeFixedArray3 :: MessagePackTypeU8 :: b :: rest) s)
  = (let* method := readBin in
     if negb (bool_decide (e = [])) && negb (bool_decide (method = e)) then
       fail (ErrInvalidRequest (MethodMismatch e method))
     else
       let* payload := readBin in
       ret (Z_of_byte b, method, payload)) (set_r rest s).
Proof.
  intros Hvalid. unfold readRequest.
  unfold bind at 1. rewrite ReadByte_cons.
  rewrite bool_decide_eq_true_2 by reflexivity. cbn [negb].
  unfold bind at 1. rewrite ReadByte_cons.
  rewrite bool_decide_eq_true_2 by reflexivity. cbn [negb].
  unfold bind at 1. rewrite ReadByte_cons.
  rewrite Hvalid. reflexivity.
Qed.

(** X5. The framing errors of [readRequest].  An empty stream is [io.EOF].
    A first byte other than 0x93, a second byte other than 0xCC, a kind
    outside 1..6, and a method that starts with a byte other than 0xC4, 0xC5
    and 0xC6 are each an invalid-request error that names the offending
    byte; nothing beyond that byte is consumed. *)
Theorem readRequest_framing_errors (e : list byte) (s : Server) :
  (readRequest e (set_r [] s) = (Fail io_EOF, set_r [] s))
  /\ (forall t rest,
        t <> MessagePackTypeFixedArray3 ->
        readRequest e (set_r (t :: rest) s)
        = (Fail (ErrInvalidRequest (ExpectedFixedArray3 t)), set_r rest s))
  /\ (forall t rest,
        t <> MessagePackTypeU8 ->
        readRequest e (set_r (MessagePackTypeFixedArray3 :: t :: rest) s)
        = (Fail (ErrInvalidRequest (ExpectedU8 t)), set_r rest s))
  /\ (forall k rest,
        IsValid (Z_of_byte k) = false ->
        readRequest e
          (set_r (MessagePackTypeFixedArray3 :: MessagePackTypeU8 :: k :: rest) s)
        = (Fail (ErrInvalidRequest (UnknownMessageType (Z_of_byte k))), set_r rest s))
  /\ (forall k t rest,
        IsValid (Z_of_byte k) = true ->
        t <> MessagePackTypeBin8 -> t <> MessagePackTypeBin16 ->
        t <> MessagePackTypeBin32 ->
        readRequest e
          (set_r (MessagePackTypeFixedArray3 :: MessagePackTypeU8 :: k :: t :: rest) s)
        = (Fail (ErrInvalidRequest (ExpectedBinLength t)), set_r rest s)).
Proof.
  split; [reflexivity|]. split; [|split; [|split]].
  - intros t rest Ht. unfold readRequest. unfold bind at 1. rewrite ReadByte_cons.
    rewrite bool_decide_eq_false_2 by exact Ht. reflexivity.
  - intros t rest Ht. unfold readRequest. unfold bind at 1. rewrite ReadByte_cons.
    rewrite bool_decide_eq_true_2 by reflexivity. cbn [negb].
    unfold bind at 1. rewrite ReadByte_cons.
    rewrite bool_decide_eq_false_2 by exact Ht. reflexivity.
  - intros k rest Hk. unfold readRequest. unfold bind at 1. rewrite ReadByte_cons.
    rewrite bool_decide_eq_true_2 by reflexivity. cbn [negb].
    unfold bind at 1. rewrite ReadByte_cons.
    rewrite bool_decide_eq_true_2 by reflexivity. cbn [negb].
    unfold bind at 1. rewrite ReadByte_cons. rewrite Hk. reflexivity.
  - intros k t rest Hk H8 H16 H32. rewrite readRequest_header by exact Hk.
    unfold bind at 1. unfold readBin. unfold bind at 1. rewrite ReadByte_cons.
    rewrite !decide_False by assumption. reflexivity.
Qed.

Lemma readRequest_framing_errors_witness :
  readRequest [] (set_r [x92; x00] (Fixture.connect []))
  = (Fail (ErrInvalidRequest (ExpectedFixedArray3 x92)), set_r [x00] (Fixture.connect []))
  /\ readRequest [] (set_r [x93; xcc; x07] (Fixture.connect []))
     = (Fail (ErrInvalidRequest (UnknownMessageType (Z_of_byte x07))),
        set_r [] (Fixture.connect [])).
Proof.
  destruct (readRequest_framing_errors [] (Fixture.connect []))
    as (_ & Hfirst & _ & Hkind & _).
  split; [apply Hfirst; discriminate | apply Hkind; reflexivity].
Defined.

Lemma io_ReadFull_short (size : Z) (q : list byte) (s : Server) :
  len q < size ->
  exists e s', io_ReadFull size (set_r q s) = (Fail e, s') /\ endOfStream e.
Proof.
  intros Hshort. pose proof (len_nonneg q) as H0. unfold io_ReadFull. cbn [r set_r].
  destruct (Z.leb_spec size 0) as [Hle|_]; [lia|].
  destruct (len q =? 0).
  - eexists _, _. split; [reflexivity | left; reflexivity].
  - destruct (Z.ltb_spec (len q) size) as [_|Hge]; [|lia].
    eexists _, _. split; [reflexivity | right; reflexivity].
Qed.

Lemma readBin_short_payload (t : byte) (sizeBytes q : list byte) (size : Z) (s : Server) :
  (t = MessagePackTypeBin8 /\ (exists b, sizeBytes = [b] /\ size = Z_of_byte b)
   \/ t = MessagePackTypeBin16
      /\ (exists b0 b1, sizeBytes = [b0; b1] /\ size = BigEndian_Uint16 b0 b1)
   \/ t = MessagePackTypeBin32
      /\ (exists b0 b1 b2 b3,
            sizeBytes = [b0; b1; b2; b3] /\ size = BigEndian_Uint32 b0 b1 b2 b3)) ->
  len q < size ->
  exists e s', readBin (set_r (t :: sizeBytes ++ q) s) = (Fail e, s') /\ endOfStream e.
Proof.
  intros Hshape Hshort.
  destruct (io_ReadFull_short size q s Hshort) as (e & s' & Hfull & He).
  exists e, s'. split; [|exact He].
  unfold readBin. unfold bind at 1. rewrite ReadByte_cons.
  destruct Hshape as [[-> (b & -> & ->)]
                     | [[-> (b0 & b1 & -> & ->)] | [-> (b0 & b1 & b2 & b3 & -> & ->)]]].
  - rewrite decide_True by reflexivity.
    unfold bind at 1. unfold binary_Read_uint8, bind at 1.
    rewrite (io_ReadFull_app 1 [b] q s eq_refl). unfold ret at 1.
    unfold bind. rewrite Hfull. reflexivity.
  - rewrite decide_False by discriminate. rewrite decide_True by reflexivity.
    unfold bind at 1. unfold binary_Read_uint16, bind at 1.
    rewrite (io_ReadFull_app 2 [b0; b1] q s eq_refl). unfold ret at 1.
    unfold bind. rewrite Hfull. reflexivity.
  - rewrite decide_False by discriminate. rewrite decide_False by discriminate.
    rewrite decide_True by reflexivity.
    unfold bind at 1. unfold binary_Read_uint32, bind at 1.
    rewrite (io_ReadFull_app 4 [b0; b1; b2; b3] q s eq_refl). unfold ret at 1.
    unfold bind. rewrite Hfull. reflexivity.
Qed.

Lemma len_firstn_lt {A : Type} (n : nat) (l : list A) :
  (n < List.length l)%nat -> len (firstn n l) < len l.
Proof. intros Hn. unfold len. rewrite List.length_firstn. lia. Qed.

Lemma readBin_truncated (p : list byte) (n : nat) (s : Server) :
  len p < 4294967296 ->
  (n < List.length (binWire p))%nat ->
  exists e s', readBin (set_r (firstn n (binWire p)) s) = (Fail e, s') /\ endOfStream e.
Proof.
  intros Hlen Hn. pose proof (len_nonneg p) as H0. revert Hn. unfold binWire.
  change (Z.shiftl 1 16) with 65536.
  destruct (Z.ltb_spec (len p) 256) as [H8|H8];
    [|destruct (Z.ltb_spec (len p) 65536) as [H16|H16]]; cbn [app List.length]; intros Hn.
  - destruct n as [|[|n]];
      [eexists _, _; split; [reflexivity | left; reflexivity]..|].
    cbn [firstn].
    apply (readBin_short_payload MessagePackTypeBin8 [byte_of_Z (len p)] _ (len p)).
    + left. split; [reflexivity|]. eexists. split; [reflexivity|].
      rewrite Z_of_byte_of_Z, Z.mod_small; lia.
    + apply len_firstn_lt. lia.
  - unfold BigEndian_PutUint16, uint16 in *. rewrite (Z.mod_small (len p) 65536) in * by lia.
    cbn [app List.length] in *.
    destruct n as [|[|[|n]]];
      [ eexists _, _; split; [reflexivity | left; reflexivity]
      | eexists _, _; split; [reflexivity | left; reflexivity]
      | eexists _, _; split; [reflexivity | right; reflexivity] |].
    cbn [firstn].
    apply (readBin_short_payload MessagePackTypeBin16
             [byte_of_Z (Z.shiftr (len p) 8); byte_of_Z (len p)] _ (len p)).
    + right. left. split; [reflexivity|]. eexists _, _. split; [reflexivity|].
      rewrite BigEndian_Uint16_PutUint16; lia.
    + apply len_firstn_lt. lia.
  - unfold BigEndian_PutUint32, uint32 in *.
    rewrite (Z.mod_small (len p) 4294967296) in * by lia.
    cbn [app List.length] in *.
    destruct n as [|[|[|[|[|n]]]]];
      [ eexists _, _; split; [reflexivity | left; reflexivity]
      | eexists _, _; split; [reflexivity | left; reflexivity]
      | eexists _, _; split; [reflexivity | right; reflexivity]
      | eexists _, _; split; [reflexivity | right; reflexivity]
      | eexists _, _; split; [reflexivity | right; reflexivity] |].
    cbn [firstn].
    apply (readBin_short_payload MessagePackTypeBin32
             [byte_of_Z (Z.shiftr (len p) 24); byte_of_Z (Z.shiftr (len p) 16);
              byte_of_Z (Z.shiftr (len p) 8); byte_of_Z (len p)] _ (len p)).
    + right. right. split; [reflexivity|]. eexists _, _, _, _. split; [reflexivity|].
      rewrite BigEndian_Uint32_PutUint32; lia.
    + apply len_firstn_lt. lia.
Qed.

(** X6. A stream that ends inside an envelope is never taken for an
    envelope: on every proper prefix of the encoding of an envelope the
    codec carries, [readRequest] fails with [io.EOF] or
    [io.ErrUnexpectedEOF]. *)
Theorem readRequest_truncated (k : MessageType) (m p : list byte) (n : nat)
  (s : Server) :
  carried (k, m, p) ->
  (n < List.length (wire k m p))%nat ->
  exists e s',
    readRequest [] (set_r (firstn n (wire k m p)) s) = (Fail e, s') /\ endOfStream e.
Proof.
  intros (Hk & Hm & Hp) Hn. pose proof (IsValid_range k Hk) as Hrange.
  assert (Hkb : Z_of_byte (byte_of_Z k) = k)
    by (rewrite Z_of_byte_of_Z; apply Z.mod_small; lia).
  revert Hn. unfold wire. cbn [app List.length]. intros Hn.
  destruct n as [|[|[|n]]];
    [eexists _, _; split; [reflexivity | left; reflexivity]..|].
  cbn [firstn]. rewrite readRequest_header by (rewrite Hkb; exact Hk).
  rewrite List.length_app in Hn. rewrite List.firstn_app.
  destruct (Nat.lt_ge_cases n (List.length (binWire m))) as [Hshort|Hlong].
  - replace (n - List.length (binWire m))%nat with 0%nat by lia.
    cbn [firstn]. rewrite List.app_nil_r.
    destruct (readBin_truncated m n s ltac:(lia) Hshort) as (e & s' & Hbin & He).
    exists e, s'. split; [|exact He]. unfold bind at 1. rewrite Hbin. reflexivity.
  - rewrite List.firstn_all2 by exact Hlong.
    destruct (readBin_truncated p (n - List.length (binWire m)) s ltac:(lia) ltac:(lia))
      as (e & s' & Hbin & He).
    exists e, s'. split; [|exact He]. unfold bind at 1.
    rewrite (readBin_shape m _ _ s (binShape_binWire m _ ltac:(lia))).
    rewrite bool_decide_eq_true_2 by reflexivity. cbn [negb andb].
    unfold bind at 1. rewrite Hbin. reflexivity.
Qed.

Lemma readRequest_truncated_witness :
  exists e s',
    readRequest []
      (set_r (firstn 9 (wire MessageTypeRequest (bytes "echo") (bytes "hello")))
             (Fixture.connect []))
    = (Fail e, s')
    /\ endOfStream e.
Proof.
  apply (readRequest_truncated MessageTypeRequest (bytes "echo") (bytes "hello") 9
           (Fixture.connect [])).
  - repeat split; vm_compute; discriminate.
  - vm_compute. lia.
Defined.

(** ** What the reader and the call client leave alone *)

Lemma readsOnly_bind {A B : Type} (m : M A) (k : A -> M B) :
  readsOnly m -> (forall a, readsOnly (k a)) -> readsOnly (bind m k).
Proof.
  intros Hm Hk s. unfold bind. destruct (Hm s) as [Hs1 [c1 Hc1]].
  destruct (m s) as [[a|e|v] s1]; cbn [snd] in *; try (split; [exact Hs1 | eauto]).
  destruct (Hk a s1) as [Hs2 [c2 Hc2]].
  destruct (k a s1) as [o s2]; cbn [snd] in *. split.
  - rewrite Hs2, Hs1. reflexivity.
  - exists (c1 ++ c2). rewrite Hc1, Hc2, List.app_assoc. reflexivity.
Qed.

Lemma readsOnly_unit {A : Type} (o : outcome A) : readsOnly (fun s => (o, s)).
Proof.
  intros s. cbn [snd]. split; [symmetry; apply set_r_r | exists []; reflexivity].
Qed.

Lemma readsOnly_ReadByte : readsOnly ReadByte.
Proof.
  intros s. unfold ReadByte. destruct (r s) as [|b rest] eqn:Hr; cbn [snd].
  - split; [symmetry; apply set_r_r | exists []; symmetry; exact Hr].
  - split; [reflexivity | exists [b]; reflexivity].
Qed.

Lemma readsOnly_io_ReadFull (size : Z) : readsOnly (io_ReadFull size).
Proof.
  intros s. unfold io_ReadFull.
  destruct (size <=? 0); [apply (readsOnly_unit (Ret []))|].
  destruct (len (r s) =? 0); [apply (readsOnly_unit (Fail io_EOF))|].
  destruct (len (r s) <? size); cbn [snd r set_r].
  - split; [reflexivity | exists (r s); symmetry; apply List.app_nil_r].
  - split; [reflexivity|]. exists (firstn (Z.to_nat size) (r s)).
    symmetry. apply List.firstn_skipn.
Qed.

Lemma readsOnly_readBin : readsOnly readBin.
Proof.
  unfold readBin, binary_Read_uint8, binary_Read_uint16, binary_Read_uint32.
  repeat first
    [ apply readsOnly_ReadByte
    | apply readsOnly_io_ReadFull
    | apply readsOnly_bind
    | apply (readsOnly_unit (Ret _))
    | apply (readsOnly_unit (Fail _))
    | match goal with
      | |- readsOnly (if ?c then _ else _) => destruct c
      | |- readsOnly (match ?x with _ => _ end) => destruct x
      end
    | progress cbv zeta
    | intro ].
Qed.

Lemma readsOnly_readRequest (e : list byte) : readsOnly (readRequest e).
Proof.
  unfold readRequest.
  repeat first
    [ apply readsOnly_ReadByte
    | apply readsOnly_readBin
    | apply readsOnly_bind
    | apply (readsOnly_unit (Ret _))
    | apply (readsOnly_unit (Fail _))
    | match goal with
      | |- readsOnly (if ?c then _ else _) => destruct c
      end
    | progress cbv zeta
    | intro ].
Qed.

(** X7. Whether it succeeds or fails, [readRequest] only takes bytes off
    the front of the input stream: what is left is a suffix of what was
    there, and the output stream, the registry, the request counter and the
    local file system are as they were. *)
Theorem readRequest_reads_only (e : list byte) (s s' : Server)
  (o : outcome (MessageType * list byte * list byte)) :
  readRequest e s = (o, s') ->
  s' = set_r (r s') s /\ exists consumed, r s = consumed ++ r s'.
Proof.
  intros Hread. pose proof (readsOnly_readRequest e s) as Hframe.
  rewrite Hread in Hframe. exact Hframe.
Qed.

Lemma readRequest_reads_only_witness :
  set_r [x00] (Fixture.connect []) = set_r (r (set_r [x00] (Fixture.connect [])))
                                           (Fixture.connect [x92; x00])
  /\ exists consumed,
       r (Fixture.connect [x92; x00]) = consumed ++ r (set_r [x00] (Fixture.connect [])).
Proof.
  apply (readRequest_reads_only [] (Fixture.connect [x92; x00])
           (set_r [x00] (Fixture.connect []))
           (Fail (ErrInvalidRequest (ExpectedFixedArray3 x92)))).
  vm_compute. reflexivity.
Defined.

Section Collaborators.
Context `{Json} `{LocalFS} `{Texts} `{API}.

(** X8. The call client on the wire.  When the payload cannot be
    marshalled, or the Call envelope cannot be written, [call] returns that
    error and reads nothing.  Otherwise, whatever the reply, it has written
    exactly one Call envelope with the method and the marshalled payload,
    has only taken bytes off the front of the input stream, and has left the
    rest of the server as it was. *)
Theorem call_on_the_wire (method : list byte) (payload : any) (s : Server) :
  (forall text,
      json_Marshal payload = inl text ->
      call method payload s = (Fail (json_Error text), s))
  /\ (forall jsonPayload e,
        json_Marshal payload = inr jsonPayload -> wErr s = Some e ->
        call method payload s = (Fail e, s))
  /\ (forall jsonPayload o s',
        json_Marshal payload = inr jsonPayload -> wErr s = None ->
        call method payload s = (o, s') ->
        s' = set_w (w s ++ wire MessageTypeCall method jsonPayload) (set_r (r s') s)
        /\ exists consumed, r s = consumed ++ r s').
Proof.
  split; [|split].
  - intros text Hjson. unfold call. rewrite Hjson. reflexivity.
  - intros jsonPayload e Hjson Hw. unfold call. rewrite Hjson. cbn [ofJson].
    unfold bind at 1. unfold ret at 1. unfold bind at 1.
    rewrite (writeMessage_broken _ _ _ _ e Hw). reflexivity.
  - intros jsonPayload o s' Hjson Hw Hcall.
    rewrite (call_sent method payload jsonPayload s Hjson Hw) in Hcall.
    pose proof (readsOnly_readRequest method
                  (set_w (w s ++ wire MessageTypeCall method jsonPayload) s)) as Hframe.
    destruct (readRequest method _) as [[[[k m] p]|e|v] s1]; cbn [snd r set_w] in Hframe.
    + assert (Hs1 : s' = s1).
      { destruct (negb (k =? MessageTypeCallResponse) && negb (k =? MessageTypeCallError));
          [|destruct (k =? MessageTypeCallError)]; congruence. }
      subst s1. destruct Hframe as [Hs' Hc]. split; [|exact Hc].
      rewrite Hs' at 1. reflexivity.
    + injection Hcall as <- <-. destruct Hframe as [Hs' Hc]. split; [|exact Hc].
      rewrite Hs' at 1. reflexivity.
    + injection Hcall as <- <-. destruct Hframe as [Hs' Hc]. split; [|exact Hc].
      rewrite Hs' at 1. reflexivity.
Qed.

(** X9. A failed call is fatal to the request: whenever its capability is
    on and [call] returns an error, each of the five file-system adapters
    panics with that error and does not ask the local file system. *)
Theorem bridge_call_failure_panics (path : list byte) (s s' : Server) (err : error) :
  (CallbackEnabled CallbackDirectoryExists s = true ->
   call (bytes "directoryExists") (any_string path) s = (Fail err, s') ->
   DirectoryExists path s = (Panic (PanicError err), s'))
  /\ (CallbackEnabled CallbackFileExists s = true ->
      call (bytes "fileExists") (any_string path) s = (Fail err, s') ->
      FileExists path s = (Panic (PanicError err), s'))
  /\ (CallbackEnabled CallbackGetAccessibleEntries s = true ->
      call (bytes "getAccessibleEntries") (any_string path) s = (Fail err, s') ->
      GetAccessibleEntries path s = (Panic (PanicError err), s'))
  /\ (CallbackEnabled CallbackReadFile s = true ->
      HasPrefix path (bytes "bundled://") = false ->
      call (bytes "readFile") (any_string path) s = (Fail err, s') ->
      ReadFile path s = (Panic (PanicError err), s'))
  /\ (CallbackEnabled CallbackRealpath s = true ->
      call (bytes "realpath") (any_string path) s = (Fail err, s') ->
      Realpath path s = (Panic (PanicError err), s')).
Proof.
  repeat split.
  - intros Hon Hcall. unfold DirectoryExists, bind, gets. rewrite Hon.
    unfold orPanic. rewrite Hcall. reflexivity.
  - intros Hon Hcall. unfold FileExists, bind, gets. rewrite Hon.
    unfold orPanic. rewrite Hcall. reflexivity.
  - intros Hon Hcall. unfold GetAccessibleEntries, bind, gets. rewrite Hon.
    unfold orPanic at 1. rewrite Hcall. reflexivity.
  - intros Hon Hbundled Hcall. unfold ReadFile, bind, gets. rewrite Hon, Hbundled.
    cbn [andb negb]. unfold orPanic at 1. rewrite Hcall. reflexivity.
  - intros Hon Hcall. unfold Realpath, bind, gets. rewrite Hon.
    unfold orPanic at 1. rewrite Hcall. reflexivity.
Qed.

(** X10. [DirectoryExists] with the capability off asks the local file
    system and sends nothing.  With it on, a reply ["true"] is the answer
    true and any other payload that is not empty is the answer false, both
    without a query to the local file system; an empty payload hands over to
    the local file system. *)
Theorem DirectoryExists_cases (path : list byte) (s : Server) :
  (CallbackEnabled CallbackDirectoryExists s = false ->
   DirectoryExists path s
   = (Ret (fs_DirectoryExists path),
      set_fsQueries (fsQueries s ++ [LocalDirectoryExists path]) s))
  /\ (forall result s',
        CallbackEnabled CallbackDirectoryExists s = true ->
        call (bytes "directoryExists") (any_string path) s = (Ret result, s') ->
        fsQueries s' = fsQueries s
        /\ (result <> [] ->
            DirectoryExists path s = (Ret (bool_decide (result = bytes "true")), s'))
        /\ (result = [] ->
            DirectoryExists path s
            = (Ret (fs_DirectoryExists path),
               set_fsQueries (fsQueries s' ++ [LocalDirectoryExists path]) s'))).
Proof.
  split.
  - intros Hoff. unfold DirectoryExists, bind, gets. rewrite Hoff. reflexivity.
  - intros result s' Hon Hcall.
    split; [exact (call_fsQueries _ _ _ _ _ Hcall)|].
    split; intros Hresult; unfold DirectoryExists, bind, gets; rewrite Hon;
      unfold orPanic; rewrite Hcall, len_pos_iff.
    + rewrite (bool_decide_eq_false_2 _ Hresult). reflexivity.
    + rewrite (bool_decide_eq_true_2 _ Hresult). reflexivity.
Qed.

(** X11. [Realpath] with the capability off asks the local file system.
    With it on, a payload that is not empty is unmarshalled as a string and
    that string is the answer, without a query to the local file system; a
    payload that does not unmarshal is a panic; an empty payload hands over
    to the local file system. *)
Theorem Realpath_cases (path : list byte) (s : Server) :
  (CallbackEnabled CallbackRealpath s = false ->
   Realpath path s
   = (Ret (fs_Realpath path), set_fsQueries (fsQueries s ++ [LocalRealpath path]) s))
  /\ (forall data s',
        CallbackEnabled CallbackRealpath s = true ->
        call (bytes "realpath") (any_string path) s = (Ret data, s') ->
        fsQueries s' = fsQueries s
        /\ (forall result,
              data <> [] -> json_Unmarshal_string data = inr result ->
              Realpath path s = (Ret result, s'))
        /\ (forall text,
              data <> [] -> json_Unmarshal_string data = inl text ->
              Realpath path s = (Panic (PanicError (json_Error text)), s'))
        /\ (data = [] ->
            Realpath path s
            = (Ret (fs_Realpath path),
               set_fsQueries (fsQueries s' ++ [LocalRealpath path]) s'))).
Proof.
  split.
  - intros Hoff. unfold Realpath, bind, gets. rewrite Hoff. reflexivity.
  - intros data s' Hon Hcall.
    split; [exact (call_fsQueries _ _ _ _ _ Hcall)|].
    assert (Hrun : Realpath path s
                   = if 0 <? len data then orPanic (ofJson (json_Unmarshal_string data)) s'
                     else (Ret (fs_Realpath path),
                           set_fsQueries (fsQueries s' ++ [LocalRealpath path]) s')).
    { unfold Realpath, bind, gets. rewrite Hon. unfold orPanic at 1. rewrite Hcall.
      destruct (0 <? len data); reflexivity. }
    rewrite Hrun, len_pos_iff. repeat split.
    + intros result Hne Hparse. rewrite (bool_decide_eq_false_2 _ Hne), Hparse. reflexivity.
    + intros text Hne Hparse. rewrite (bool_decide_eq_false_2 _ Hne), Hparse. reflexivity.
    + intros ->. reflexivity.
Qed.

(** X12. [ReadFile] on a reply that is neither empty nor ["null"]: the
    payload is unmarshalled as a string, which is returned as the contents
    of a file that exists, without a query to the local file system; a
    payload that does not unmarshal is a panic. *)
Theorem ReadFile_contents (path data : list byte) (s s' : Server) :
  CallbackEnabled CallbackReadFile s = true ->
  HasPrefix path (bytes "bundled://") = false ->
  call (bytes "readFile") (any_string path) s = (Ret data, s') ->
  data <> bytes "null" -> data <> [] ->
  fsQueries s' = fsQueries s
  /\ (forall result,
        json_Unmarshal_string data = inr result ->
        ReadFile path s = (Ret (result, true), s'))
  /\ (forall text,
        json_Unmarshal_string data = inl text ->
        ReadFile path s = (Panic (PanicError (json_Error text)), s')).
Proof.
  intros Hon Hbundled Hcall Hnull Hempty.
  split; [exact (call_fsQueries _ _ _ _ _ Hcall)|].
  assert (Hrun : ReadFile path s
                 = match json_Unmarshal_string data with
                   | inr result => (Ret (result, true), s')
                   | inl text => (Panic (PanicError (json_Error text)), s')
                   end).
  { unfold ReadFile, bind, gets. rewrite Hon, Hbundled. cbn [andb negb].
    unfold orPanic at 1. rewrite Hcall.
    rewrite (bool_decide_eq_false_2 _ Hnull), len_pos_iff,
      (bool_decide_eq_false_2 _ Hempty). cbn [negb].
    unfold orPanic, ofJson. destruct (json_Unmarshal_string data); reflexivity. }
  rewrite Hrun. split; intros x Hparse; rewrite Hparse; reflexivity.
Qed.

(** X13. [GetAccessibleEntries] with the capability off asks the local
    file system and sends nothing; with it on, a payload that is not empty
    and does not unmarshal is a panic. *)
Theorem GetAccessibleEntries_off_or_malformed (path : list byte) (s : Server) :
  (CallbackEnabled CallbackGetAccessibleEntries s = false ->
   GetAccessibleEntries path s
   = (Ret (fs_GetAccessibleEntries path),
      set_fsQueries (fsQueries s ++ [LocalGetAccessibleEntries path]) s))
  /\ (forall result text s',
        CallbackEnabled CallbackGetAccessibleEntries s = true ->
        call (bytes "getAccessibleEntries") (any_string path) s = (Ret result, s') ->
        result <> [] ->
        json_Unmarshal_rawEntries result = inl text ->
        GetAccessibleEntries path s = (Panic (PanicError (json_Error text)), s')).
Proof.
  split.
  - intros Hoff. unfold GetAccessibleEntries, bind, gets. rewrite Hoff. reflexivity.
  - intros result text s' Hon Hcall Hne Hparse.
    unfold GetAccessibleEntries, bind, gets. rewrite Hon. unfold orPanic at 1.
    rewrite Hcall, len_pos_iff, (bool_decide_eq_false_2 _ Hne). cbn [negb].
    unfold orPanic, ofJson. rewrite Hparse. reflexivity.
Qed.

End Collaborators.

(** ** More on the capability registry *)

Lemma callbackNamed_capabilities (name : list byte) (bit : Callback) :
  callbackNamed name = Some bit -> In (name, bit) capabilities.
Proof.
  unfold callbackNamed, capabilities. intros Hnamed.
  repeat match type of Hnamed with
         | (if decide (?a = ?b) then _ else _) = _ =>
             destruct (decide (a = b)) as [->|_];
             [injection Hnamed as <-; cbn [In]; tauto|]
         end.
  discriminate.
Qed.

Lemma lor_bit_enabled (mask : Callback) (name name' : list byte) (bit bit' : Callback) :
  In (name, bit) capabilities -> In (name', bit') capabilities ->
  negb (Z.land (Z.lor mask bit) bit' =? 0)
  = negb (Z.land mask bit' =? 0) || bool_decide (name' = name).
Proof.
  unfold capabilities. cbn [In]. intros Hin Hin'.
  rewrite Z.land_lor_distr_l.
  repeat (destruct Hin as [Hin|Hin]; [injection Hin as <- <-|]); [..|contradiction];
    (repeat (destruct Hin' as [Hin'|Hin']; [injection Hin' as <- <-|]); [..|contradiction]);
    match goal with
    | |- context [Z.lor (Z.land mask ?b') (Z.land ?b ?b')] =>
        let v := eval vm_compute in (Z.land b b') in
        change (Z.land b b') with v
    end;
    first
      [ rewrite Z.lor_0_r, bool_decide_eq_false_2 by discriminate;
        symmetry; apply orb_false_r
      | rewrite bool_decide_eq_true_2 by reflexivity; rewrite orb_true_r;
        apply negb_true_iff, Z.eqb_neq; intros H0;
        apply Z.lor_eq_0_iff in H0 as [_ H0]; discriminate ].
Qed.

(** X14. Enabling a capability by name turns on its bit and no other: for
    each of the nine capabilities, it is enabled afterwards exactly when it
    was enabled before or is the one that was named. *)
Theorem enableCallback_exact (name name' : list byte) (bit bit' : Callback)
  (s : Server) :
  callbackNamed name = Some bit ->
  callbackNamed name' = Some bit' ->
  fst (enableCallback name s) = Ret tt
  /\ CallbackEnabled bit' (snd (enableCallback name s))
     = CallbackEnabled bit' s || bool_decide (name' = name).
Proof.
  intros Hname Hname'. rewrite enableCallback_named, Hname. cbn [fst snd].
  split; [reflexivity|]. unfold CallbackEnabled. cbn [enabledCallbacks set_enabledCallbacks].
  apply lor_bit_enabled; apply callbackNamed_capabilities; assumption.
Qed.

Lemma enableCallback_exact_witness :
  fst (enableCallback (bytes "readFile") (Fixture.connect [])) = Ret tt
  /\ CallbackEnabled CallbackDirectoryExists
       (snd (enableCallback (bytes "readFile") (Fixture.connect [])))
     = CallbackEnabled CallbackDirectoryExists (Fixture.connect [])
       || bool_decide (bytes "directoryExists" = bytes "readFile").
Proof.
  apply (enableCallback_exact (bytes "readFile") (bytes "directoryExists")
           CallbackReadFile CallbackDirectoryExists (Fixture.connect []));
    reflexivity.
Defined.

Lemma maskWith_enabled (names : list (list byte)) (mask : Callback)
  (name : list byte) (bit : Callback) :
  Forall (fun callback => callbackNamed callback <> None) names ->
  callbackNamed name = Some bit ->
  negb (Z.land (maskWith names mask) bit =? 0)
  = negb (Z.land mask bit =? 0) || bool_decide (name ∈ names).
Proof.
  intros Hknown Hname. revert mask.
  induction Hknown as [|callback names Hc _ IH]; intros mask.
  - cbn. rewrite bool_decide_eq_false_2 by (apply not_elem_of_nil). symmetry.
    apply orb_false_r.
  - unfold maskWith. cbn [fold_left].
    destruct (callbackNamed callback) as [b|] eqn:Hb; [|contradiction].
    fold (maskWith names (Z.lor mask b)). rewrite IH.
    rewrite (lor_bit_enabled mask callback name b bit)
      by (apply callbackNamed_capabilities; assumption).
    rewrite <- orb_assoc. f_equal.
    destruct (decide (name = callback)) as [->|Hne].
    + rewrite bool_decide_eq_true_2 by reflexivity.
      rewrite (bool_decide_eq_true_2 (callback ∈ callback :: names)) by (left).
      reflexivity.
    + rewrite (bool_decide_eq_false_2 (name = callback)) by exact Hne. cbn [orb].
      apply bool_decide_ext. rewrite elem_of_cons. tauto.
Qed.

Lemma enableCallbacks_unknown (known later : list (list byte)) (unknown : list byte)
  (s : Server) :
  Forall (fun callback => callbackNamed callback <> None) known ->
  callbackNamed unknown = None ->
  enableCallbacks (known ++ unknown :: later) s
  = (Fail (UnknownCallback unknown),
     set_enabledCallbacks (maskWith known (enabledCallbacks s)) s).
Proof.
  intros Hknown Hunknown. rewrite (enableCallbacks_known known _ s Hknown).
  cbn [enableCallbacks]. unfold bind. rewrite enableCallback_named, Hunknown.
  reflexivity.
Qed.

Lemma enableCallbacks_all_known (names : list (list byte)) (s : Server) :
  Forall (fun callback => callbackNamed callback <> None) names ->
  enableCallbacks names s
  = (Ret tt, set_enabledCallbacks (maskWith names (enabledCallbacks s)) s).
Proof.
  intros Hknown. rewrite <- (List.app_nil_r names) at 1.
  rewrite (enableCallbacks_known names [] s Hknown). reflexivity.
Qed.

Section Pump.
Context `{Json} `{LocalFS} `{Texts} `{API}.

(** X15. A configuration request whose names are all known succeeds and
    changes nothing but the registry: afterwards each of the nine
    capabilities is enabled exactly when it was enabled before or its name
    is in the list.  The order of the names and their repetition make no
    difference. *)
Theorem handleConfigure_success (payload : list byte) (params : ConfigureParams)
  (s : Server) :
  json_Unmarshal_ConfigureParams payload = inr (Some params) ->
  Forall (fun callback => callbackNamed callback <> None) (Callbacks params) ->
  exists mask,
    handleConfigure payload s = (Ret tt, set_enabledCallbacks mask s)
    /\ forall name bit,
         callbackNamed name = Some bit ->
         CallbackEnabled bit (set_enabledCallbacks mask s)
         = CallbackEnabled bit s || bool_decide (name ∈ Callbacks params).
Proof.
  intros Hparse Hknown. exists (maskWith (Callbacks params) (enabledCallbacks s)).
  split.
  - unfold handleConfigure. rewrite Hparse. apply enableCallbacks_all_known, Hknown.
  - intros name bit Hname. unfold CallbackEnabled.
    cbn [enabledCallbacks set_enabledCallbacks].
    apply maskWith_enabled; assumption.
Qed.

(** X16. The pump on an echo request: the Response envelope carries the
    method and the very bytes of the request's payload, the request counter
    goes up by one, and the loop goes on with the rest of the input. *)
Theorem Run_echo (fuel : nat) (deferred : list (list byte)) (payload rest : list byte)
  (s : Server) :
  len payload <= 4294967295 ->
  wErr s = None ->
  RunLoop (S fuel) deferred
    (set_r (wire MessageTypeRequest (bytes "echo") payload ++ rest) s)
  = RunLoop fuel (bytes "echo" :: deferred)
      (set_w (w s ++ wire MessageTypeResponse (bytes "echo") payload)
         (set_requestId (int64 (requestId s + 1)) (set_r rest s))).
Proof.
  intros Hlen Hw. cbn [RunLoop].
  rewrite readRequest_wire;
    [|reflexivity | vm_compute; reflexivity | lia | left; reflexivity].
  change (MessageTypeRequest =? MessageTypeRequest) with true. cbv iota.
  unfold handleRequest. unfold bind at 1.
  rewrite decide_False by discriminate. rewrite decide_True by reflexivity.
  unfold ret at 1. unfold sendResponse. rewrite writeMessage_run by exact Hw.
  reflexivity.
Qed.

(** X17. The pump on a configuration request.  With every name known the
    answer is a Response with an empty payload; with an unknown name it is
    an Error envelope that says ["unknown callback: "] and the name, and the
    names before it stay enabled.  Either way the loop goes on with the rest
    of the input: a configuration error does not end the connection. *)
Theorem Run_configure (fuel : nat) (deferred : list (list byte))
  (payload rest : list byte) (params : ConfigureParams) (s : Server) :
  len payload <= 4294967295 ->
  wErr s = None ->
  json_Unmarshal_ConfigureParams payload = inr (Some params) ->
  let configured names reply :=
    RunLoop fuel (bytes "configure" :: deferred)
      (set_w (w s ++ reply)
         (set_enabledCallbacks (maskWith names (enabledCallbacks s))
            (set_requestId (int64 (requestId s + 1)) (set_r rest s)))) in
  let received :=
    set_r (wire MessageTypeRequest (bytes "configure") payload ++ rest) s in
  (Forall (fun callback => callbackNamed callback <> None) (Callbacks params) ->
   RunLoop (S fuel) deferred received
   = configured (Callbacks params) (wire MessageTypeResponse (bytes "configure") []))
  /\ (forall known unknown later,
        Callbacks params = known ++ unknown :: later ->
        Forall (fun callback => callbackNamed callback <> None) known ->
        callbackNamed unknown = None ->
        RunLoop (S fuel) deferred received
        = configured known
            (wire MessageTypeError (bytes "configure")
               (bytes "unknown callback: " ++ unknown))).
Proof.
  intros Hlen Hw Hparse configured received.
  assert (Hstep : RunLoop (S fuel) deferred received
                  = match handleConfigure payload
                            (set_requestId (int64 (requestId s + 1)) (set_r rest s)) with
                    | (Ret _, s2) =>
                        match sendResponse (bytes "configure") [] s2 with
                        | (Ret _, s3) => RunLoop fuel (bytes "configure" :: deferred) s3
                        | (Fail err', s3) =>
                            returning (Some err') (bytes "configure" :: deferred) s3
                        | (Panic v, s3) => unwinding v (bytes "configure" :: deferred) s3
                        end
                    | (Fail err, s2) =>
                        match sendError (bytes "configure") err s2 with
                        | (Ret _, s3) => RunLoop fuel (bytes "configure" :: deferred) s3
                        | (Fail err', s3) =>
                            returning (Some err') (bytes "configure" :: deferred) s3
                        | (Panic v, s3) => unwinding v (bytes "configure" :: deferred) s3
                        end
                    | (Panic v, s2) => unwinding v (bytes "configure" :: deferred) s2
                    end).
  { unfold received. cbn [RunLoop].
    rewrite readRequest_wire;
      [|reflexivity | vm_compute; reflexivity | lia | left; reflexivity].
    change (MessageTypeRequest =? MessageTypeRequest) with true. cbv iota.
    unfold handleRequest. unfold bind at 1.
    rewrite decide_True by reflexivity. unfold bind at 1.
    destruct (handleConfigure payload _) as [[[]|err|v] s2]; reflexivity. }
  split.
  - intros Hknown. rewrite Hstep. unfold handleConfigure. rewrite Hparse.
    rewrite enableCallbacks_all_known by exact Hknown.
    unfold sendResponse. rewrite writeMessage_run by exact Hw. reflexivity.
  - intros known unknown later Hlist Hknown Hunknown. rewrite Hstep.
    unfold handleConfigure. rewrite Hparse, Hlist.
    rewrite enableCallbacks_unknown by assumption.
    unfold sendError. rewrite writeMessage_run by exact Hw. reflexivity.
Qed.

(** X18. The pump ends with an error, and writes nothing, when the input
    stream is at its end ([io.EOF]) and when the envelope it reads is of a
    kind other than Request (an invalid-request error that names the
    kind). *)
Theorem Run_stops (fuel : nat) (s : Server) :
  (Run (S fuel) (set_r [] s) = (Returned (Some io_EOF), set_r [] s))
  /\ (forall k m p rest,
        carried (k, m, p) -> k <> MessageTypeRequest ->
        Run (S fuel) (set_r (wire k m p ++ rest) s)
        = (Returned (Some (ErrInvalidRequest (ExpectedRequest k))), set_r rest s)).
Proof.
  split; [reflexivity|].
  intros k m p rest (Hk & Hm & Hp) Hkind. unfold Run. cbn [RunLoop].
  rewrite readRequest_wire; [|exact Hk | lia | lia | left; reflexivity].
  destruct (Z.eqb_spec k MessageTypeRequest) as [Heq|_]; [contradiction|].
  reflexivity.
Qed.

Lemma runDeferred_broken (deferred : list (list byte)) (v : panicValue) (e : error)
  (s : Server) :
  wErr s = Some e ->
  deferred <> [] ->
  runDeferred deferred (Some v) s
  = (Some (PanicString (bytes "fatal error sending panic response")), s).
Proof.
  intros Hw. revert v.
  induction deferred as [|method [|method' older] IH]; intros v Hne;
    [contradiction| |]; cbn [runDeferred]; unfold sendError;
    rewrite (writeMessage_broken _ _ _ _ e Hw).
  - reflexivity.
  - apply IH. discriminate.
Qed.

(** X19. The double fault.  When a handler panics and the output stream is
    broken, no Error envelope is written and the panic ["fatal error
    sending panic response"] leaves [Run], however many requests were served
    before. *)
Theorem Run_double_fault_any_depth (fuel : nat) (deferred : list (list byte))
  (s s1 s2 : Server) (method payload : list byte) (v : panicValue) (e : error) :
  readRequest [] s = (Ret (MessageTypeRequest, method, payload), s1) ->
  handleRequest method payload s1 = (Panic v, s2) ->
  wErr s2 = Some e ->
  RunLoop (S fuel) deferred s
  = (Crashed (PanicString (bytes "fatal error sending panic response")), s2).
Proof.
  intros Hread Hpanic Hw. cbn [RunLoop]. rewrite Hread.
  change (MessageTypeRequest =? MessageTypeRequest) with true. cbv iota.
  rewrite Hpanic. unfold unwinding.
  rewrite (runDeferred_broken _ v e s2 Hw) by discriminate. reflexivity.
Qed.

End Pump.

(** ** The resolver adapter *)

Section Resolving.
Context `{Json} `{Resolver}.

(** X20. [GetPackageJsonScopeIfApplicable] with the capability off asks the
    local resolver.  With it on, the local resolver is never asked: an
    empty reply is the answer nil, a reply that unmarshals and whose
    contents parse is the entry built from it, and a failed call, a reply
    that does not unmarshal or contents that do not parse are a panic. *)
Theorem GetPackageJsonScopeIfApplicable_cases (path : list byte) (s : Server) :
  (CallbackEnabled CallbackGetPackageJsonScopeIfApplicable s = false ->
   GetPackageJsonScopeIfApplicable path s
   = (Ret (inner_GetPackageJsonScopeIfApplicable path), s))
  /\ (forall err s',
        CallbackEnabled CallbackGetPackageJsonScopeIfApplicable s = true ->
        call (bytes "getPackageJsonScopeIfApplicable") (any_string path) s = (Fail err, s') ->
        GetPackageJsonScopeIfApplicable path s = (Panic (PanicError err), s'))
  /\ (forall result s',
        CallbackEnabled CallbackGetPackageJsonScopeIfApplicable s = true ->
        call (bytes "getPackageJsonScopeIfApplicable") (any_string path) s
        = (Ret result, s') ->
        (result = [] -> GetPackageJsonScopeIfApplicable path s = (Ret None, s'))
        /\ (forall res contents,
              result <> [] ->
              json_Unmarshal_PackageJsonIfApplicable result = inr res ->
              packagejson_Parse (reply_Contents res) = inr contents ->
              GetPackageJsonScopeIfApplicable path s
              = (Ret (Some (mkInfoCacheEntry (reply_PackageDirectory res)
                              (reply_DirectoryExists res) (Some contents))), s'))
        /\ (forall text,
              result <> [] ->
              json_Unmarshal_PackageJsonIfApplicable result = inl text ->
              GetPackageJsonScopeIfApplicable path s
              = (Panic (PanicError (json_Error text)), s'))
        /\ (forall res text,
              result <> [] ->
              json_Unmarshal_PackageJsonIfApplicable result = inr res ->
              packagejson_Parse (reply_Contents res) = inl text ->
              GetPackageJsonScopeIfApplicable path s
              = (Panic (PanicError (json_Error text)), s'))).
Proof.
  split; [|split].
  - intros Hoff. unfold GetPackageJsonScopeIfApplicable, bind, gets. rewrite Hoff.
    reflexivity.
  - intros err s' Hon Hcall. unfold GetPackageJsonScopeIfApplicable, bind, gets.
    rewrite Hon. unfold orPanic at 1. rewrite Hcall. reflexivity.
  - intros result s' Hon Hcall.
    assert (Hrun : GetPackageJsonScopeIfApplicable path s
                   = if 0 <? len result then
                       match json_Unmarshal_PackageJsonIfApplicable result with
                       | inl text => (Panic (PanicError (json_Error text)), s')
                       | inr res =>
                           match packagejson_Parse (reply_Contents res) with
                           | inl text => (Panic (PanicError (json_Error text)), s')
                           | inr contents =>
                               (Ret (Some (mkInfoCacheEntry (reply_PackageDirectory res)
                                             (reply_DirectoryExists res) (Some contents))),
                                s')
                           end
                       end
                     else (Ret None, s')).
    { unfold GetPackageJsonScopeIfApplicable, bind, gets. rewrite Hon.
      unfold orPanic at 1. rewrite Hcall. destruct (0 <? len result); [|reflexivity].
      unfold orPanic, ofJson.
      destruct (json_Unmarshal_PackageJsonIfApplicable result) as [text|res];
        [reflexivity|].
      unfold ret at 1. cbv beta iota.
      destruct (packagejson_Parse (reply_Contents res)); reflexivity. }
    rewrite Hrun, len_pos_iff. repeat split.
    + intros ->. reflexivity.
    + intros res contents Hne Hres Hparse.
      rewrite (bool_decide_eq_false_2 _ Hne), Hres, Hparse. reflexivity.
    + intros text Hne Hres. rewrite (bool_decide_eq_false_2 _ Hne), Hres. reflexivity.
    + intros res text Hne Hres Hparse.
      rewrite (bool_decide_eq_false_2 _ Hne), Hres, Hparse. reflexivity.
Qed.

(** X21. [GetPackageScopeForPath] asks the local resolver when the
    capability is off and when the reply is empty; a reply that unmarshals
    is the answer, one that does not is a panic, and so is a failed call. *)
Theorem GetPackageScopeForPath_cases (directory : list byte) (s : Server) :
  (CallbackEnabled CallbackGetPackageScopeForPath s = false ->
   GetPackageScopeForPath directory s = (Ret (inner_GetPackageScopeForPath directory), s))
  /\ (forall err s',
        CallbackEnabled CallbackGetPackageScopeForPath s = true ->
        call (bytes "getPackageScopeForPath") (any_string directory) s = (Fail err, s') ->
        GetPackageScopeForPath directory s = (Panic (PanicError err), s'))
  /\ (forall result s',
        CallbackEnabled CallbackGetPackageScopeForPath s = true ->
        call (bytes "getPackageScopeForPath") (any_string directory) s = (Ret result, s') ->
        (result = [] ->
         GetPackageScopeForPath directory s
         = (Ret (inner_GetPackageScopeForPath directory), s'))
        /\ (forall res,
              result <> [] -> json_Unmarshal_InfoCacheEntry result = inr res ->
              GetPackageScopeForPath directory s = (Ret (Some res), s'))
        /\ (forall text,
              result <> [] -> json_Unmarshal_InfoCacheEntry result = inl text ->
              GetPackageScopeForPath directory s
              = (Panic (PanicError (json_Error text)), s'))).
Proof.
  split; [|split].
  - intros Hoff. unfold GetPackageScopeForPath, bind, gets. rewrite Hoff. reflexivity.
  - intros err s' Hon Hcall. unfold GetPackageScopeForPath, bind, gets.
    rewrite Hon. unfold orPanic at 1. rewrite Hcall. reflexivity.
  - intros result s' Hon Hcall.
    assert (Hrun : GetPackageScopeForPath directory s
                   = if 0 <? len result then
                       match json_Unmarshal_InfoCacheEntry result with
                       | inl text => (Panic (PanicError (json_Error text)), s')
                       | inr res => (Ret (Some res), s')
                       end
                     else (Ret (inner_GetPackageScopeForPath directory), s')).
    { unfold GetPackageScopeForPath, bind, gets. rewrite Hon.
      unfold orPanic at 1. rewrite Hcall. destruct (0 <? len result); [|reflexivity].
      unfold orPanic, ofJson.
      destruct (json_Unmarshal_InfoCacheEntry result); reflexivity. }
    rewrite Hrun, len_pos_iff. repeat split.
    + intros ->. reflexivity.
    + intros res Hne Hres. rewrite (bool_decide_eq_false_2 _ Hne), Hres. reflexivity.
    + intros text Hne Hres. rewrite (bool_decide_eq_false_2 _ Hne), Hres. reflexivity.
Qed.

(** X22. [ResolveModuleName] and [ResolveTypeReferenceDirective] ask the
    local resolver when the capability is off and when the reply is empty.
    A reply that unmarshals is the resolution, returned with no list of
    failed lookups; the Call carries the four arguments by name. *)
Theorem Resolve_cases (name containingFile : list byte) (resolutionMode : Z)
  (redirectedReference : any) (s : Server) :
  let arguments first :=
    any_map
      (fields_cons first (any_string name)
      (fields_cons (bytes "containingFile") (any_string containingFile)
      (fields_cons (bytes "resolutionMode") (any_int resolutionMode)
      (fields_cons (bytes "redirectedReference") redirectedReference fields_nil)))) in
  let localModule :=
    inner_ResolveModuleName name containingFile resolutionMode redirectedReference in
  let localDirective :=
    inner_ResolveTypeReferenceDirective name containingFile resolutionMode
      redirectedReference in
  (CallbackEnabled CallbackResolveModuleName s = false ->
   ResolveModuleName name containingFile resolutionMode redirectedReference s
   = (Ret localModule, s))
  /\ (CallbackEnabled CallbackResolveTypeReferenceDirective s = false ->
      ResolveTypeReferenceDirective name containingFile resolutionMode
        redirectedReference s
      = (Ret localDirective, s))
  /\ (forall result s',
        CallbackEnabled CallbackResolveModuleName s = true ->
        call (bytes "resolveModuleName") (arguments (bytes "moduleName")) s
        = (Ret result, s') ->
        (result = [] ->
         ResolveModuleName name containingFile resolutionMode redirectedReference s
         = (Ret localModule, s'))
        /\ (forall res,
              result <> [] -> json_Unmarshal_ResolvedModule result = inr res ->
              ResolveModuleName name containingFile resolutionMode redirectedReference s
              = (Ret (Some res, []), s')))
  /\ (forall result s',
        CallbackEnabled CallbackResolveTypeReferenceDirective s = true ->
        call (bytes "resolveTypeReferenceDirective")
          (arguments (bytes "typeReferenceDirectiveName")) s
        = (Ret result, s') ->
        (result = [] ->
         ResolveTypeReferenceDirective name containingFile resolutionMode
           redirectedReference s
         = (Ret localDirective, s'))
        /\ (forall res,
              result <> [] ->
              json_Unmarshal_ResolvedTypeReferenceDirective result = inr res ->
              ResolveTypeReferenceDirective name containingFile resolutionMode
                redirectedReference s
              = (Ret (Some res, []), s'))).
Proof.
  cbv zeta. split; [|split; [|split]].
  - intros Hoff. unfold ResolveModuleName, bind, gets. rewrite Hoff. reflexivity.
  - intros Hoff. unfold ResolveTypeReferenceDirective, bind, gets. rewrite Hoff.
    reflexivity.
  - intros result s' Hon Hcall. split.
    + intros ->. unfold ResolveModuleName, bind, gets. rewrite Hon.
      unfold orPanic at 1. rewrite Hcall. reflexivity.
    + intros res Hne Hres. unfold ResolveModuleName, bind, gets. rewrite Hon.
      unfold orPanic at 1. rewrite Hcall, len_pos_iff, (bool_decide_eq_false_2 _ Hne).
      cbn [negb]. unfold orPanic, ofJson. rewrite Hres. reflexivity.
  - intros result s' Hon Hcall. split.
    + intros ->. unfold ResolveTypeReferenceDirective, bind, gets. rewrite Hon.
      unfold orPanic at 1. rewrite Hcall. reflexivity.
    + intros res Hne Hres. unfold ResolveTypeReferenceDirective, bind, gets. rewrite Hon.
      unfold orPanic at 1. rewrite Hcall, len_pos_iff, (bool_decide_eq_false_2 _ Hne).
      cbn [negb]. unfold orPanic, ofJson. rewrite Hres. reflexivity.
Qed.

End Resolving.

(** ** The further theorems at work on the concrete peer *)

Import Fixture.

Lemma call_on_the_wire_witness :
  let s := connect (wire MessageTypeCallError (bytes "realpath") (bytes "denied") ++ [x93]) in
  let s' :=
    set_w (wire MessageTypeCall (bytes "realpath") (quote (bytes "/a"))) (set_r [x93] s) in
  s' = set_w (w s ++ wire MessageTypeCall (bytes "realpath") (quote (bytes "/a")))
             (set_r (r s') s)
  /\ exists consumed, r s = consumed ++ r s'.
Proof.
  cbv zeta.
  destruct (call_on_the_wire (bytes "realpath") (any_string (bytes "/a"))
              (connect (wire MessageTypeCallError (bytes "realpath") (bytes "denied")
                        ++ [x93])))
    as (_ & _ & Hsent).
  apply (Hsent (quote (bytes "/a")) (Fail (ErrClientError (bytes "denied"))));
    [reflexivity | reflexivity | vm_compute; reflexivity].
Defined.

Lemma bridge_call_failure_panics_witness :
  let s :=
    set_enabledCallbacks CallbackFileExists
      (connect (wire MessageTypeCallError (bytes "fileExists") (bytes "denied"))) in
  FileExists (bytes "/a.ts") s
  = (Panic (PanicError (ErrClientError (bytes "denied"))),
     set_w (wire MessageTypeCall (bytes "fileExists") (quote (bytes "/a.ts")))
           (set_r [] s)).
Proof.
  cbv zeta.
  destruct (bridge_call_failure_panics (bytes "/a.ts")
              (set_enabledCallbacks CallbackFileExists
                 (connect (wire MessageTypeCallError (bytes "fileExists") (bytes "denied"))))
              (set_w (wire MessageTypeCall (bytes "fileExists") (quote (bytes "/a.ts")))
                 (set_r [] (set_enabledCallbacks CallbackFileExists
                    (connect (wire MessageTypeCallError (bytes "fileExists")
                                (bytes "denied"))))))
              (ErrClientError (bytes "denied")))
    as (_ & Hfile & _).
  apply Hfile; [reflexivity | vm_compute; reflexivity].
Defined.

Lemma DirectoryExists_cases_witness :
  let on payload :=
    set_enabledCallbacks CallbackDirectoryExists
      (connect (wire MessageTypeCallResponse (bytes "directoryExists") payload)) in
  let sent := set_w (wire MessageTypeCall (bytes "directoryExists") (quote (bytes "/"))) in
  DirectoryExists (bytes "/") (connect [])
  = (Ret true, set_fsQueries [LocalDirectoryExists (bytes "/")] (connect []))
  /\ DirectoryExists (bytes "/") (on (bytes "false"))
     = (Ret false, sent (set_r [] (on (bytes "false")))).
Proof.
  cbv zeta. split.
  - destruct (DirectoryExists_cases (bytes "/") (connect [])) as [Hoff _].
    apply Hoff. reflexivity.
  - destruct (DirectoryExists_cases (bytes "/")
                (set_enabledCallbacks CallbackDirectoryExists
                   (connect (wire MessageTypeCallResponse (bytes "directoryExists")
                               (bytes "false")))))
      as [_ Hon].
    destruct (Hon (bytes "false")
                (set_w (wire MessageTypeCall (bytes "directoryExists") (quote (bytes "/")))
                   (set_r [] (set_enabledCallbacks CallbackDirectoryExists
                      (connect (wire MessageTypeCallResponse (bytes "directoryExists")
                                  (bytes "false")))))))
      as (_ & Hanswer & _); [reflexivity | vm_compute; reflexivity |].
    apply Hanswer. discriminate.
Defined.

Lemma Realpath_cases_witness :
  let on payload :=
    set_enabledCallbacks CallbackRealpath
      (connect (wire MessageTypeCallResponse (bytes "realpath") payload)) in
  let sent := set_w (wire MessageTypeCall (bytes "realpath") (quote (bytes "/link"))) in
  Realpath (bytes "/link") (connect [])
  = (Ret (bytes "/link"), set_fsQueries [LocalRealpath (bytes "/link")] (connect []))
  /\ Realpath (bytes "/link") (on (quote (bytes "/target")))
     = (Ret (bytes "/target"), sent (set_r [] (on (quote (bytes "/target")))))
  /\ Realpath (bytes "/link") (on (bytes "oops"))
     = (Panic (PanicError (json_Error syntaxError)), sent (set_r [] (on (bytes "oops")))).
Proof.
  cbv zeta. split; [|split].
  - destruct (Realpath_cases (bytes "/link") (connect [])) as [Hoff _].
    apply Hoff. reflexivity.
  - destruct (Realpath_cases (bytes "/link")
                (set_enabledCallbacks CallbackRealpath
                   (connect (wire MessageTypeCallResponse (bytes "realpath")
                               (quote (bytes "/target"))))))
      as [_ Hon].
    destruct (Hon (quote (bytes "/target"))
                (set_w (wire MessageTypeCall (bytes "realpath") (quote (bytes "/link")))
                   (set_r [] (set_enabledCallbacks CallbackRealpath
                      (connect (wire MessageTypeCallResponse (bytes "realpath")
                                  (quote (bytes "/target"))))))))
      as (_ & Hparsed & _); [reflexivity | vm_compute; reflexivity |].
    apply Hparsed; [discriminate | reflexivity].
  - destruct (Realpath_cases (bytes "/link")
                (set_enabledCallbacks CallbackRealpath
                   (connect (wire MessageTypeCallResponse (bytes "realpath") (bytes "oops")))))
      as [_ Hon].
    destruct (Hon (bytes "oops")
                (set_w (wire MessageTypeCall (bytes "realpath") (quote (bytes "/link")))
                   (set_r [] (set_enabledCallbacks CallbackRealpath
                      (connect (wire MessageTypeCallResponse (bytes "realpath")
                                  (bytes "oops")))))))
      as (_ & _ & Hbad & _); [reflexivity | vm_compute; reflexivity |].
    apply Hbad; [discriminate | reflexivity].
Defined.

Lemma ReadFile_contents_witness :
  let s :=
    set_enabledCallbacks CallbackReadFile
      (connect (wire MessageTypeCallResponse (bytes "readFile") (quote (bytes "let y = 2")))) in
  ReadFile (bytes "/local.ts") s
  = (Ret (bytes "let y = 2", true),
     set_w (wire MessageTypeCall (bytes "readFile") (quote (bytes "/local.ts")))
           (set_r [] s)).
Proof.
  cbv zeta.
  destruct (ReadFile_contents (bytes "/local.ts") (quote (bytes "let y = 2"))
              (set_enabledCallbacks CallbackReadFile
                 (connect (wire MessageTypeCallResponse (bytes "readFile")
                             (quote (bytes "let y = 2")))))
              (set_w (wire MessageTypeCall (bytes "readFile") (quote (bytes "/local.ts")))
                 (set_r [] (set_enabledCallbacks CallbackReadFile
                    (connect (wire MessageTypeCallResponse (bytes "readFile")
                                (quote (bytes "let y = 2"))))))))
    as (_ & Hparsed & _);
    [reflexivity | reflexivity | vm_compute; reflexivity | discriminate | discriminate |].
  apply Hparsed. reflexivity.
Defined.

Lemma GetAccessibleEntries_off_or_malformed_witness :
  let s :=
    set_enabledCallbacks CallbackGetAccessibleEntries
      (connect (wire MessageTypeCallResponse (bytes "getAccessibleEntries") (bytes "oops"))) in
  GetAccessibleEntries (bytes "/") (connect [])
  = (Ret (mkEntries [bytes "local.ts"] []),
     set_fsQueries [LocalGetAccessibleEntries (bytes "/")] (connect []))
  /\ GetAccessibleEntries (bytes "/") s
     = (Panic (PanicError (json_Error syntaxError)),
        set_w (wire MessageTypeCall (bytes "getAccessibleEntries") (quote (bytes "/")))
              (set_r [] s)).
Proof.
  cbv zeta. split.
  - destruct (GetAccessibleEntries_off_or_malformed (bytes "/") (connect [])) as [Hoff _].
    apply Hoff. reflexivity.
  - destruct (GetAccessibleEntries_off_or_malformed (bytes "/")
                (set_enabledCallbacks CallbackGetAccessibleEntries
                   (connect (wire MessageTypeCallResponse (bytes "getAccessibleEntries")
                               (bytes "oops")))))
      as [_ Hbad].
    apply (Hbad (bytes "oops"));
      [reflexivity | vm_compute; reflexivity | discriminate | reflexivity].
Defined.

Lemma handleConfigure_success_witness :
  exists mask,
    handleConfigure (configurePayload [bytes "readFile"; bytes "realpath"; bytes "readFile"])
      (connect [])
    = (Ret tt, set_enabledCallbacks mask (connect []))
    /\ forall name bit,
         callbackNamed name = Some bit ->
         CallbackEnabled bit (set_enabledCallbacks mask (connect []))
         = CallbackEnabled bit (connect [])
           || bool_decide (name ∈ [bytes "readFile"; bytes "realpath"; bytes "readFile"]).
Proof.
  apply (handleConfigure_success _
           (mkConfigureParams [bytes "readFile"; bytes "realpath"; bytes "readFile"] [])
           (connect []));
    [vm_compute; reflexivity | repeat constructor; vm_compute; discriminate].
Defined.

Lemma Run_echo_witness :
  RunLoop 2 [] (set_r (wire MessageTypeRequest (bytes "echo") (bytes "hello") ++ [])
                      (connect []))
  = RunLoop 1 [bytes "echo"]
      (set_w (w (connect []) ++ wire MessageTypeResponse (bytes "echo") (bytes "hello"))
         (set_requestId (int64 (requestId (connect []) + 1)) (set_r [] (connect [])))).
Proof.
  apply (Run_echo 1 [] (bytes "hello") [] (connect []));
    [vm_compute; discriminate | reflexivity].
Defined.

Lemma Run_configure_witness :
  let payload := configurePayload [bytes "readFile"; bytes "bogus"] in
  RunLoop 2 []
    (set_r (wire MessageTypeRequest (bytes "configure") payload ++ []) (connect []))
  = RunLoop 1 [bytes "configure"]
      (set_w (w (connect [])
              ++ wire MessageTypeError (bytes "configure")
                   (bytes "unknown callback: " ++ bytes "bogus"))
         (set_enabledCallbacks (maskWith [bytes "readFile"] (enabledCallbacks (connect [])))
            (set_requestId (int64 (requestId (connect []) + 1)) (set_r [] (connect []))))).
Proof.
  cbv zeta.
  destruct (Run_configure 1 [] (configurePayload [bytes "readFile"; bytes "bogus"]) []
              (mkConfigureParams [bytes "readFile"; bytes "bogus"] []) (connect []))
    as [_ Hunknown];
    [vm_compute; discriminate | reflexivity | vm_compute; reflexivity |].
  apply (Hunknown [bytes "readFile"] (bytes "bogus") []);
    [reflexivity | repeat constructor; vm_compute; discriminate | reflexivity].
Defined.

Lemma Run_stops_witness :
  Run 3 (set_r (wire MessageTypeCallResponse (bytes "readFile") (bytes "null") ++ [x93])
               (connect []))
  = (Returned (Some (ErrInvalidRequest (ExpectedRequest MessageTypeCallResponse))),
     set_r [x93] (connect [])).
Proof.
  destruct (Run_stops 2 (connect [])) as [_ Hkind].
  apply Hkind; [repeat split; vm_compute; discriminate | discriminate].
Defined.

Lemma Run_double_fault_any_depth_witness :
  let broken :=
    mkServer (wire MessageTypeRequest (bytes "boom") []) []
             (Some (io_WriteError (bytes "broken pipe"))) 0 1 [] in
  RunLoop 3 [bytes "echo"] broken
  = (Crashed (PanicString (bytes "fatal error sending panic response")),
     set_requestId 2 (set_r [] broken)).
Proof.
  cbv zeta.
  apply (Run_double_fault_any_depth 2 [bytes "echo"] _
           (set_r [] (mkServer (wire MessageTypeRequest (bytes "boom") []) []
                        (Some (io_WriteError (bytes "broken pipe"))) 0 1 []))
           _ (bytes "boom") [] (PanicString (bytes "boom"))
           (io_WriteError (bytes "broken pipe")));
    [vm_compute; reflexivity | vm_compute; reflexivity | reflexivity].
Defined.

Lemma GetPackageJsonScopeIfApplicable_cases_witness :
  let on payload :=
    set_enabledCallbacks CallbackGetPackageJsonScopeIfApplicable
      (connect (wire MessageTypeCallResponse (bytes "getPackageJsonScopeIfApplicable")
                  payload)) in
  let sent :=
    set_w (wire MessageTypeCall (bytes "getPackageJsonScopeIfApplicable")
             (quote (bytes "/a/b.ts"))) in
  GetPackageJsonScopeIfApplicable (bytes "/a/b.ts") (connect [])
  = (Ret (Some (mkInfoCacheEntry (bytes "/local") true None)), connect [])
  /\ GetPackageJsonScopeIfApplicable (bytes "/a/b.ts") (on [])
     = (Ret None, sent (set_r [] (on [])))
  /\ GetPackageJsonScopeIfApplicable (bytes "/a/b.ts") (on (quote (bytes "/a")))
     = (Ret (Some (mkInfoCacheEntry (bytes "/a") true (Some (bytes "{}")))),
        sent (set_r [] (on (quote (bytes "/a"))))).
Proof.
  cbv zeta. split; [|split].
  - destruct (GetPackageJsonScopeIfApplicable_cases (bytes "/a/b.ts") (connect []))
      as (Hoff & _ & _).
    apply Hoff. reflexivity.
  - destruct (GetPackageJsonScopeIfApplicable_cases (bytes "/a/b.ts")
                (set_enabledCallbacks CallbackGetPackageJsonScopeIfApplicable
                   (connect (wire MessageTypeCallResponse
                               (bytes "getPackageJsonScopeIfApplicable") []))))
      as (_ & _ & Hon).
    destruct (Hon []
                (set_w (wire MessageTypeCall (bytes "getPackageJsonScopeIfApplicable")
                          (quote (bytes "/a/b.ts")))
                   (set_r [] (set_enabledCallbacks CallbackGetPackageJsonScopeIfApplicable
                      (connect (wire MessageTypeCallResponse
                                  (bytes "getPackageJsonScopeIfApplicable") []))))))
      as (Hempty & _); [reflexivity | vm_compute; reflexivity |].
    apply Hempty. reflexivity.
  - destruct (GetPackageJsonScopeIfApplicable_cases (bytes "/a/b.ts")
                (set_enabledCallbacks CallbackGetPackageJsonScopeIfApplicable
                   (connect (wire MessageTypeCallResponse
                               (bytes "getPackageJsonScopeIfApplicable")
                               (quote (bytes "/a"))))))
      as (_ & _ & Hon).
    destruct (Hon (quote (bytes "/a"))
                (set_w (wire MessageTypeCall (bytes "getPackageJsonScopeIfApplicable")
                          (quote (bytes "/a/b.ts")))
                   (set_r [] (set_enabledCallbacks CallbackGetPackageJsonScopeIfApplicable
                      (connect (wire MessageTypeCallResponse
                                  (bytes "getPackageJsonScopeIfApplicable")
                                  (quote (bytes "/a"))))))))
      as (_ & Hparsed & _); [reflexivity | vm_compute; reflexivity |].
    apply (Hparsed (mkPackageJsonIfApplicable (bytes "/a") true (bytes "{}")) (bytes "{}"));
      [discriminate | reflexivity | reflexivity].
Defined.

Lemma GetPackageScopeForPath_cases_witness :
  let s :=
    set_enabledCallbacks CallbackGetPackageScopeForPath
      (connect (wire MessageTypeCallResponse (bytes "getPackageScopeForPath") [])) in
  GetPackageScopeForPath (bytes "/a") s
  = (Ret (Some (mkInfoCacheEntry (bytes "/local") true None)),
     set_w (wire MessageTypeCall (bytes "getPackageScopeForPath") (quote (bytes "/a")))
           (set_r [] s)).
Proof.
  cbv zeta.
  destruct (GetPackageScopeForPath_cases (bytes "/a")
              (set_enabledCallbacks CallbackGetPackageScopeForPath
                 (connect (wire MessageTypeCallResponse (bytes "getPackageScopeForPath") []))))
    as (_ & _ & Hon).
  destruct (Hon []
              (set_w (wire MessageTypeCall (bytes "getPackageScopeForPath")
                        (quote (bytes "/a")))
                 (set_r [] (set_enabledCallbacks CallbackGetPackageScopeForPath
                    (connect (wire MessageTypeCallResponse (bytes "getPackageScopeForPath")
                                []))))))
    as (Hempty & _); [reflexivity | vm_compute; reflexivity |].
  apply Hempty. reflexivity.
Defined.

Lemma Resolve_cases_witness :
  let s :=
    set_enabledCallbacks CallbackResolveModuleName
      (connect (wire MessageTypeCallResponse (bytes "resolveModuleName")
                  (quote (bytes "/node_modules/x/index.d.ts")))) in
  exists s',
    w s'
    = wire MessageTypeCall (bytes "resolveModuleName")
        (bytes "{" ++ quote (bytes "moduleName") ++ bytes ":" ++ quote (bytes "x")
         ++ bytes "," ++ quote (bytes "containingFile") ++ bytes ":" ++ quote (bytes "/a.ts")
         ++ bytes "," ++ quote (bytes "resolutionMode") ++ bytes ":99,"
         ++ quote (bytes "redirectedReference") ++ bytes ":null}")
    /\ @ResolveModuleName jsonWithMaps resolver (bytes "x") (bytes "/a.ts") 99 any_nil s
       = (Ret (Some (bytes "/node_modules/x/index.d.ts"), []), s').
Proof.
  cbv zeta. eexists. split; [|
    destruct (@Resolve_cases jsonWithMaps resolver (bytes "x") (bytes "/a.ts") 99 any_nil
                (set_enabledCallbacks CallbackResolveModuleName
                   (connect (wire MessageTypeCallResponse (bytes "resolveModuleName")
                               (quote (bytes "/node_modules/x/index.d.ts"))))))
      as (_ & _ & Hon & _);
    destruct (Hon (quote (bytes "/node_modules/x/index.d.ts")) _
                eq_refl ltac:(vm_compute; reflexivity)) as (_ & Hparsed);
    apply Hparsed; [discriminate | reflexivity]].
  vm_compute. reflexivity.
Defined.

End ApiMore.

Module LsMore.
Import Ls LsProofs.

Lemma appendEach_invariant {X Y : Type} (I : diagnosticMaps -> Prop)
  (f : X -> diagnosticMaps -> result (Y * diagnosticMaps)) :
  (forall x d y d', f x d = Done (y, d') -> I d -> I d') ->
  forall xs acc d ys d', appendEach f xs acc d = Done (ys, d') -> I d -> I d'.
Proof.
  intros Hf xs. induction xs as [|x rest IH]; intros acc d ys d' Hrun Hd; cbn in Hrun.
  - injection Hrun as <- <-. exact Hd.
  - destruct (f x d) as [[y d1]| |] eqn:Hx; try discriminate.
    eapply IH; [exact Hrun | eapply Hf; eauto].
Qed.

Section Diagnostics.
Variable heap : gmap positive astDiagnostic.

(** What a call of [addDiagnostic] on an unregistered diagnostic did. *)
Lemma addDiagnostic_fresh (fuel : nat) (diagnostic : astDiagnosticPtr)
  (d d' : diagnosticMaps) (id : DiagnosticId) :
  diagnosticReverseMap d !! diagnostic = None ->
  addDiagnostic heap fuel diagnostic d = Done (id, d') ->
  exists fuel' ad chain d2 related d3,
    fuel = S fuel' /\ heap !! diagnostic = Some ad
    /\ id = uint32 (Z.of_nat (size (diagnosticMapById d)) + 1)
    /\ appendEach (addDiagnostic heap fuel') (ast_MessageChain ad) []
         (mkDiagnosticMaps (diagnosticMapById d)
            (<[diagnostic := id]> (diagnosticReverseMap d)))
       = Done (chain, d2)
    /\ appendEach (addDiagnostic heap fuel') (ast_RelatedInformation ad) [] d2
       = Done (related, d3)
    /\ d' = mkDiagnosticMaps
              (<[id := mkDiagnostic id (ast_FileName ad) (int32 (ast_Pos ad))
                         (int32 (ast_End ad)) (ast_Code ad) (ast_CategoryName ad)
                         (ast_Message ad) chain related false false false]>
                 (diagnosticMapById d3))
              (diagnosticReverseMap d3).
Proof.
  intros Hnew Hrun. destruct fuel as [|fuel']; cbn [addDiagnostic] in Hrun;
    rewrite Hnew in Hrun; [discriminate|].
  destruct (heap !! diagnostic) as [ad|] eqn:Had; [|discriminate].
  destruct (appendEach _ (ast_MessageChain ad) _ _) as [[chain d2]| |] eqn:Hchain;
    try discriminate.
  destruct (appendEach _ (ast_RelatedInformation ad) _ _) as [[related d3]| |]
    eqn:Hrelated; try discriminate.
  injection Hrun as <- <-.
  exists fuel', ad, chain, d2, related, d3. repeat split; assumption.
Qed.

Lemma addDiagnostic_found (fuel : nat) (diagnostic : astDiagnosticPtr)
  (d d' : diagnosticMaps) (i id : DiagnosticId) :
  diagnosticReverseMap d !! diagnostic = Some i ->
  addDiagnostic heap fuel diagnostic d = Done (id, d') ->
  id = i /\ d' = d.
Proof.
  intros Hi Hrun. destruct fuel; cbn [addDiagnostic] in Hrun; rewrite Hi in Hrun;
    injection Hrun as <- <-; split; reflexivity.
Qed.

Lemma addDiagnostic_storedById_step (fuel : nat) :
  forall diagnostic d id d',
    addDiagnostic heap fuel diagnostic d = Done (id, d') ->
    storedById d -> storedById d'.
Proof.
  induction fuel as [|fuel IH]; intros diagnostic d id d' Hrun Hd;
    (destruct (diagnosticReverseMap d !! diagnostic) as [i|] eqn:Hi;
     [apply (addDiagnostic_found _ _ _ _ _ _ Hi) in Hrun as [_ ->]; exact Hd|]);
    apply (addDiagnostic_fresh _ _ _ _ _ Hi) in Hrun
      as (fuel' & ad & chain & d2 & related & d3 & Hfuel & _ & Hid & Hchain & Hrelated & ->);
    [discriminate|].
  injection Hfuel as <-.
  assert (Hd3 : storedById d3).
  { apply (appendEach_invariant storedById _ IH _ _ _ _ _ Hrelated).
    apply (appendEach_invariant storedById _ IH _ _ _ _ _ Hchain).
    exact Hd. }
  intros k diag Hk. cbn [diagnosticMapById] in Hk.
  destruct (decide (id = k)) as [<-|Hne].
  - rewrite lookup_insert_eq in Hk. injection Hk as <-. cbn [Id].
    split; [reflexivity|]. rewrite Hid. unfold uint32. apply Z.mod_pos_bound. lia.
  - rewrite lookup_insert_ne in Hk by exact Hne. apply Hd3, Hk.
Qed.

(** X23. [addDiagnostic] keeps the map by id well keyed: when every stored
    diagnostic sits under its own id and ids are within [uint32] before a
    call, the same holds after it. *)
Theorem addDiagnostic_storedById (fuel : nat) (diagnostic : astDiagnosticPtr)
  (d d' : diagnosticMaps) (id : DiagnosticId) :
  storedById d ->
  addDiagnostic heap fuel diagnostic d = Done (id, d') ->
  storedById d'.
Proof.
  intros Hd Hrun. exact (addDiagnostic_storedById_step fuel _ _ _ _ Hrun Hd).
Qed.

(** X24. Ids are not unique.  A new diagnostic takes the size of the map by
    id plus one as its id, and is put in that map only after its message
    chain has been walked; so when the first element of its chain is new as
    well, that element takes the same id, and the two diagnostics end up
    registered under one id. *)
Theorem addDiagnostic_shares_id (fuel : nat) (diagnostic first : astDiagnosticPtr)
  (ad : astDiagnostic) (rest : list astDiagnosticPtr) (d d' : diagnosticMaps)
  (id : DiagnosticId) :
  heap !! diagnostic = Some ad ->
  ast_MessageChain ad = first :: rest ->
  first <> diagnostic ->
  diagnosticReverseMap d !! diagnostic = None ->
  diagnosticReverseMap d !! first = None ->
  addDiagnostic heap fuel diagnostic d = Done (id, d') ->
  diagnosticReverseMap d' !! diagnostic = Some id
  /\ diagnosticReverseMap d' !! first = Some id.
Proof.
  intros Had Hchain Hne Hnew Hfirst Hrun.
  split; [exact (addDiagnostic_registers heap _ _ _ _ _ Hrun)|].
  apply (addDiagnostic_fresh _ _ _ _ _ Hnew) in Hrun
    as (fuel' & ad' & chain & d2 & related & d3 & _ & Had' & Hid & Hwalk & Hrelated & ->).
  rewrite Had in Had'. injection Had' as <-. rewrite Hchain in Hwalk.
  cbn [appendEach] in Hwalk.
  destruct (addDiagnostic heap fuel' first _) as [[y d1]| |] eqn:Hcall; try discriminate.
  cbn [diagnosticReverseMap].
  apply (appendEach_persists _ (addDiagnostic_persists heap fuel') _ _ _ _ _ Hrelated).
  apply (appendEach_persists _ (addDiagnostic_persists heap fuel') _ _ _ _ _ Hwalk).
  pose proof (addDiagnostic_registers heap _ _ _ _ _ Hcall) as Hreg.
  assert (Hfresh : diagnosticReverseMap
                     (mkDiagnosticMaps (diagnosticMapById d)
                        (<[diagnostic := id]> (diagnosticReverseMap d))) !! first = None).
  { cbn [diagnosticReverseMap]. rewrite lookup_insert_ne by congruence. exact Hfirst. }
  apply (addDiagnostic_fresh _ _ _ _ _ Hfresh) in Hcall
    as (? & ? & ? & ? & ? & ? & _ & _ & Hy & _).
  cbn [diagnosticMapById] in Hy.
  assert (Hsame : y = id) by (rewrite Hy, Hid; reflexivity).
  rewrite <- Hsame. exact Hreg.
Qed.

Lemma appendEach_ids (fuel : nat) (xs : list astDiagnosticPtr) :
  forall acc d ys d',
    appendEach (addDiagnostic heap fuel) xs acc d = Done (ys, d') ->
    exists ids,
      ys = acc ++ ids
      /\ Forall2 (fun x y => diagnosticReverseMap d' !! x = Some y) xs ids.
Proof.
  induction xs as [|x rest IH]; intros acc d ys d' Hrun; cbn [appendEach] in Hrun.
  - injection Hrun as <- <-. exists []. split; [symmetry; apply List.app_nil_r | constructor].
  - destruct (addDiagnostic heap fuel x d) as [[y d1]| |] eqn:Hx; try discriminate.
    destruct (IH _ _ _ _ Hrun) as (ids & -> & Hids).
    exists (y :: ids). split; [rewrite <- List.app_assoc; reflexivity|].
    constructor; [|exact Hids].
    apply (appendEach_persists _ (addDiagnostic_persists heap fuel) _ _ _ _ _ Hrun).
    exact (addDiagnostic_registers heap _ _ _ _ _ Hx).
Qed.

(** X25. What a new diagnostic is turned into.  After a call on an
    unregistered diagnostic, the map by id holds, under the id returned, a
    [Diagnostic] with that id, the file name, code, category and message of
    the checker's diagnostic, its positions as [int32], the three flags off,
    and, in place of the message chain and the related information, the
    ids under which their elements are registered, in the same order. *)
Theorem addDiagnostic_converts (fuel : nat) (diagnostic : astDiagnosticPtr)
  (ad : astDiagnostic) (d d' : diagnosticMaps) (id : DiagnosticId) :
  diagnosticReverseMap d !! diagnostic = None ->
  heap !! diagnostic = Some ad ->
  addDiagnostic heap fuel diagnostic d = Done (id, d') ->
  exists chain related,
    diagnosticMapById d' !! id
    = Some (mkDiagnostic id (ast_FileName ad) (int32 (ast_Pos ad)) (int32 (ast_End ad))
              (ast_Code ad) (ast_CategoryName ad) (ast_Message ad) chain related
              false false false)
    /\ Forall2 (fun x y => diagnosticReverseMap d' !! x = Some y)
         (ast_MessageChain ad) chain
    /\ Forall2 (fun x y => diagnosticReverseMap d' !! x = Some y)
         (ast_RelatedInformation ad) related.
Proof.
  intros Hnew Had Hrun.
  apply (addDiagnostic_fresh _ _ _ _ _ Hnew) in Hrun
    as (fuel' & ad' & chain & d2 & related & d3 & _ & Had' & _ & Hchain & Hrelated & ->).
  rewrite Had in Had'. injection Had' as <-.
  destruct (appendEach_ids _ _ _ _ _ _ Hchain) as (ids1 & -> & Hids1).
  destruct (appendEach_ids _ _ _ _ _ _ Hrelated) as (ids2 & -> & Hids2).
  exists ids1, ids2. cbn [diagnosticMapById diagnosticReverseMap app].
  split; [apply lookup_insert_eq|]. split; [|exact Hids2].
  eapply Forall2_impl; [exact Hids1|]. intros x y Hxy.
  exact (appendEach_persists _ (addDiagnostic_persists heap fuel') _ _ _ _ _ Hrelated
           _ _ Hxy).
Qed.

Lemma unregistered_mono (d d' : diagnosticMaps) :
  dom (diagnosticReverseMap d) ⊆ dom (diagnosticReverseMap d') ->
  (size (unregistered heap d') <= size (unregistered heap d))%nat.
Proof.
  intros Hsub. apply subseteq_size. unfold unregistered. intros x Hx.
  apply elem_of_difference in Hx as [Hheap Hnot].
  apply elem_of_difference. split; [exact Hheap|].
  intros Hin. apply Hnot, Hsub, Hin.
Qed.

Lemma addDiagnostic_terminates_within (fuel : nat) :
  closed heap ->
  forall diagnostic d,
    is_Some (heap !! diagnostic) ->
    (size (unregistered heap d) <= fuel)%nat ->
    exists id d',
      addDiagnostic heap fuel diagnostic d = Done (id, d')
      /\ dom (diagnosticReverseMap d) ⊆ dom (diagnosticReverseMap d').
Proof.
  intros Hclosed. induction fuel as [|fuel IH]; intros diagnostic d [ad Had] Hsize.
  - destruct (diagnosticReverseMap d !! diagnostic) as [i|] eqn:Hi.
    + exists i, d. cbn [addDiagnostic]. rewrite Hi. split; [reflexivity | set_solver].
    + exfalso.
      assert (Hin : diagnostic ∈ unregistered heap d).
      { unfold unregistered. apply elem_of_difference. split.
        - apply elem_of_dom. eauto.
        - rewrite elem_of_dom, Hi. intros [? ?]. discriminate. }
      assert (Hempty : unregistered heap d = ∅)
        by (apply leibniz_equiv, size_empty_inv; lia).
      rewrite Hempty in Hin. set_solver.
  - destruct (diagnosticReverseMap d !! diagnostic) as [i|] eqn:Hi.
    + exists i, d. cbn [addDiagnostic]. rewrite Hi. split; [reflexivity | set_solver].
    + cbn [addDiagnostic]. rewrite Hi, Had.
      set (id := uint32 (Z.of_nat (size (diagnosticMapById d)) + 1)).
      set (d1 := mkDiagnosticMaps (diagnosticMapById d)
                   (<[diagnostic := id]> (diagnosticReverseMap d))).
      assert (Hd1 : (size (unregistered heap d1) <= fuel)%nat).
      { assert (Hlt : (size (unregistered heap d1) < size (unregistered heap d))%nat).
        { apply subset_size. unfold unregistered, d1. cbn [diagnosticReverseMap].
          rewrite dom_insert_L.
          assert (Hin : diagnostic ∈ dom heap) by (apply elem_of_dom; eauto).
          assert (Hout : diagnostic ∉ dom (diagnosticReverseMap d))
            by (rewrite elem_of_dom, Hi; intros [? ?]; discriminate).
          split.
          - intros x Hx. apply elem_of_difference in Hx as [Hheap Hnot].
            apply elem_of_difference. split; [exact Hheap|].
            intros Hc. apply Hnot, elem_of_union. right. exact Hc.
          - intros Hsup.
            assert (Hd : diagnostic ∈ dom heap ∖ dom (diagnosticReverseMap d))
              by (apply elem_of_difference; split; assumption).
            apply Hsup, elem_of_difference in Hd as [_ Hnot].
            apply Hnot, elem_of_union. left. apply elem_of_singleton. reflexivity. }
        lia. }
      assert (Hwalk : forall xs acc d0,
                 (forall x, x ∈ xs -> is_Some (heap !! x)) ->
                 (size (unregistered heap d0) <= fuel)%nat ->
                 exists ys d0',
                   appendEach (addDiagnostic heap fuel) xs acc d0 = Done (ys, d0')
                   /\ dom (diagnosticReverseMap d0) ⊆ dom (diagnosticReverseMap d0')).
      { induction xs as [|x rest IHxs]; intros acc d0 Hxs Hd0.
        - exists acc, d0. split; [reflexivity | set_solver].
        - destruct (IH x d0 (Hxs x ltac:(left)) Hd0) as (y & d0' & Hx & Hsub).
          destruct (IHxs (acc ++ [y]) d0' (fun z Hz => Hxs z ltac:(right; exact Hz)))
            as (ys & d0'' & Hrest & Hsub').
          { pose proof (unregistered_mono _ _ Hsub). lia. }
          exists ys, d0''. cbn [appendEach]. rewrite Hx. split; [exact Hrest | set_solver]. }
      destruct (Hwalk (ast_MessageChain ad) [] d1) as (chain & d2 & Hchain & Hsub2);
        [ intros x Hx; apply (Hclosed diagnostic ad x Had); set_solver | exact Hd1 |].
      destruct (Hwalk (ast_RelatedInformation ad) [] d2) as (related & d3 & Hrelated & Hsub3);
        [ intros x Hx; apply (Hclosed diagnostic ad x Had); set_solver
        | pose proof (unregistered_mono _ _ Hsub2); lia |].
      rewrite Hchain, Hrelated. eexists _, _. split; [reflexivity|].
      cbn [diagnosticReverseMap]. unfold d1 in Hsub2. cbn [diagnosticReverseMap] in Hsub2.
      rewrite dom_insert_L in Hsub2. set_solver.
Qed.

Lemma unregistered_size (d : diagnosticMaps) :
  (size (unregistered heap d) <= size heap)%nat.
Proof.
  rewrite <- (size_dom (D := gset positive) heap).
  apply subseteq_size. unfold unregistered. intros x Hx.
  apply elem_of_difference in Hx as [Hheap _]. exact Hheap.
Qed.

(** X26. [addDiagnostic] returns on every heap that is closed under message
    chains and related information, cycles included: a diagnostic is
    registered before its chain is walked, so no diagnostic is walked twice,
    and a depth of recursion equal to the number of diagnostics of the heap
    is always enough. *)
Theorem addDiagnostic_terminates (fuel : nat) (diagnostic : astDiagnosticPtr)
  (d : diagnosticMaps) :
  closed heap ->
  is_Some (heap !! diagnostic) ->
  (size heap <= fuel)%nat ->
  exists id d', addDiagnostic heap fuel diagnostic d = Done (id, d').
Proof.
  intros Hclosed Hin Hfuel.
  destruct (addDiagnostic_terminates_within fuel Hclosed diagnostic d Hin)
    as (id & d' & Hrun & _); [|eauto].
  etransitivity; [|exact Hfuel]. rewrite <- size_dom.
  apply subseteq_size. unfold unregistered. intros x Hx.
  apply elem_of_difference in Hx as [Hheap _]. exact Hheap.
Qed.

End Diagnostics.

(** ** Sorting the diagnostics *)

Lemma int64_small (z : Z) :
  -9223372036854775808 <= z < 9223372036854775808 -> int64 z = z.
Proof. intros Hz. unfold int64. rewrite Z.mod_small; lia. Qed.

Lemma compareIds_in_range (a b : Diagnostic) :
  0 <= Id a < 4294967296 -> 0 <= Id b < 4294967296 ->
  compareIds a b = Id a - Id b.
Proof.
  intros Ha Hb. unfold compareIds. rewrite (int64_small (Id a)), (int64_small (Id b)) by lia.
  apply int64_small. lia.
Qed.

#[local] Instance notAfter_total : Total notAfter.
Proof.
  intros a b. unfold notAfter, compareIds.
  generalize (int64 (Id a)) (int64 (Id b)). intros x y. unfold int64.
  Z.div_mod_to_equations. lia.
Qed.

Lemma notAfter_le (a b : Diagnostic) :
  0 <= Id a < 4294967296 -> 0 <= Id b < 4294967296 ->
  notAfter a b <-> Id a <= Id b.
Proof.
  intros Ha Hb. unfold notAfter. rewrite compareIds_in_range by assumption. lia.
Qed.

Lemma Sorted_weaken {A : Type} (R R' : relation A) (P : A -> Prop) (l : list A) :
  (forall x y, P x -> P y -> R x y -> R' x y) ->
  Forall P l -> Sorted R l -> Sorted R' l.
Proof.
  intros Himpl HP Hsorted. induction Hsorted as [|a l Hl IH Hhd]; [constructor|].
  apply Forall_cons in HP as [Pa Pl]. constructor; [apply IH, Pl|].
  destruct Hhd as [|b l' Hab]; constructor.
  apply Forall_cons in Pl as [Pb _]. apply Himpl; assumption.
Qed.

Lemma StronglySorted_weaken {A : Type} (R R' : relation A) (P : A -> Prop) (l : list A) :
  (forall x y, P x -> P y -> R x y -> R' x y) ->
  Forall P l -> StronglySorted R l -> StronglySorted R' l.
Proof.
  intros Himpl HP Hsorted. induction Hsorted as [|a l Hl IH Hall]; [constructor|].
  apply Forall_cons in HP as [Pa Pl]. constructor; [apply IH, Pl|].
  rewrite Forall_forall in *. intros x Hx. apply Himpl; auto.
Qed.

Lemma StronglySorted_strict (l : list Diagnostic) :
  StronglySorted (fun a b => Id a <= Id b) l ->
  NoDup (Id <$> l) ->
  StronglySorted (fun a b => Id a < Id b) l.
Proof.
  intros Hsorted. induction Hsorted as [|a l Hl IH Hall]; intros Hnd; [constructor|].
  cbn in Hnd. apply NoDup_cons in Hnd as [Hnotin Hnd]. constructor; [apply IH, Hnd|].
  rewrite Forall_forall in *. intros x Hx. specialize (Hall x Hx).
  assert (Id a <> Id x); [|lia].
  intros Heq. apply Hnotin. rewrite Heq. apply list_elem_of_fmap. eauto.
Qed.

Lemma values_stored (d : diagnosticMaps) (x : Diagnostic) :
  x ∈ (map_to_list (diagnosticMapById d)).*2 <-> diagnosticMapById d !! Id x = Some x
                                               \/ exists k, k <> Id x
                                                  /\ diagnosticMapById d !! k = Some x.
Proof.
  rewrite list_elem_of_fmap. split.
  - intros ([k y] & -> & Hin). apply elem_of_map_to_list in Hin. cbn.
    destruct (decide (k = Id y)) as [->|Hne]; [left; exact Hin | right; eauto].
  - intros [Hin | (k & _ & Hin)]; eexists (_, x); (split; [reflexivity|]);
      apply elem_of_map_to_list; exact Hin.
Qed.

Lemma values_in_range (d : diagnosticMaps) :
  storedById d ->
  Forall (fun x => diagnosticMapById d !! Id x = Some x /\ 0 <= Id x < 4294967296)
         ((map_to_list (diagnosticMapById d)).*2).
Proof.
  intros Hd. apply Forall_forall. intros x Hx. apply values_stored in Hx.
  destruct Hx as [Hin | (k & Hne & Hin)].
  - split; [exact Hin|]. apply (Hd _ _ Hin).
  - destruct (Hd _ _ Hin) as [Hid _]. congruence.
Qed.

Lemma ids_of_values (l : list (DiagnosticId * Diagnostic)) :
  Forall (fun kv => Id kv.2 = kv.1) l -> Id <$> l.*2 = l.*1.
Proof.
  induction 1 as [|[k x] l Hkx _ IH]; [reflexivity|].
  cbn in *. rewrite Hkx, IH. reflexivity.
Qed.

Lemma values_NoDup_ids (d : diagnosticMaps) :
  storedById d -> NoDup (Id <$> (map_to_list (diagnosticMapById d)).*2).
Proof.
  intros Hd. rewrite ids_of_values; [apply NoDup_fst_map_to_list|].
  apply Forall_forall. intros [k x] Hin. apply elem_of_map_to_list in Hin.
  apply (Hd _ _ Hin).
Qed.

Lemma GetDiagnostics_strict (d : diagnosticMaps) :
  storedById d ->
  StronglySorted (fun a b => Id a < Id b) (GetDiagnostics d).
Proof.
  intros Hd.
  assert (Hperm : GetDiagnostics d ≡ₚ (map_to_list (diagnosticMapById d)).*2)
    by apply merge_sort_Permutation.
  assert (Hrange : Forall (fun x => 0 <= Id x < 4294967296) (GetDiagnostics d)).
  { rewrite Hperm. eapply Forall_impl; [apply values_in_range, Hd|]. intros x [_ Hx].
    exact Hx. }
  apply StronglySorted_strict.
  - apply Sorted_StronglySorted; [intros x y z; lia|].
    apply (Sorted_weaken notAfter _ _ _ (fun x y Hx Hy => proj1 (notAfter_le x y Hx Hy))
             Hrange).
    apply Sorted_merge_sort. apply _.
  - rewrite Hperm. apply values_NoDup_ids, Hd.
Qed.

(** X27. [GetDiagnostics] on a map that stores every diagnostic under its
    own id returns each stored diagnostic once, with ids strictly
    increasing.  The result does not depend on the order in which the map
    is ranged over or on how the slice is sorted: any arrangement of the
    stored diagnostics that is sorted for [compareIds] is this one. *)
Theorem GetDiagnostics_sorted (d : diagnosticMaps) :
  storedById d ->
  GetDiagnostics d ≡ₚ (map_to_list (diagnosticMapById d)).*2
  /\ StronglySorted (fun a b => Id a < Id b) (GetDiagnostics d)
  /\ (forall sorted,
        sorted ≡ₚ (map_to_list (diagnosticMapById d)).*2 ->
        StronglySorted notAfter sorted ->
        sorted = GetDiagnostics d).
Proof.
  intros Hd.
  assert (Hperm : GetDiagnostics d ≡ₚ (map_to_list (diagnosticMapById d)).*2)
    by apply merge_sort_Permutation.
  pose proof (GetDiagnostics_strict d Hd) as Hstrict.
  pose proof (values_in_range d Hd) as Hvalues. rewrite Forall_forall in Hvalues.
  split; [exact Hperm|]. split; [exact Hstrict|].
  intros sorted Hsorted Hordered.
  apply (StronglySorted_unique_strong notAfter).
  - intros x1 x2 Hx1 Hx2 H12 H21.
    rewrite Hsorted in Hx1. rewrite Hperm in Hx2.
    destruct (Hvalues _ Hx1) as [Hin1 Hr1]. destruct (Hvalues _ Hx2) as [Hin2 Hr2].
    unfold notAfter in H12, H21. rewrite compareIds_in_range in H12, H21 by assumption.
    assert (Heq : Id x1 = Id x2) by lia. rewrite Heq in Hin1. congruence.
  - exact Hordered.
  - assert (Hrange : Forall (fun x => 0 <= Id x < 4294967296) (GetDiagnostics d)).
    { apply Forall_forall. intros x Hx. rewrite Hperm in Hx. apply (Hvalues _ Hx). }
    apply (StronglySorted_weaken (fun a b => Id a < Id b) notAfter _ _
             (fun x y Hx Hy Hxy => proj2 (notAfter_le x y Hx Hy) (Z.lt_le_incl _ _ Hxy))
             Hrange Hstrict).
  - rewrite Hsorted, Hperm. reflexivity.
Qed.

Section LanguageService.
Variable heap : gmap positive astDiagnostic.
Variable SourceFile : Type.
Variable GetSourceFiles : list SourceFile.
Variable GetSyntacticDiagnostics : SourceFile -> list astDiagnosticPtr.
Variable GetSemanticDiagnostics : SourceFile -> list astDiagnosticPtr.

Lemma addEach_storedById (fuel : nat) (diagnostics : list astDiagnosticPtr) :
  forall d d', addEach heap fuel diagnostics d = Done d' -> storedById d -> storedById d'.
Proof.
  induction diagnostics as [|x rest IH]; intros d d' Hrun Hd; cbn [addEach] in Hrun.
  - injection Hrun as <-. exact Hd.
  - destruct (addDiagnostic heap fuel x d) as [[id d1]| |] eqn:Hx; try discriminate.
    apply (IH _ _ Hrun). exact (addDiagnostic_storedById_step heap fuel _ _ _ _ Hx Hd).
Qed.

Lemma addFiles_storedById (fuel : nat) (sourceFiles : list SourceFile) :
  forall d d',
    addFiles heap SourceFile GetSyntacticDiagnostics GetSemanticDiagnostics
      fuel sourceFiles d = Done d' ->
    storedById d -> storedById d'.
Proof.
  induction sourceFiles as [|f rest IH]; intros d d' Hrun Hd; cbn [addFiles] in Hrun.
  - injection Hrun as <-. exact Hd.
  - destruct (addEach heap fuel (GetSyntacticDiagnostics f) d) as [d1| |] eqn:H1;
      try discriminate.
    destruct (addEach heap fuel (GetSemanticDiagnostics f) d1) as [d2| |] eqn:H2;
      try discriminate.
    apply (IH _ _ Hrun).
    apply (addEach_storedById _ _ _ _ H2), (addEach_storedById _ _ _ _ H1), Hd.
Qed.

Lemma addEach_terminates (fuel : nat) (diagnostics : list astDiagnosticPtr) :
  closed heap ->
  (size heap <= fuel)%nat ->
  Forall (fun p => is_Some (heap !! p)) diagnostics ->
  forall d, exists d', addEach heap fuel diagnostics d = Done d'.
Proof.
  intros Hclosed Hfuel Hall. induction Hall as [|x rest Hx _ IH]; intros d; cbn [addEach].
  - eauto.
  - destruct (addDiagnostic_terminates_within heap fuel Hclosed x d Hx)
      as (id & d1 & -> & _); [|apply IH].
    etransitivity; [apply unregistered_size | exact Hfuel].
Qed.

Lemma addFiles_terminates (fuel : nat) (sourceFiles : list SourceFile) :
  closed heap ->
  (size heap <= fuel)%nat ->
  Forall (fun f => Forall (fun p => is_Some (heap !! p))
                     (GetSyntacticDiagnostics f ++ GetSemanticDiagnostics f))
         sourceFiles ->
  forall d,
    exists d',
      addFiles heap SourceFile GetSyntacticDiagnostics GetSemanticDiagnostics
        fuel sourceFiles d = Done d'.
Proof.
  intros Hclosed Hfuel Hall. induction Hall as [|f rest Hf _ IH]; intros d; cbn [addFiles].
  - eauto.
  - apply Forall_app in Hf as [Hsyn Hsem].
    destruct (addEach_terminates fuel _ Hclosed Hfuel Hsyn d) as [d1 ->].
    destruct (addEach_terminates fuel _ Hclosed Hfuel Hsem d1) as [d2 ->].
    apply IH.
Qed.

(** X28. [LanguageService.GetDiagnostics] on a program whose diagnostics,
    with their message chains and related information, all exist: it
    returns, whatever the files and however the diagnostics refer to each
    other, and the ids of the diagnostics it returns are strictly
    increasing, so no id occurs twice in the result. *)
Theorem LanguageService_GetDiagnostics_sorted (fuel : nat) :
  closed heap ->
  Forall (fun f => Forall (fun p => is_Some (heap !! p))
                     (GetSyntacticDiagnostics f ++ GetSemanticDiagnostics f))
         GetSourceFiles ->
  (size heap <= fuel)%nat ->
  exists diagnostics,
    LanguageService_GetDiagnostics heap SourceFile GetSourceFiles GetSyntacticDiagnostics
      GetSemanticDiagnostics fuel
    = Done diagnostics
    /\ StronglySorted (fun a b => Id a < Id b) diagnostics.
Proof.
  intros Hclosed Hfiles Hfuel. unfold LanguageService_GetDiagnostics.
  destruct (addFiles_terminates fuel _ Hclosed Hfuel Hfiles (mkDiagnosticMaps ∅ ∅))
    as [d Hrun].
  rewrite Hrun. eexists. split; [reflexivity|]. apply GetDiagnostics_strict.
  apply (addFiles_storedById _ _ _ _ Hrun). intros k diag Hk. cbn in Hk.
  rewrite lookup_empty in Hk. discriminate.
Qed.

End LanguageService.

(** ** The theorems on the concrete heaps *)

Lemma addDiagnostic_storedById_witness :
  exists id d',
    addDiagnostic Fixture.diagnostics 2 1%positive Fixture.noDiagnostics = Done (id, d')
    /\ storedById d'.
Proof.
  eexists _, _. split; [vm_compute; reflexivity|].
  apply (addDiagnostic_storedById Fixture.diagnostics 2 1%positive Fixture.noDiagnostics _ 1).
  - intros k diag Hk. cbn in Hk. rewrite lookup_empty in Hk. discriminate.
  - vm_compute. reflexivity.
Defined.

Lemma addDiagnostic_shares_id_witness :
  exists d',
    addDiagnostic Fixture.diagnostics 2 1%positive Fixture.noDiagnostics = Done (1, d')
    /\ diagnosticReverseMap d' !! 1%positive = Some 1
    /\ diagnosticReverseMap d' !! 2%positive = Some 1.
Proof.
  eexists. split; [vm_compute; reflexivity|].
  apply (addDiagnostic_shares_id Fixture.diagnostics 2 1%positive 2%positive
           (mkAstDiagnostic (bytes "/a.ts") 10 20 2322 (bytes "error")
              (bytes "not assignable") [2%positive] [2%positive])
           [] Fixture.noDiagnostics);
    [ vm_compute; reflexivity | reflexivity | discriminate
    | reflexivity | reflexivity | vm_compute; reflexivity ].
Defined.

Lemma addDiagnostic_converts_witness :
  exists d',
    addDiagnostic Fixture.cyclicDiagnostics 2 2%positive Fixture.noDiagnostics
    = Done (1, d')
    /\ exists chain related,
         diagnosticMapById d' !! 1
         = Some (mkDiagnostic 1 (bytes "/b.ts") (int32 12) (int32 14) 2345 (bytes "error")
                   (bytes "second") chain related false false false)
         /\ Forall2 (fun x y => diagnosticReverseMap d' !! x = Some y) [] chain
         /\ Forall2 (fun x y => diagnosticReverseMap d' !! x = Some y) [1%positive] related.
Proof.
  eexists. split; [vm_compute; reflexivity|].
  apply (addDiagnostic_converts Fixture.cyclicDiagnostics 2 2%positive
           (mkAstDiagnostic (bytes "/b.ts") 12 14 2345 (bytes "error") (bytes "second")
              [] [1%positive])
           Fixture.noDiagnostics _ 1);
    [reflexivity | vm_compute; reflexivity | vm_compute; reflexivity].
Defined.

Lemma cyclicDiagnostics_closed : closed Fixture.cyclicDiagnostics.
Proof.
  intros p ad c Hp Hc. unfold Fixture.cyclicDiagnostics in *.
  destruct (decide (p = 1%positive)) as [->|H1].
  - rewrite lookup_insert_eq in Hp. injection Hp as <-. cbn in Hc.
    apply list_elem_of_singleton in Hc as ->. eexists. vm_compute. reflexivity.
  - rewrite lookup_insert_ne in Hp by congruence.
    destruct (decide (p = 2%positive)) as [->|H2].
    + rewrite lookup_insert_eq in Hp. injection Hp as <-. cbn in Hc.
      apply list_elem_of_singleton in Hc as ->. eexists. vm_compute. reflexivity.
    + rewrite lookup_insert_ne, lookup_empty in Hp by congruence. discriminate.
Qed.

Lemma addDiagnostic_terminates_witness :
  exists id d',
    addDiagnostic Fixture.cyclicDiagnostics 2 1%positive Fixture.noDiagnostics
    = Done (id, d').
Proof.
  apply (addDiagnostic_terminates Fixture.cyclicDiagnostics 2 1%positive
           Fixture.noDiagnostics cyclicDiagnostics_closed).
  - eexists. vm_compute. reflexivity.
  - vm_compute. lia.
Defined.

Lemma storedDiagnostics_storedById : storedById Fixture.storedDiagnostics.
Proof.
  intros k diag Hk. unfold Fixture.storedDiagnostics in Hk. cbn [diagnosticMapById] in Hk.
  destruct (decide (k = 2)) as [->|H2].
  - rewrite lookup_insert_eq in Hk. injection Hk as <-. split; [reflexivity | cbn; lia].
  - rewrite lookup_insert_ne in Hk by congruence.
    destruct (decide (k = 1)) as [->|H1].
    + rewrite lookup_insert_eq in Hk. injection Hk as <-. split; [reflexivity | cbn; lia].
    + rewrite lookup_insert_ne, lookup_empty in Hk by congruence. discriminate.
Qed.

Lemma GetDiagnostics_sorted_witness :
  GetDiagnostics Fixture.storedDiagnostics
    ≡ₚ (map_to_list (diagnosticMapById Fixture.storedDiagnostics)).*2
  /\ StronglySorted (fun a b => Id a < Id b) (GetDiagnostics Fixture.storedDiagnostics)
  /\ (forall sorted,
        sorted ≡ₚ (map_to_list (diagnosticMapById Fixture.storedDiagnostics)).*2 ->
        StronglySorted notAfter sorted ->
        sorted = GetDiagnostics Fixture.storedDiagnostics).
Proof.
  apply (GetDiagnostics_sorted Fixture.storedDiagnostics storedDiagnostics_storedById).
Defined.

Lemma diagnostics_closed : closed Fixture.diagnostics.
Proof.
  intros p ad c Hp Hc. unfold Fixture.diagnostics in *.
  destruct (decide (p = 1%positive)) as [->|H1].
  - rewrite lookup_insert_eq in Hp. injection Hp as <-. cbn in Hc.
    assert (c = 2%positive) as ->.
    { apply elem_of_cons in Hc as [->|Hc]; [reflexivity|].
      apply list_elem_of_singleton in Hc. exact Hc. }
    eexists. vm_compute. reflexivity.
  - rewrite lookup_insert_ne in Hp by congruence.
    destruct (decide (p = 2%positive)) as [->|H2].
    + rewrite lookup_insert_eq in Hp. injection Hp as <-. cbn in Hc.
      apply elem_of_nil in Hc. contradiction.
    + rewrite lookup_insert_ne, lookup_empty in Hp by congruence. discriminate.
Qed.

Lemma LanguageService_GetDiagnostics_sorted_witness :
  exists diagnostics,
    LanguageService_GetDiagnostics Fixture.diagnostics unit [tt]
      (fun _ => [1%positive]) (fun _ => [2%positive]) 2
    = Done diagnostics
    /\ StronglySorted (fun a b => Id a < Id b) diagnostics.
Proof.
  apply (LanguageService_GetDiagnostics_sorted Fixture.diagnostics unit [tt]
           (fun _ => [1%positive]) (fun _ => [2%positive]) 2 diagnostics_closed).
  - repeat constructor; eexists; vm_compute; reflexivity.
  - vm_compute. lia.
Defined.

End LsMore.

(** * Symbol tables *)

Module AstMore.
Import Ast.

Lemma contents_insert_eq (st : Store) (l : positive) (o : mapObject) :
  contents (<[l := o]> st) (Some l) = o.
Proof. unfold contents. rewrite lookup_insert_eq. reflexivity. Qed.

Lemma contents_insert_ne (st : Store) (l l' : positive) (o : mapObject) :
  l <> l' -> contents (<[l := o]> st) (Some l') = contents st (Some l').
Proof. intros Hne. unfold contents. rewrite lookup_insert_ne by exact Hne. reflexivity. Qed.

Lemma sameEntries_contents (t t' : SymbolMap) (st st' : Store) :
  contents st (m t) = contents st' (m t') -> sameEntries t st t' st'.
Proof. intros Heq name. unfold Get2. rewrite Heq. reflexivity. Qed.

Lemma Get2_stored (t : SymbolMap) (st : Store) (name : list byte) (symbol : SymbolPtr) :
  Get2 t name st = (symbol, true) <-> contents st (m t) !! name = Some symbol.
Proof.
  unfold Get2. destruct (contents st (m t) !! name) as [x|]; split; intros H;
    try discriminate; injection H as ->; reflexivity.
Qed.

Lemma fresh_allocated (st : Store) (l : positive) :
  is_Some (st !! l) -> fresh (dom st) <> l.
Proof.
  intros Hl Heq. apply (is_fresh (dom st)). rewrite Heq. apply elem_of_dom. exact Hl.
Qed.

(** X29. [Clone] gives a table of its own.  The clone answers every lookup
    as the original does, and from then on neither sees what is set or
    deleted in the other: after a [Set] or [Delete] on the clone the
    original answers as before, and the other way round. *)
Theorem Clone_isolated (t c : SymbolMap) (st st1 : Store) :
  allocated st (m t) ->
  Clone t st = (c, st1) ->
  sameEntries c st1 t st
  /\ sameEntries t st1 t st
  /\ (forall name symbol st2,
        Set_ c name symbol st1 = Some st2 ->
        sameEntries t st2 t st /\ Get2 c name st2 = (symbol, true))
  /\ (forall name symbol st2,
        Set_ t name symbol st1 = Some st2 ->
        sameEntries c st2 t st /\ Get2 t name st2 = (symbol, true))
  /\ (forall name,
        sameEntries t (Delete c name st1) t st
        /\ sameEntries c (Delete t name st1) t st).
Proof.
  destruct t as [[l|]]; unfold Clone, maps_Clone; cbn [m allocated]; intros Hl Hclone;
    injection Hclone as <- <-.
  - pose proof (fresh_allocated st l Hl) as Hfresh. set (l' := fresh (dom st)) in *.
    assert (Hc : contents (<[l' := contents st (Some l)]> st) (Some l')
                 = contents st (Some l)) by apply contents_insert_eq.
    assert (Ht : contents (<[l' := contents st (Some l)]> st) (Some l)
                 = contents st (Some l)) by (apply contents_insert_ne; exact Hfresh).
    split; [apply sameEntries_contents; exact Hc|].
    split; [apply sameEntries_contents; exact Ht|].
    split; [|split].
    + intros name symbol st2 Hset. unfold Set_ in Hset. cbn [m] in Hset.
      injection Hset as <-. split.
      * apply sameEntries_contents. cbn [m].
        rewrite contents_insert_ne by exact Hfresh. exact Ht.
      * apply Get2_stored. cbn [m]. rewrite contents_insert_eq. apply lookup_insert_eq.
    + intros name symbol st2 Hset. unfold Set_ in Hset. cbn [m] in Hset.
      injection Hset as <-. split.
      * apply sameEntries_contents. cbn [m].
        rewrite contents_insert_ne by (intros Heq; apply Hfresh; symmetry; exact Heq).
        exact Hc.
      * apply Get2_stored. cbn [m]. rewrite contents_insert_eq. apply lookup_insert_eq.
    + intros name. unfold Delete. cbn [m]. split; apply sameEntries_contents; cbn [m].
      * rewrite contents_insert_ne by exact Hfresh. exact Ht.
      * rewrite contents_insert_ne by (intros Heq; apply Hfresh; symmetry; exact Heq).
        exact Hc.
  - split; [intros name; reflexivity|]. split; [intros name; reflexivity|].
    split; [|split].
    + intros name symbol st2 Hset. discriminate.
    + intros name symbol st2 Hset. discriminate.
    + intros name. split; intros n; reflexivity.
Qed.

Lemma Find_entries (predicate : SymbolPtr -> bool) (entries : list (list byte * SymbolPtr)) :
  (predicate (Find predicate entries) = true
   /\ exists name, (name, Find predicate entries) ∈ entries)
  \/ (Find predicate entries = None
      /\ forall name symbol, (name, symbol) ∈ entries -> predicate symbol = false).
Proof.
  induction entries as [|[name symbol] rest IH]; cbn [Find].
  - right. split; [reflexivity|]. intros name symbol Hin. apply elem_of_nil in Hin.
    contradiction.
  - destruct (predicate symbol) eqn:Hp.
    + left. split; [exact Hp|]. exists name. apply list_elem_of_here.
    + destruct IH as [[Hfound [n Hin]] | [Hnone Hall]].
      * left. split; [exact Hfound|]. exists n. apply list_elem_of_further, Hin.
      * right. split; [exact Hnone|]. intros n x Hin.
        apply elem_of_cons in Hin as [Heq | Hin]; [congruence | exact (Hall n x Hin)].
Qed.

Lemma ranged_stored (t : SymbolMap) (st : Store) (entries : list (list byte * SymbolPtr))
  (symbol : SymbolPtr) :
  ranged t st entries ->
  stored t st symbol <-> exists name, (name, symbol) ∈ entries.
Proof.
  intros Hranged. unfold stored. split; intros [name H]; exists name.
  - rewrite Hranged. apply elem_of_map_to_list, Get2_stored, H.
  - rewrite Hranged in H. apply Get2_stored, elem_of_map_to_list, H.
Qed.

Lemma Find_stored (t : SymbolMap) (st : Store) (predicate : SymbolPtr -> bool)
  (entries : list (list byte * SymbolPtr)) :
  ranged t st entries ->
  (stored t st (Find predicate entries) /\ predicate (Find predicate entries) = true)
  \/ (Find predicate entries = None
      /\ forall symbol, stored t st symbol -> predicate symbol = false).
Proof.
  intros Hranged. destruct (Find_entries predicate entries) as [[Hp Hin] | [Hnone Hall]].
  - left. split; [|exact Hp]. apply (ranged_stored _ _ _ _ Hranged), Hin.
  - right. split; [exact Hnone|]. intros symbol Hstored.
    apply (ranged_stored _ _ _ _ Hranged) in Hstored as [name Hin]. exact (Hall _ _ Hin).
Qed.

(** X30. [Find], in whatever order the map is ranged over, returns a
    stored symbol that satisfies the predicate, or nil when no stored
    symbol satisfies it.  When the stored symbols that satisfy the predicate
    are all one symbol, the result is the same for every order. *)
Theorem Find_cases (t : SymbolMap) (st : Store) (predicate : SymbolPtr -> bool)
  (entries : list (list byte * SymbolPtr)) :
  ranged t st entries ->
  ((stored t st (Find predicate entries) /\ predicate (Find predicate entries) = true)
   \/ (Find predicate entries = None
       /\ forall symbol, stored t st symbol -> predicate symbol = false))
  /\ ((forall a b, stored t st a -> stored t st b ->
                  predicate a = true -> predicate b = true -> a = b) ->
      forall entries', ranged t st entries' ->
                       Find predicate entries' = Find predicate entries).
Proof.
  intros Hranged. split; [exact (Find_stored t st predicate entries Hranged)|].
  intros Hone entries' Hranged'.
  destruct (Find_stored t st predicate entries Hranged) as [[Hs Hp] | [Hnone Hall]],
           (Find_stored t st predicate entries' Hranged') as [[Hs' Hp'] | [Hnone' Hall']].
  - exact (Hone _ _ Hs' Hs Hp' Hp).
  - rewrite (Hall' _ Hs) in Hp. discriminate.
  - rewrite (Hall _ Hs') in Hp'. discriminate.
  - rewrite Hnone, Hnone'. reflexivity.
Qed.

(** ** The theorems on a concrete table *)

Lemma Clone_isolated_witness :
  exists c st1,
    Clone Fixture.symbolTable Fixture.symbols = (c, st1)
    /\ sameEntries c st1 Fixture.symbolTable Fixture.symbols
    /\ sameEntries Fixture.symbolTable st1 Fixture.symbolTable Fixture.symbols
    /\ (forall name symbol st2,
          Set_ c name symbol st1 = Some st2 ->
          sameEntries Fixture.symbolTable st2 Fixture.symbolTable Fixture.symbols
          /\ Get2 c name st2 = (symbol, true))
    /\ (forall name symbol st2,
          Set_ Fixture.symbolTable name symbol st1 = Some st2 ->
          sameEntries c st2 Fixture.symbolTable Fixture.symbols
          /\ Get2 Fixture.symbolTable name st2 = (symbol, true))
    /\ (forall name,
          sameEntries Fixture.symbolTable (Delete c name st1)
            Fixture.symbolTable Fixture.symbols
          /\ sameEntries c (Delete Fixture.symbolTable name st1)
               Fixture.symbolTable Fixture.symbols).
Proof.
  eexists _, _. split; [reflexivity|].
  apply (Clone_isolated Fixture.symbolTable _ Fixture.symbols _).
  - eexists. vm_compute. reflexivity.
  - reflexivity.
Defined.

Lemma Find_cases_witness :
  let entries := [(bytes "a", Some 7%positive); (bytes "b", Some 8%positive)] in
  let predicate := fun symbol : SymbolPtr => bool_decide (symbol = Some 7%positive) in
  Find predicate entries = Some 7%positive
  /\ forall entries', ranged Fixture.symbolTable Fixture.symbols entries' ->
                      Find predicate entries' = Find predicate entries.
Proof.
  cbv zeta. split; [reflexivity|].
  apply (Find_cases Fixture.symbolTable Fixture.symbols).
  - unfold ranged. vm_compute. first [reflexivity | apply perm_swap].
  - intros a b _ _ Ha Hb. apply bool_decide_eq_true in Ha, Hb. congruence.
Defined.

End AstMore.
